(** * Cuble: cube state, facelet projection, picker and keyboard navigation

    A shallow embedding of the puzzle core of the Cuble game:
    - [Cube3D]'s static piece tables (cube3d.js),
    - the facelet projector [stateToFaceletColors], the sticker metric, the
      guess check and the seeded state generator (main script),
    - the picker callbacks and the WASD navigator of [Cube3D],
    - the storage keys, the statistics, the score and the guess counter of
      the main script, [save] and [load] of [Cube3D], the reverse coordinate
      map, and the sessions at the picker that enter a given state.

    JavaScript numbers that index arrays are integers here ([Z]); arrays are
    lists read with [js_get] (out of range: [undefined], here [None]). *)

From Stdlib Require Import ZArith QArith Lia Bool String Ascii List Permutation
  DecimalString Qabs Qround.
From Stdlib Require DecimalPos DecimalZ.
From stdpp Require Import base decidable option list strings gmap.

Import ListNotations.
#[local] Open Scope string_scope.
#[local] Open Scope list_scope.
#[local] Open Scope Z_scope.

(** ** JavaScript values used by the code *)

Module JS.

(** [arr[i]] for a number [i]: [undefined] outside [0 .. length-1]. *)
Definition js_get {A : Type} (arr : list A) (i : Z) : option A :=
  if decide (0 <= i) then arr !! Z.to_nat i else None.

(** [arr[i] = v] for an index of an existing element.  A negative [i] only
    adds a property named by [i]; the elements stay as they are. *)
Definition js_set {A : Type} (arr : list A) (i : Z) (v : A) : list A :=
  if decide (0 <= i) then <[Z.to_nat i := v]> arr else arr.

(** [Array.prototype.indexOf] on an array of strings. *)
Fixpoint array_indexOf_from (arr : list string) (x : string) (k : Z) : Z :=
  match arr with
  | [] => -1
  | y :: tl => if decide (y = x) then k else array_indexOf_from tl x (k + 1)
  end.

Definition array_indexOf (arr : list string) (x : string) : Z :=
  array_indexOf_from arr x 0.

(** [Array.prototype.includes] on an array of integers. *)
Definition includes (arr : list Z) (x : Z) : bool := bool_decide (x ∈ arr).

(** [String.prototype.indexOf]. *)
Definition string_indexOf (s sub : string) : Z :=
  match String.index 0 sub s with
  | Some n => Z.of_nat n
  | None => -1
  end.

(** Numbers as the projector meets them: an integer, or [NaN] once
    [undefined] has entered an addition or a subtraction. *)
Inductive number : Type :=
| Int (z : Z)
| NaN.

Definition of_undefined (v : option Z) : number :=
  match v with Some z => Int z | None => NaN end.

Definition num_add (a b : number) : number :=
  match a, b with
  | Int x, Int y => Int (x + y)
  | _, _ => NaN
  end.

Definition num_sub (a b : number) : number :=
  match a, b with
  | Int x, Int y => Int (x - y)
  | _, _ => NaN
  end.

(** [a % n]: the remainder takes the sign of the dividend; [x % 0] is
    [NaN]. *)
Definition num_rem (a : number) (n : Z) : number :=
  match a with
  | Int x => if decide (n = 0) then NaN else Int (Z.rem x n)
  | NaN => NaN
  end.

(** [s.charAt(pos)]: [NaN] counts as position 0; a position outside the
    string gives the empty string. *)
Definition charAt (s : string) (pos : number) : string :=
  let p := match pos with Int z => z | NaN => 0 end in
  if decide (0 <= p) then
    match String.get (Z.to_nat p) s with
    | Some c => String c EmptyString
    | None => EmptyString
    end
  else EmptyString.

(** The characters of a string, as [for (const c of s)] yields them. *)
Fixpoint chars (s : string) : list string :=
  match s with
  | EmptyString => []
  | String c tl => String c EmptyString :: chars tl
  end.

Definition strlen (s : string) : Z := Z.of_nat (String.length s).

(** [arr.toString()] for an array of strings: the elements joined by
    commas. *)
Fixpoint toString (arr : list string) : string :=
  match arr with
  | [] => EmptyString
  | [x] => x
  | x :: tl => x ++ "," ++ toString tl
  end.

(** Outcome of a call that may throw. *)
Inductive error : Type :=
| TypeError     (* a property read on [undefined] *)
| SyntaxError.  (* [JSON.parse] on text that is not JSON *)

Inductive completion (A : Type) : Type :=
| Normal (v : A)
| Throw (e : error).
Arguments Normal {A} v.
Arguments Throw {A} e.

Definition bind {A B : Type} (c : completion A) (k : A -> completion B)
  : completion B :=
  match c with
  | Normal v => k v
  | Throw e => Throw e
  end.

End JS.

Import JS.

Notation "'let!' x ':=' c 'in' k" := (JS.bind c (fun x => k))
  (at level 10, x name, c at level 100, k at level 200).

(** ** Piece catalog (static members of [Cube3D]) *)

Module Cube3D.

Definition CUBIE_ORDER : list string :=
  [ "UF"; "UR"; "UB"; "UL"; "DF"; "DR"; "DB"; "DL"; "FR"; "FL"; "BR"; "BL";
    "UFR"; "URB"; "UBL"; "ULF"; "DRF"; "DFL"; "DLB"; "DBR" ].

Definition CUBIE_COORDINATES : gmap string (Z * Z * Z) :=
  list_to_map
    [ ("UF", (1, 2, 2)); ("UR", (2, 1, 2)); ("UB", (1, 0, 2)); ("UL", (0, 1, 2));
      ("DF", (1, 2, 0)); ("DR", (2, 1, 0)); ("DB", (1, 0, 0)); ("DL", (0, 1, 0));
      ("FR", (2, 2, 1)); ("FL", (0, 2, 1)); ("BR", (2, 0, 1)); ("BL", (0, 0, 1));
      ("UFR", (2, 2, 2)); ("URB", (2, 0, 2)); ("UBL", (0, 0, 2)); ("ULF", (0, 2, 2));
      ("DRF", (2, 2, 0)); ("DFL", (0, 2, 0)); ("DLB", (0, 0, 0)); ("DBR", (2, 0, 0)) ].

Definition ADJACENCY_MAP : gmap string (list string) :=
  list_to_map
    [ ("UFR", ["UF"; "FR"; "UR"]);
      ("URB", ["UR"; "BR"; "UB"]);
      ("UBL", ["UB"; "BL"; "UL"]);
      ("ULF", ["UL"; "FL"; "UF"]);
      ("DRF", ["DF"; "FR"; "DR"]);
      ("DFL", ["DF"; "FL"; "DL"]);
      ("DLB", ["DL"; "BL"; "DB"]);
      ("DBR", ["DB"; "BR"; "DR"]);
      ("UF", ["UFR"; "ULF"]);
      ("UR", ["UFR"; "URB"]);
      ("UB", ["URB"; "UBL"]);
      ("UL", ["UBL"; "ULF"]);
      ("DF", ["DRF"; "DFL"]);
      ("DR", ["DRF"; "DBR"]);
      ("DB", ["DBR"; "DLB"]);
      ("DL", ["DLB"; "DFL"]);
      ("FR", ["UFR"; "DRF"]);
      ("FL", ["ULF"; "DFL"]);
      ("BR", ["URB"; "DBR"]);
      ("BL", ["UBL"; "DLB"]) ].

Definition getStateIndex (cubie : string) : Z :=
  array_indexOf CUBIE_ORDER cubie.

(** [isCenterName] on a string: centers and the placeholder have a name
    whose length is neither 2 nor 3. *)
Definition isCenterName (name : string) : bool :=
  negb (strlen name =? 2) && negb (strlen name =? 3).

End Cube3D.

(** ** Adjacency: what the static tables say *)

Module Adjacency.
Import Cube3D.

(** [b] is listed as a neighbour of [a]. *)
Definition listed (a b : string) : Prop :=
  exists ns, ADJACENCY_MAP !! a = Some ns /\ b ∈ ns.

Definition listedb (a b : string) : bool :=
  match ADJACENCY_MAP !! a with
  | Some ns => bool_decide (b ∈ ns)
  | None => false
  end.

(** The grid coordinates differ by exactly 1 on exactly one axis and agree
    on the two others. *)
Definition unit_axis_step (p q : Z * Z * Z) : Prop :=
  let '(px, py, pz) := p in
  let '(qx, qy, qz) := q in
  (Z.abs (qx - px) = 1 /\ qy = py /\ qz = pz)
  \/ (qx = px /\ Z.abs (qy - py) = 1 /\ qz = pz)
  \/ (qx = px /\ qy = py /\ Z.abs (qz - pz) = 1).

Definition unit_axis_stepb (p q : Z * Z * Z) : bool :=
  let '(px, py, pz) := p in
  let '(qx, qy, qz) := q in
  let dx := Z.abs (qx - px) in
  let dy := Z.abs (qy - py) in
  let dz := Z.abs (qz - pz) in
  ((dx =? 1) && (dy =? 0) && (dz =? 0))
  || ((dx =? 0) && (dy =? 1) && (dz =? 0))
  || ((dx =? 0) && (dy =? 0) && (dz =? 1)).

(** One name has two letters (an edge) and the other three (a corner). *)
Definition opposite_kind (a b : string) : bool :=
  ((strlen a =? 2) && (strlen b =? 3)) || ((strlen a =? 3) && (strlen b =? 2)).

Definition geometric (a b : string) : bool :=
  match CUBIE_COORDINATES !! a, CUBIE_COORDINATES !! b with
  | Some p, Some q => unit_axis_stepb p q
  | _, _ => false
  end.

(** The three checks for one entry [a : ns] of the table. *)
Definition entry_ok (a : string) (ns : list string) : bool :=
  forallb (fun b => opposite_kind a b && listedb b a && geometric a b) ns.

Definition table_ok : bool :=
  forallb (fun kv => entry_ok (fst kv) (snd kv)) (map_to_list ADJACENCY_MAP).

End Adjacency.


(** ** The parity checks of the solver *)

Module Solver.

(** Number of pairs of positions of [l] that are out of order. *)
Fixpoint inversions (l : list Z) : Z :=
  match l with
  | [] => 0
  | x :: tl => Z.of_nat (length (filter (fun y => y < x) tl)) + inversions tl
  end.

Definition sumZ (l : list Z) : Z := foldr Z.add 0 l.

(** Modelled from the spec: lib/solver.js is not among the sources.  The
    orientation half of the state is [currentState.slice(20)]; the edge
    parity is the sum of the twelve edge orientations mod 2. *)
Definition edgeParity (currentState : list Z) : Z :=
  sumZ (take 12 (drop 20 currentState)) mod 2.

(** Modelled from the spec: lib/solver.js is not among the sources.  The
    corner parity is the sum of the eight corner orientations mod 3. *)
Definition cornerParity (currentState : list Z) : Z :=
  sumZ (take 8 (drop 32 currentState)) mod 3.

(** Modelled from the spec: lib/solver.js is not among the sources.  The
    permutation parity is that of the edge permutation xor that of the
    corner permutation, that is the parity of the twenty entries. *)
Definition permutationParity (currentState : list Z) : Z :=
  inversions (take 20 currentState) mod 2.

(** Modelled from the spec: lib/solver.js is not among the sources.  A
    state verifies when the three parities vanish. *)
Definition verifyState (currentState : list Z) : bool :=
  (permutationParity currentState =? 0)
  && (edgeParity currentState =? 0)
  && (cornerParity currentState =? 0).

End Solver.

(** ** Facelet projection, sticker metric and guess check (main script) *)

Module Main.
Import Cube3D.

(** The [FACELETS] object of [stateToFaceletColors]. *)
Definition FACELETS : gmap string (list string) :=
  list_to_map
    [ ("U", ["UBL"; "UB"; "URB"; "UL"; "U"; "UR"; "ULF"; "UF"; "UFR"]);
      ("L", ["UBL"; "UL"; "ULF"; "BL"; "L"; "FL"; "DLB"; "DL"; "DFL"]);
      ("F", ["ULF"; "UF"; "UFR"; "FL"; "F"; "FR"; "DFL"; "DF"; "DRF"]);
      ("R", ["UFR"; "UR"; "URB"; "FR"; "R"; "BR"; "DRF"; "DR"; "DBR"]);
      ("B", ["URB"; "UB"; "UBL"; "BR"; "B"; "BL"; "DBR"; "DB"; "DLB"]);
      ("D", ["DFL"; "DF"; "DRF"; "DL"; "D"; "DR"; "DLB"; "DB"; "DBR"]) ].

(** The piece name [CUBIE_ORDER[permutation[index]]]; [undefined] when the
    slot entry is missing, unassigned (-1) or not an index of the order. *)
Definition occupant (permutation : list Z) (index : Z) : option string :=
  match js_get permutation index with
  | Some p => js_get CUBIE_ORDER p
  | None => None
  end.

(** Body of the inner loop: the colour pushed for [facelet] on [face]. *)
Definition facelet_color (permutation orientation : list Z)
    (face facelet : string) : completion string :=
  if strlen facelet =? 1 then Normal facelet
  else
    let index := getStateIndex facelet in
    let actualPermutation := occupant permutation index in
    let actualOrientation := Int (string_indexOf facelet face) in
    let actualOrientation :=
      if strlen facelet =? 2 then
        num_add actualOrientation (of_undefined (js_get orientation index))
      else if strlen facelet =? 3 then
        num_add actualOrientation
          (num_sub (Int 3) (of_undefined (js_get orientation index)))
      else actualOrientation in
    match actualPermutation with
    | None => Throw TypeError
    | Some name =>
        Normal (charAt name (num_rem actualOrientation (strlen name)))
    end.

(** [for (const facelet of FACELETS[face])], pushing onto [colors]. *)
Fixpoint push_facelets (permutation orientation : list Z) (face : string)
    (facelets : list string) (colors : list string)
    : completion (list string) :=
  match facelets with
  | [] => Normal colors
  | facelet :: rest =>
      let! c := facelet_color permutation orientation face facelet in
      push_facelets permutation orientation face rest (colors ++ [c])
  end.

(** [for (const face of 'ULFRBD')]. *)
Fixpoint push_faces (permutation orientation : list Z)
    (faces : list string) (colors : list string)
    : completion (list string) :=
  match faces with
  | [] => Normal colors
  | face :: rest =>
      match FACELETS !! face with
      | None => Throw TypeError
      | Some facelets =>
          let! colors' :=
            push_facelets permutation orientation face facelets colors in
          push_faces permutation orientation rest colors'
      end
  end.

Definition stateToFaceletColors (state : list Z) : completion (list string) :=
  let permutation := take 20 state in
  let orientation := drop 20 state in
  push_faces permutation orientation (chars "ULFRBD") [].

(** The loop of [countSolvedStickers]: [i] runs over [0 .. 53], centres
    ([i % 9 === 4]) are skipped, [===] compares the two array reads. *)
Definition sticker_matches (currentColors answerColors : list string)
    (i : Z) : bool :=
  negb (Z.rem i 9 =? 4)
  && bool_decide (js_get currentColors i = js_get answerColors i).

Definition countSolvedStickers (cube_permutation cube_orientation : list Z)
    (answerColors : list string) : completion Z :=
  let! currentColors :=
    stateToFaceletColors (cube_permutation ++ cube_orientation) in
  let solvedStickers :=
    foldl (fun n i => if sticker_matches currentColors answerColors i
                      then n + 1 else n)
          0 (seqZ 0 54) in
  Normal (solvedStickers + 6).

(** What [check] does with a guess. *)
Inductive verdict : Type :=
| Shake                       (* the guess button shakes; nothing else *)
| GameOver                    (* six guesses were used *)
| Feedback (currentColors : list string) (won : bool).

(** [check], over the solver's [verifyState], the guess counter and the
    cube's two arrays.  [||] does not call [verifyState] when the
    permutation includes -1.  The result carries the new counter. *)
Definition check (verifyState : list Z -> bool) (answerColors : list string)
    (guesses : Z) (cube_permutation cube_orientation : list Z)
    : completion (verdict * Z) :=
  let currentState := cube_permutation ++ cube_orientation in
  if includes cube_permutation (-1) then Normal (Shake, guesses)
  else if negb (verifyState currentState) then Normal (Shake, guesses)
  else if guesses >=? 6 then Normal (GameOver, guesses)
  else
    let guesses' := guesses + 1 in
    let! currentColors := stateToFaceletColors currentState in
    Normal (Feedback currentColors
              (String.eqb (toString currentColors) (toString answerColors)),
            guesses').

End Main.

(** ** Seeded generation of the answer (main script) *)

(** The [seedrandom] package: [seedrandom(seed)] returns a generator [rng];
    each call [rng()] returns a double in [0, 1) and advances the generator.
    The code only uses such a double [x] through [Math.floor(x * n)]. *)
Class SeedRandom : Type := {
  prng : Type;
  unit_double : Type;
  seedrandom : string -> prng;
  rng_call : prng -> unit_double * prng;
  floor_times : unit_double -> Z -> Z
}.

(** For a double in [0, 1) and a positive integer [n] below 2^53, the rounded
    product stays below [n], so its floor is one of [0 .. n-1]. *)
Definition floor_times_in_range `{SeedRandom} : Prop :=
  forall (x : unit_double) (n : Z),
    0 < n < 2 ^ 53 -> 0 <= floor_times x n < n.

Module Generate.
Section WithGenerator.
Context `{SR : SeedRandom}.
Variable verifyState : list Z -> bool.

(** The three assignments that exchange [array[i]] and [array[j]].  Both
    indices are indices of elements whenever [j] is in [0 .. i]; the
    array is left alone otherwise. *)
Definition swap (array : list Z) (i j : Z) : list Z :=
  match js_get array i, js_get array j with
  | Some temp, Some aj => js_set (js_set array i aj) j temp
  | _, _ => array
  end.

(** The loop of [shuffle]: [n] iterations remain, [i] runs from [n] down
    to 1. *)
Fixpoint shuffle_loop (n : nat) (array : list Z) (rng : prng)
    : list Z * prng :=
  match n with
  | O => (array, rng)
  | S n' =>
      let i := Z.of_nat n in
      let (x, rng') := rng_call rng in
      let j := floor_times x (i + 1) in
      shuffle_loop n' (swap array i j) rng'
  end.

Definition shuffle (array : list Z) (rng : prng) : list Z * prng :=
  shuffle_loop (length array - 1) array rng.

(** [for (let i = 0; i < count; i++) orientation.push(Math.floor(rng() * k))] *)
Fixpoint push_orientations (count : nat) (k : Z) (orientation : list Z)
    (rng : prng) : list Z * prng :=
  match count with
  | O => (orientation, rng)
  | S count' =>
      let (x, rng') := rng_call rng in
      push_orientations count' k (orientation ++ [floor_times x k]) rng'
  end.

(** One pass through the body of the [do ... while] loop: the state
    assigned to [solver.currentState] and the advanced generator. *)
Definition candidate (rng : prng) : list Z * prng :=
  let (edgePermutation, rng1) :=
    shuffle [0; 1; 2; 3; 4; 5; 6; 7; 8; 9; 10; 11] rng in
  let (cornerPermutation, rng2) :=
    shuffle [12; 13; 14; 15; 16; 17; 18; 19] rng1 in
  let permutation := edgePermutation ++ cornerPermutation in
  let (orientation12, rng3) := push_orientations 12 2 [] rng2 in
  let (orientation, rng4) := push_orientations 8 3 orientation12 rng3 in
  (permutation ++ orientation, rng4).

(** The [do ... while (!solver.verifyState())] loop, cut after [fuel]
    passes: [None] when none of them verified. *)
Fixpoint generate_loop (fuel : nat) (rng : prng) : option (list Z) :=
  match fuel with
  | O => None
  | S fuel' =>
      let (state, rng') := candidate rng in
      if verifyState state then Some state
      else generate_loop fuel' rng'
  end.

(** The candidate of pass [k] (from 0) and the generator after it. *)
Fixpoint nth_candidate (k : nat) (rng : prng) : list Z * prng :=
  match k with
  | O => candidate rng
  | S k' => nth_candidate k' (snd (candidate rng))
  end.

(** What the script reads from its surroundings before it seeds. *)
Inductive game_mode : Type := DAILY | TRAINER.

Record environment : Type := {
  currentGameMode : game_mode;
  toDateString : string;   (* [new Date().toDateString()] *)
  now : Z                  (* [Date.now()] *)
}.

Definition isDailyMode (env : environment) : bool :=
  match currentGameMode env with DAILY => true | TRAINER => false end.

(** [timestamp.toString()] of an integer. *)
Definition Z_toString (z : Z) : string :=
  DecimalString.NilZero.string_of_int (Z.to_int z).

(** The string handed to [seedrandom]. *)
Definition seed_of (env : environment) : string :=
  if isDailyMode env then toDateString env else Z_toString (now env).

Definition generateCubeState (fuel : nat) (env : environment)
    : option (list Z) :=
  let rng := seedrandom (seed_of env) in
  generate_loop fuel rng.

End WithGenerator.
End Generate.

(** A generator for tests: a linear congruential generator started from
    the character codes of the seed; [rng()] is the state over the modulus,
    [floor_times] the exact floor of the product. *)
Module TestRandom.

Definition modulus : Z := 2 ^ 31.

Definition advance (state : Z) : Z := (1103515245 * state + 12345) mod modulus.

Fixpoint hash (seed : string) (h : Z) : Z :=
  match seed with
  | EmptyString => h
  | String a tl => hash tl ((31 * h + Z.of_nat (nat_of_ascii a)) mod modulus)
  end.

(** In [0, 1), as [rng()] is. *)
Definition clamp (q : Q) : Q :=
  if Qle_bool 0 q && negb (Qle_bool 1 q) then q else 0%Q.

#[export] Instance lcg_random : SeedRandom := {|
  prng := Z;
  unit_double := Q;
  seedrandom := fun seed => hash seed 7;
  rng_call := fun state =>
    (clamp (advance state # Z.to_pos modulus), advance state);
  floor_times := fun x n => Qfloor (clamp x * inject_Z n)
|}.

(** Two looks at the same day in daily mode, at different times. *)
Definition morning : Generate.environment :=
  {| Generate.currentGameMode := Generate.DAILY;
     Generate.toDateString := "Mon Nov 02 2026";
     Generate.now := 1793606400000 |}.

Definition evening : Generate.environment :=
  {| Generate.currentGameMode := Generate.DAILY;
     Generate.toDateString := "Mon Nov 02 2026";
     Generate.now := 1793649600000 |}.

End TestRandom.

(** ** three.js: the numbers and vectors the cube works with *)

(** The part of three.js that [Cube3D] calls, as an interface: doubles with
    their comparisons, [Vector3] with the methods used, and quaternions as
    [applyQuaternion] takes them. *)
Class Three : Type := {
  double : Type;
  Vector3 : Type;
  Quaternion : Type;
  literal : Q -> double;                          (* a numeric literal *)
  neg_infinity : double;                          (* [-Infinity] *)
  gt : double -> double -> bool;                  (* [a > b] *)
  lt : double -> double -> bool;                  (* [a < b] *)
  Math_abs : double -> double;
  vec3 : Q -> Q -> Q -> Vector3;                  (* [set(x, y, z)] on literals *)
  crossVectors : Vector3 -> Vector3 -> Vector3;
  subVectors : Vector3 -> Vector3 -> Vector3;
  normalize : Vector3 -> Vector3;
  negate : Vector3 -> Vector3;
  lengthSq : Vector3 -> double;
  dot : Vector3 -> Vector3 -> double;
  applyQuaternion : Vector3 -> Quaternion -> Vector3;
  equals : Vector3 -> Vector3 -> bool
}.

(** What the proofs about "the highest score" need of [>]: it is a strict
    order (as [>] on doubles is, [NaN] included) and the literal 0.5 is above
    [-Infinity]. *)
Record gt_strict_order `{Three} : Prop := {
  gt_irrefl : forall a, gt a a = false;
  gt_trans : forall a b c, gt a b = true -> gt b c = true -> gt a c = true;
  gt_half_neg_infinity : gt (literal (1 # 2)) neg_infinity = true
}.

Module Scene.
Section WithThree.
Context `{T : Three}.

(** What the code reads of a camera. *)
Record Camera : Type := {
  getWorldDirection : Vector3;
  up : Vector3;
  quaternion : Quaternion
}.

(** What the code reads of a cubie (or of any object of the scene). *)
Record Cubie : Type := {
  name : string;
  position : Vector3
}.

(** The selection highlight. *)
Record Mesh : Type := {
  mesh_position : Vector3;
  visible : bool;
  opacity : Q
}.

(** A stored item: text that [JSON.parse] turns into an array of
    integers, or text it rejects. *)
Inductive item : Type :=
| Json (array : list Z)
| Garbage.

(** The picker element, the two action buttons and the cubie their
    handlers were last installed for. *)
Record Controls : Type := {
  picker : list (string * bool);      (* piece of a button, [disabled] *)
  erase_disabled : bool;
  rotate_disabled : bool;
  handlers_for : option Cubie
}.

(** The fields of a [Cube3D] and the two storage entries [correct] reads. *)
Record cube : Type := {
  savedCubies : list Cubie;
  permutation : list Z;
  orientation : list Z;
  selection : Mesh;
  camera : Camera;
  answerPermutation : list Z;
  answerOrientation : list Z;
  controls : Controls;
  stored_permutation : option item;
  stored_orientation : option item
}.

Definition with_arrays (c : cube) (p o : list Z) : cube :=
  {| savedCubies := savedCubies c; permutation := p; orientation := o;
     selection := selection c; camera := camera c;
     answerPermutation := answerPermutation c;
     answerOrientation := answerOrientation c;
     controls := controls c;
     stored_permutation := stored_permutation c;
     stored_orientation := stored_orientation c |}.

Definition with_ui (c : cube) (s : Mesh) (u : Controls) : cube :=
  {| savedCubies := savedCubies c; permutation := permutation c;
     orientation := orientation c;
     selection := s; camera := camera c;
     answerPermutation := answerPermutation c;
     answerOrientation := answerOrientation c;
     controls := u;
     stored_permutation := stored_permutation c;
     stored_orientation := stored_orientation c |}.

(** The names given to the 27 cubies by the constructor. *)
Definition CUBIES : list string :=
  [ "DLB"; "DL"; "DFL"; "BL"; "L"; "FL"; "UBL"; "UL"; "ULF";
    "DB"; "D"; "DF"; "B"; ""; "F"; "UB"; "U"; "UF";
    "DBR"; "DR"; "DRF"; "BR"; "R"; "FR"; "URB"; "UR"; "UFR" ].

(** Modelled from the spec: the class Cubie (cubie.js) is not among the
    sources.  [new Cubie(x, y, z, name)] is taken to be an object named
    [name] at the grid position [(x, y, z)]. *)
Definition new_Cubie (x y z : Z) (n : string) : Cubie :=
  {| name := n; position := vec3 (inject_Z x) (inject_Z y) (inject_Z z) |}.

(** The three nested loops of the constructor. *)
Definition constructor_cubies : list Cubie :=
  i ← seqZ 0 3; j ← seqZ 0 3; k ← seqZ 0 3;
  match js_get CUBIES (i * 9 + j * 3 + k) with
  | Some n => [new_Cubie (i - 1) (j - 1) (k - 1) n]
  | None => []
  end.

(** *** Picker *)

Definition JSON_parse (i : item) : completion (list Z) :=
  match i with
  | Json array => Normal array
  | Garbage => Throw SyntaxError
  end.

(** [correct(index)]: the piece saved at the last guess is the answer's. *)
Definition correct (c : cube) (index : Z) : completion bool :=
  match stored_permutation c, stored_orientation c with
  | Some lastPermutationData, Some lastOrientationData =>
      let! lastPermutation := JSON_parse lastPermutationData in
      let! lastOrientation := JSON_parse lastOrientationData in
      Normal
        (bool_decide (js_get lastPermutation index
                      = js_get (answerPermutation c) index)
         && bool_decide (js_get lastOrientation index
                         = js_get (answerOrientation c) index))
  | _, _ => Normal false
  end.

Definition edge_pieces : list string :=
  [ "UB"; "UL"; "DB"; "DL"; "BL"; "FL";
    "UF"; "UR"; "DF"; "DR"; "BR"; "FR" ].

Definition corner_pieces : list string :=
  [ "UBL"; "ULF"; "UFR"; "URB"; "DLB"; "DFL"; "DRF"; "DBR" ].

(** A method of the cube leaves it in some state and may have thrown on
    the way; what it changed before throwing stays changed. *)
Definition outcome : Type := cube * option error.

Definition initPicker (c : cube) (cubie : Cubie) (keepSelection : bool)
    : outcome :=
  let u := controls c in
  if Cube3D.isCenterName (name cubie) then
    (with_ui c
       {| mesh_position := position cubie; visible := true;
          opacity := 1 # 4 |}
       {| picker := []; erase_disabled := true; rotate_disabled := true;
          handlers_for := handlers_for u |},
     None)
  else
    let stateIndex := Cube3D.getStateIndex (name cubie) in
    let cleared :=
      {| picker := []; erase_disabled := erase_disabled u;
         rotate_disabled := rotate_disabled u;
         handlers_for := handlers_for u |} in
    if negb keepSelection
       && equals (position cubie) (mesh_position (selection c)) then
      (with_ui c
         {| mesh_position := vec3 0 0 0; visible := false;
            opacity := opacity (selection c) |}
         {| picker := []; erase_disabled := true; rotate_disabled := true;
            handlers_for := handlers_for u |},
       None)
    else
      let selected :=
        {| mesh_position := position cubie; visible := true;
           opacity := 1 # 2 |} in
      match correct c stateIndex with
      | Throw e => (with_ui c selected cleared, Some e)
      | Normal true =>
          (with_ui c
             {| mesh_position := position cubie; visible := true;
                opacity := 1 # 4 |}
             {| picker := []; erase_disabled := true;
                rotate_disabled := true;
                handlers_for := handlers_for u |},
           None)
      | Normal false =>
          let pieces :=
            if strlen (name cubie) =? 2 then edge_pieces
            else corner_pieces in
          let buttons :=
            map (fun piece =>
                   (piece,
                    includes (permutation c)
                      (Cube3D.getStateIndex piece)))
                pieces in
          (with_ui c selected
             {| picker := buttons; erase_disabled := false;
                rotate_disabled := false;
                handlers_for := Some cubie |},
           None)
      end.

(** The three handlers installed by [initPicker] for [cubie]; the arrays
    have an entry at [stateIndex] (they have twenty, and a cubie that is
    not a centre is one of the twenty pieces). *)
Definition button_onclick (cubie : Cubie) (piece : string) (c : cube)
    : outcome :=
  let stateIndex := Cube3D.getStateIndex (name cubie) in
  let c' :=
    with_arrays c
      (js_set (permutation c) stateIndex (Cube3D.getStateIndex piece))
      (js_set (orientation c) stateIndex 0) in
  initPicker c' cubie true.

Definition erase_onclick (cubie : Cubie) (c : cube) : outcome :=
  let stateIndex := Cube3D.getStateIndex (name cubie) in
  let c' :=
    with_arrays c (js_set (permutation c) stateIndex (-1))
      (orientation c) in
  initPicker c' cubie true.

Definition rotate_onclick (cubie : Cubie) (c : cube) : outcome :=
  let stateIndex := Cube3D.getStateIndex (name cubie) in
  match js_get (orientation c) stateIndex with
  | Some o =>
      let o' := o - 1 in
      let o'' := if o' <? 0 then strlen (name cubie) - 1 else o' in
      (with_arrays c (permutation c)
         (js_set (orientation c) stateIndex o''),
       None)
  | None => (c, None)
  end.

(** *** Navigation *)

(** [toLowerCase] on the letters a key name is made of. *)
Definition lower_ascii (a : ascii) : ascii :=
  let n := nat_of_ascii a in
  if (65 <=? n)%nat && (n <=? 90)%nat then ascii_of_nat (n + 32) else a.

Fixpoint toLowerCase (s : string) : string :=
  match s with
  | EmptyString => EmptyString
  | String a tl => String (lower_ascii a) (toLowerCase tl)
  end.

(** [camRight] and [screenUp], as [getDirectionalTarget] builds them. *)
Definition camera_axes (cam : Camera) : Vector3 * Vector3 :=
  let camForward := getWorldDirection cam in
  let camUp := normalize (up cam) in
  let camRight := normalize (crossVectors camForward camUp) in
  let camRight :=
    if lt (lengthSq camRight) (literal (1 # 10000)) then
      applyQuaternion (vec3 1 0 0) (quaternion cam)
    else camRight in
  let screenUp := normalize (crossVectors camRight camForward) in
  (camRight, screenUp).

Definition is_vertical (direction : string) : bool :=
  bool_decide (direction = "w") || bool_decide (direction = "s").

Definition primary_axis (axes : Vector3 * Vector3) (direction : string)
    : Vector3 :=
  let (camRight, screenUp) := axes in
  if is_vertical direction then
    if bool_decide (direction = "w") then screenUp else negate screenUp
  else
    if bool_decide (direction = "d") then camRight else negate camRight.

Definition orthogonal_axis (axes : Vector3 * Vector3)
    (direction : string) : Vector3 :=
  let (camRight, screenUp) := axes in
  if is_vertical direction then camRight else screenUp.

Definition find_cubie (cubies : list Cubie) (n : string) : option Cubie :=
  List.find (fun c => bool_decide (name c = n)) cubies.

(** The two scores of the candidate at [adj_position]. *)
Definition scores (primary orthogonal currentPos adj_position : Vector3)
    : double * double :=
  let moveVec := normalize (subVectors adj_position currentPos) in
  (dot moveVec primary, Math_abs (dot moveVec orthogonal)).

(** One pass of the loop over the candidates. *)
Definition consider (cubies : list Cubie)
    (primary orthogonal currentPos : Vector3)
    (acc : option string * double) (n : string) : option string * double :=
  let (best, bestScore) := acc in
  match find_cubie cubies n with
  | None => acc
  | Some adj =>
      let (scorePrimary, scoreOrtho) :=
        scores primary orthogonal currentPos (position adj) in
      if gt scorePrimary bestScore && gt scorePrimary scoreOrtho
      then (Some n, scorePrimary)
      else acc
  end.

(** [best] and [bestScore] when the loop ends. *)
Definition best_candidate (cubies : list Cubie)
    (primary orthogonal currentPos : Vector3) (candidates : list string)
    : option string * double :=
  foldl (consider cubies primary orthogonal currentPos)
        (None, neg_infinity) candidates.

(** The scores of the candidate named [n], when the scene has it. *)
Definition scores_of (cubies : list Cubie)
    (primary orthogonal currentPos : Vector3) (n : string)
    : option (double * double) :=
  match find_cubie cubies n with
  | Some adj => Some (scores primary orthogonal currentPos (position adj))
  | None => None
  end.

(** What holds of [best] and [bestScore] once the candidates [seen] went
    through the loop: without a best the score is still [-Infinity]; a best
    is one of [seen], has the best score and qualifies; no qualifying
    candidate of [seen] scores above the best score. *)
Definition loop_invariant (cubies : list Cubie)
    (primary orthogonal currentPos : Vector3) (seen : list string)
    (acc : option string * double) : Prop :=
  (fst acc = None -> snd acc = neg_infinity)
  /\ (forall n, fst acc = Some n ->
        n ∈ seen
        /\ exists so,
             scores_of cubies primary orthogonal currentPos n
             = Some (snd acc, so)
             /\ gt (snd acc) so = true)
  /\ (forall m sp so, m ∈ seen ->
        scores_of cubies primary orthogonal currentPos m = Some (sp, so) ->
        gt sp so = true ->
        gt sp (snd acc) = false).

Definition getDirectionalTarget (c : cube) (currentCubie : Cubie)
    (direction : string) (cam : Camera) : option string :=
  let direction := toLowerCase direction in
  match Cube3D.ADJACENCY_MAP !! name currentCubie with
  | None => None
  | Some candidates =>
      let (best, bestScore) :=
        best_candidate (savedCubies c)
          (primary_axis (camera_axes cam) direction)
          (orthogonal_axis (camera_axes cam) direction)
          (position currentCubie) candidates in
      if gt bestScore (literal (1 # 2)) then best else None
  end.

(** The scores the loop gives to the candidate named [n]: none when the
    scene has no such cubie. *)
Definition candidate_scores (c : cube) (currentCubie : Cubie)
    (direction : string) (cam : Camera) (n : string)
    : option (double * double) :=
  let direction := toLowerCase direction in
  match find_cubie (savedCubies c) n with
  | Some adj =>
      Some (scores (primary_axis (camera_axes cam) direction)
              (orthogonal_axis (camera_axes cam) direction)
              (position currentCubie) (position adj))
  | None => None
  end.

(** A candidate qualifies with primary score [sp] when that score is above
    its orthogonal score. *)
Definition qualifies (c : cube) (currentCubie : Cubie) (direction : string)
    (cam : Camera) (n : string) (sp : double) : Prop :=
  exists so,
    candidate_scores c currentCubie direction cam n = Some (sp, so)
    /\ gt sp so = true.

(** [bestScore] when the loop over the candidates of [currentCubie] ends. *)
Definition best_score (c : cube) (currentCubie : Cubie) (direction : string)
    (cam : Camera) : double :=
  let direction := toLowerCase direction in
  match Cube3D.ADJACENCY_MAP !! name currentCubie with
  | Some candidates =>
      snd (best_candidate (savedCubies c)
             (primary_axis (camera_axes cam) direction)
             (orthogonal_axis (camera_axes cam) direction)
             (position currentCubie) candidates)
  | None => neg_infinity
  end.

(** What the navigator is to do from [currentCubie] on the key [direction]:
    score every candidate of the scene by the dot product of the unit move
    towards it with the primary axis (screenUp for w, its opposite for s,
    camRight for d, its opposite for a, both axes as [camera_axes] builds
    them) against the absolute dot product with the other axis; return a
    candidate only if it qualifies with the top score and that score is
    above 0.5; no qualifying candidate scores higher. *)
Definition picks_best (c : cube) (currentCubie : Cubie) (direction : string)
    (cam : Camera) (candidates : list string) : Prop :=
  let (camRight, screenUp) := camera_axes cam in
  let primary :=
    if bool_decide (direction = "w") then screenUp
    else if bool_decide (direction = "s") then negate screenUp
    else if bool_decide (direction = "d") then camRight
    else negate camRight in
  let orthogonal :=
    if bool_decide (direction = "w") || bool_decide (direction = "s")
    then camRight else screenUp in
  let score_of (adj : Cubie) :=
    let moveVec :=
      normalize (subVectors (position adj) (position currentCubie)) in
    (dot moveVec primary, Math_abs (dot moveVec orthogonal)) in
  let top := best_score c currentCubie direction cam in
  (forall n,
     candidate_scores c currentCubie direction cam n
     = score_of <$> find_cubie (savedCubies c) n)
  /\ (forall n,
        getDirectionalTarget c currentCubie direction cam = Some n ->
        n ∈ candidates
        /\ qualifies c currentCubie direction cam n top
        /\ gt top (literal (1 # 2)) = true)
  /\ (forall m sp, m ∈ candidates ->
        qualifies c currentCubie direction cam m sp -> gt sp top = false)
  /\ (gt top (literal (1 # 2)) = false ->
      getDirectionalTarget c currentCubie direction cam = None)
  /\ (gt top (literal (1 # 2)) = true ->
      exists n, getDirectionalTarget c currentCubie direction cam = Some n).

(** The cubie under the selection highlight. *)
Definition selected_cubie (c : cube) : option Cubie :=
  List.find
    (fun cubie => equals (position cubie) (mesh_position (selection c)))
    (savedCubies c).

Definition navigateWASD (c : cube) (direction : string) : outcome :=
  if negb (visible (selection c)) then (c, None)
  else
    match selected_cubie c with
    | None => (c, None)
    | Some currentCubie =>
        if Cube3D.isCenterName (name currentCubie) then (c, None)
        else
          match Cube3D.ADJACENCY_MAP !! name currentCubie with
          | None => (c, None)
          | Some adjacent =>
              if (length adjacent =? 0)%nat then (c, None)
              else
                match getDirectionalTarget c currentCubie direction
                        (camera c) with
                | None => (c, None)
                | Some target =>
                    if bool_decide (target = "") then (c, None)
                    else
                      match find_cubie (savedCubies c) target with
                      | Some targetCubie =>
                          initPicker c targetCubie false
                      | None => (c, None)
                      end
                end
          end
    end.

(** *** What happens to a cube between two looks at it *)

Inductive event : Type :=
| ClickCubie (cubie : Cubie)   (* pointer released on an object *)
| ClickPiece (k : nat)         (* the k-th button of the picker *)
| ClickErase
| ClickRotate
| Key (direction : string)     (* one of w, a, s, d *)
| Stored (p o : option item).  (* the two storage entries are rewritten *)

Definition with_storage (c : cube) (p o : option item) : cube :=
  {| savedCubies := savedCubies c; permutation := permutation c;
     orientation := orientation c;
     selection := selection c; camera := camera c;
     answerPermutation := answerPermutation c;
     answerOrientation := answerOrientation c;
     controls := controls c;
     stored_permutation := p;
     stored_orientation := o |}.

(** A disabled button does not run its handler. *)
Definition run_event (c : cube) (e : event) : outcome :=
  match e with
  | ClickCubie cubie => initPicker c cubie false
  | ClickPiece k =>
      match picker (controls c) !! k, handlers_for (controls c) with
      | Some (piece, false), Some cubie => button_onclick cubie piece c
      | _, _ => (c, None)
      end
  | ClickErase =>
      match erase_disabled (controls c), handlers_for (controls c) with
      | false, Some cubie => erase_onclick cubie c
      | _, _ => (c, None)
      end
  | ClickRotate =>
      match rotate_disabled (controls c), handlers_for (controls c) with
      | false, Some cubie => rotate_onclick cubie c
      | _, _ => (c, None)
      end
  | Key direction => navigateWASD c direction
  | Stored p o => (with_storage c p o, None)
  end.

(** An exception ends the handler that threw, not the page: the next
    event runs on the cube as it was left. *)
Definition run_events (c : cube) (es : list event) : cube :=
  foldl (fun c e => fst (run_event c e)) c es.

(** *** The navigator in the words of the claim *)

(** The axes as the claim writes them: camRight = forward x up and
    screenUp = camRight x forward. *)
Definition claimed_axes (cam : Camera) : Vector3 * Vector3 :=
  let camRight := crossVectors (getWorldDirection cam) (up cam) in
  (camRight, crossVectors camRight (getWorldDirection cam)).

(** The selection of [getDirectionalTarget] run on the claimed axes. *)
Definition resolveDirection_as_claimed (c : cube) (currentCubie : Cubie)
    (direction : string) (cam : Camera) : option string :=
  let direction := toLowerCase direction in
  match Cube3D.ADJACENCY_MAP !! name currentCubie with
  | None => None
  | Some candidates =>
      let (best, bestScore) :=
        best_candidate (savedCubies c)
          (primary_axis (claimed_axes cam) direction)
          (orthogonal_axis (claimed_axes cam) direction)
          (position currentCubie) candidates in
      if gt bestScore (literal (1 # 2)) then best else None
  end.

(** The range every orientation entry should stay in: 0 or 1 on the
    twelve edge slots, 0, 1 or 2 on the eight corner slots. *)
Definition orientation_in_range (o : list Z) : Prop :=
  forall (i : nat) (v : Z),
    o !! i = Some v ->
    0 <= v /\ (if (i <? 12)%nat then v <= 1 else v <= 2).

End WithThree.
End Scene.

(** ** Exact arithmetic in place of doubles *)

(** An implementation of the three.js interface on rationals, for running
    the navigator on inputs whose coordinates, products and square roots are
    exact.  Vector methods follow the formulas of three.js. *)
Module Exact.

(** A double: a rational or [-Infinity]. *)
Inductive xnum : Type :=
| Fin (q : Q)
| NegInf.

Definition Qlt_bool (a b : Q) : bool := negb (Qle_bool b a).

Definition xgt (a b : xnum) : bool :=
  match a, b with
  | Fin x, Fin y => Qlt_bool y x
  | Fin _, NegInf => true
  | NegInf, _ => false
  end.

Definition xlt (a b : xnum) : bool := xgt b a.

Definition xabs (a : xnum) : xnum :=
  match a with
  | Fin x => Fin (Qred (Qabs x))
  | NegInf => NegInf
  end.

Definition is_square (n : Z) : bool := (Z.sqrt n * Z.sqrt n =? n)%Z.

(** The square root: exact on the square of a rational, rounded down to a
    multiple of 2^-64 of the denominator otherwise. *)
Definition sqrtQ (q : Q) : Q :=
  let r := Qred q in
  let n := Qnum r in
  let d := Zpos (Qden r) in
  if is_square n && is_square d then
    Qred (Z.sqrt n # Z.to_pos (Z.sqrt d))
  else
    Qred (Z.sqrt (n * d * 2 ^ 128) # Z.to_pos (d * 2 ^ 64))%Z.

#[local] Open Scope Q_scope.

Definition vec : Type := Q * Q * Q.
Definition quat : Type := Q * Q * Q * Q.   (* x, y, z, w *)

Definition vcross (a b : vec) : vec :=
  let '(ax, ay, az) := a in
  let '(bx, by', bz) := b in
  (Qred (ay * bz - az * by'), Qred (az * bx - ax * bz),
   Qred (ax * by' - ay * bx)).

Definition vsub (a b : vec) : vec :=
  let '(ax, ay, az) := a in
  let '(bx, by', bz) := b in
  (Qred (ax - bx), Qred (ay - by'), Qred (az - bz)).

Definition vdot (a b : vec) : Q :=
  let '(ax, ay, az) := a in
  let '(bx, by', bz) := b in
  Qred (ax * bx + ay * by' + az * bz).

Definition vnegate (a : vec) : vec :=
  let '(ax, ay, az) := a in (Qred (- ax), Qred (- ay), Qred (- az)).

(** [divideScalar(length() || 1)] *)
Definition vnormalize (a : vec) : vec :=
  let '(ax, ay, az) := a in
  let len := sqrtQ (vdot a a) in
  let s := if Qeq_bool len 0 then 1%Q else len in
  (Qred (ax / s), Qred (ay / s), Qred (az / s)).

Definition vapplyQuaternion (v : vec) (q : quat) : vec :=
  let '(vx, vy, vz) := v in
  let '(qx, qy, qz, qw) := q in
  let tx := 2 * (qy * vz - qz * vy) in
  let ty := 2 * (qz * vx - qx * vz) in
  let tz := 2 * (qx * vy - qy * vx) in
  (Qred (vx + qw * tx + qy * tz - qz * ty),
   Qred (vy + qw * ty + qz * tx - qx * tz),
   Qred (vz + qw * tz + qx * ty - qy * tx)).

Definition vequals (a b : vec) : bool :=
  let '(ax, ay, az) := a in
  let '(bx, by', bz) := b in
  Qeq_bool ax bx && Qeq_bool ay by' && Qeq_bool az bz.

#[export] Instance exact_three : Three := {|
  double := xnum;
  Vector3 := vec;
  Quaternion := quat;
  literal := fun q => Fin q;
  neg_infinity := NegInf;
  gt := xgt;
  lt := xlt;
  Math_abs := xabs;
  vec3 := fun x y z => (x, y, z);
  crossVectors := vcross;
  subVectors := vsub;
  normalize := vnormalize;
  negate := vnegate;
  lengthSq := fun v => Fin (vdot v v);
  dot := fun a b => Fin (vdot a b);
  applyQuaternion := vapplyQuaternion;
  equals := vequals
|}.

#[local] Close Scope Q_scope.
Import Scene.

(** A cube as the constructor leaves it, seen by [cam], with the highlight
    on the cubie at [at_position] and nothing in storage. *)
Definition cube_at (cam : Camera) (at_position : vec) : cube :=
  {| savedCubies := constructor_cubies;
     permutation := seqZ 0 20;
     orientation := replicate 20 0;
     selection := {| mesh_position := at_position; visible := true;
                     opacity := 1 # 2 |};
     camera := cam;
     answerPermutation := seqZ 0 20;
     answerOrientation := replicate 20 0;
     controls := {| picker := []; erase_disabled := true;
                    rotate_disabled := true; handlers_for := None |};
     stored_permutation := None;
     stored_orientation := None |}.

(** The camera in front of the cube, level, looking at it. *)
Definition front_camera : Camera :=
  {| getWorldDirection := (0, 0, -1)%Q;
     up := (0, 1, 0)%Q;
     quaternion := (0, 0, 0, 1)%Q |}.

(** A camera above and in front of the cube, looking down at it: its
    direction makes an angle with [up] whose sine is 5/13. *)
Definition pitched_camera : Camera :=
  {| getWorldDirection := (0, - (12 # 13), - (5 # 13))%Q;
     up := (0, 1, 0)%Q;
     quaternion := (0, 0, 0, 1)%Q |}.

(** An unturned camera whose [up] is the z axis: the direction it looks in
    is parallel to [up]. *)
Definition degenerate_camera : Camera :=
  {| getWorldDirection := (0, 0, -1)%Q;
     up := (0, 0, 1)%Q;
     quaternion := (0, 0, 0, 1)%Q |}.

(** The cubie named UF, and the cube seen from the front with the highlight
    on it. *)
Definition cubie_UF : Cubie := new_Cubie 0 1 1 "UF".

Definition front_cube : cube := cube_at front_camera (0, 1, 1)%Q.

(** The cubie named UFR, and a session at the picker: select UFR, turn it
    four times, erase it, put the piece UFR back in, move left with the
    keyboard, turn the edge reached once. *)
Definition cubie_UFR : Cubie := new_Cubie 1 1 1 "UFR".

Definition session : list event :=
  [ ClickCubie cubie_UFR; ClickRotate; ClickRotate; ClickRotate; ClickRotate;
    ClickErase; ClickPiece 2; Key "a"; ClickRotate ].

End Exact.

(** ** The properties to be checked, in the words of the specification *)

Module Described.
Import Cube3D Main.

(** The character of [s] at index [i], as a one-letter string. *)
Definition letter (s : string) (i : Z) : string :=
  match String.get (Z.to_nat i) s with
  | Some c => String c EmptyString
  | None => EmptyString
  end.

(** A complete state: forty entries, the first twenty a permutation of the
    slot values 0 .. 19, the orientations in range. *)
Definition complete (state : list Z) : Prop :=
  length state = 40%nat
  /\ take 20 state ≡ₚ seqZ 0 20
  /\ Scene.orientation_in_range (drop 20 state).

(** A complete role-correct state: edge slots hold a permutation of the
    edge values 0 .. 11, corner slots one of the corner values 12 .. 19. *)
Definition role_correct (state : list Z) : Prop :=
  length state = 40%nat
  /\ take 12 state ≡ₚ seqZ 0 12
  /\ take 8 (drop 12 state) ≡ₚ seqZ 12 8
  /\ Scene.orientation_in_range (drop 20 state).

(** The colour of a facelet that is not a centre, in words: the letter of
    the name of the piece in the facelet's slot, at the position of the face
    in the facelet's name shifted by the orientation (edges) or by 3 minus
    the orientation (corners), modulo [corner_modulus piece] for a corner
    facelet and the length of the piece's name for an edge facelet. *)
Definition color_with (corner_modulus : string -> Z) (state : list Z)
    (face facelet : string) : string :=
  let slot := getStateIndex facelet in
  match occupant (take 20 state) slot, js_get (drop 20 state) slot with
  | Some piece, Some o =>
      let k := string_indexOf facelet face in
      if strlen facelet =? 2 then letter piece ((k + o) mod strlen piece)
      else letter piece ((k + (3 - o)) mod corner_modulus piece)
  | _, _ => EmptyString
  end.

(** Corner facelets modulo 3, as claimed. *)
Definition color_as_claimed : list Z -> string -> string -> string :=
  color_with (fun _ => 3).

(** Corner facelets modulo the length of the occupying piece's name. *)
Definition color_by_name_length : list Z -> string -> string -> string :=
  color_with strlen.

(** The projector returns 54 colours, nine per face in the order U, L, F,
    R, B, D; position 4 of a face holds the face letter and every other
    position the colour [color] gives for its facelet. *)
Definition projects_as (color : list Z -> string -> string -> string)
    (state : list Z) : Prop :=
  exists colors,
    stateToFaceletColors state = Normal colors
    /\ length colors = 54%nat
    /\ forall (f p : nat) (face facelet : string) (facelets : list string),
         chars "ULFRBD" !! f = Some face ->
         FACELETS !! face = Some facelets ->
         facelets !! p = Some facelet ->
         colors !! (9 * f + p)%nat
         = Some (if (p =? 4)%nat then face else color state face facelet).

(** [row] holds the colours of the facelets [facelets] of [face]. *)
Definition row_of (permutation orientation : list Z) (face : string)
    (facelets row : list string) : Prop :=
  Forall2
    (fun facelet c =>
       facelet_color permutation orientation face facelet = Normal c)
    facelets row.

(** [rows] holds one row per face of [faces]. *)
Definition rows_of (permutation orientation : list Z)
    (faces : list string) (rows : list (list string)) : Prop :=
  Forall2
    (fun face row =>
       exists facelets,
         FACELETS !! face = Some facelets
         /\ row_of permutation orientation face facelets row)
    faces rows.

(** The number of positions of [0 .. 53] that are not centres and where the
    two colour arrays agree. *)
Definition matching_stickers (current answer : list string) : Z :=
  Z.of_nat
    (length
       (filter (fun i => i mod 9 <> 4 /\ current !! Z.to_nat i = answer !! Z.to_nat i)
               (seqZ 0 54))).

(** Every slot holds one of the twenty pieces: no slot is unassigned. *)
Definition assigned (state : list Z) : Prop :=
  forall slot, 0 <= slot < 20 ->
    exists v, js_get (take 20 state) slot = Some v /\ 0 <= v < 20.

(** The sticker metric of the guess [cube_permutation], [cube_orientation]
    against the answer: the matching stickers that are not centres, plus
    6, a value from 6 to 54. *)
Definition counts_stickers (cube_permutation cube_orientation : list Z)
    (answerState : list Z) : Prop :=
  exists currentColors answerColors,
    stateToFaceletColors (cube_permutation ++ cube_orientation)
    = Normal currentColors
    /\ stateToFaceletColors answerState = Normal answerColors
    /\ countSolvedStickers cube_permutation cube_orientation answerColors
       = Normal (matching_stickers currentColors answerColors + 6)
    /\ 6 <= matching_stickers currentColors answerColors + 6 <= 54.

(** The solved cube, and the solved cube with the slot of UF erased. *)
Definition solved_state : list Z := seqZ 0 20 ++ replicate 20 0.

Definition erased_permutation : list Z :=
  [-1; 1; 2; 3; 4; 5; 6; 7; 8; 9; 10; 11; 12; 13; 14; 15; 16; 17; 18; 19].


(** The solved cube with the pieces UF and UFR exchanged: a permutation of
    the twenty slot values with an edge in a corner slot. *)
Definition crossed_state : list Z :=
  [12; 1; 2; 3; 4; 5; 6; 7; 8; 9; 10; 11; 0; 13; 14; 15; 16; 17; 18; 19]
  ++ replicate 20 0.

(** The solved cube with the edges UF and UR exchanged. *)
Definition swapped_state : list Z :=
  [1; 0; 2; 3; 4; 5; 6; 7; 8; 9; 10; 11; 12; 13; 14; 15; 16; 17; 18; 19]
  ++ replicate 20 0.




(** *** Tables checked by evaluation *)

(** Each face has nine facelets, the fifth is the face letter, and every
    other one names a piece of the cube on which the face letter occurs. *)
Definition facelet_ok (face : string) (p : nat) (facelet : string) : bool :=
  if (p =? 4)%nat then bool_decide (facelet = face)
  else
    let slot := getStateIndex facelet in
    (0 <=? slot) && (slot <? 20)
    && (((strlen facelet =? 2) && (slot <? 12))
        || ((strlen facelet =? 3) && (12 <=? slot)))
    && (0 <=? string_indexOf facelet face).

Definition face_ok (face : string) : bool :=
  match FACELETS !! face with
  | Some facelets =>
      (length facelets =? 9)%nat
      && forallb (fun pf => facelet_ok face (fst pf) (snd pf))
                 (imap (fun p facelet => (p, facelet)) facelets)
  | None => false
  end.

Definition facelets_ok : bool := forallb face_ok (chars "ULFRBD").

(** The colour of facelet [facelet] on [face] when its slot holds piece
    [p] with orientation [o]. *)
Definition cell (facelet face : string) (p o : Z) : string :=
  match facelet_color (replicate 20 p) (replicate 20 o) face facelet with
  | Normal c => c
  | Throw _ => EmptyString
  end.

(** The colours a slot shows on its faces, in the order of its name. *)
Definition view (slot_name : string) (p o : Z) : list string :=
  map (fun face => cell slot_name face p o) (chars slot_name).

(** The pieces and orientations a slot can hold in a role-correct state. *)
Definition fillings (slot : Z) : list (Z * Z) :=
  if slot <? 12 then p ← seqZ 0 12; o ← seqZ 0 2; [(p, o)]
  else p ← seqZ 12 8; o ← seqZ 0 3; [(p, o)].

(** Two fillings of a slot that show the same colours are the same, and
    every face of the slot's name lists the slot among its facelets. *)
Definition slot_ok (slot : Z) : bool :=
  match js_get CUBIE_ORDER slot with
  | Some n =>
      bool_decide (getStateIndex n = slot)
      && forallb
           (fun face =>
              bool_decide (face ∈ chars "ULFRBD")
              && match FACELETS !! face with
                 | Some facelets => bool_decide (n ∈ facelets)
                 | None => false
                 end)
           (chars n)
      && forallb
           (fun x =>
              forallb
                (fun y =>
                   implb (bool_decide (view n (fst x) (snd x)
                                       = view n (fst y) (snd y)))
                         (bool_decide (x = y)))
                (fillings slot))
           (fillings slot)
  | None => false
  end.

Definition slots_ok : bool := forallb slot_ok (seqZ 0 20).

End Described.

(** ** More of the main script: modes, statistics, score, guess counter *)

Module Script.

(** [GAME_MODES]. *)
Definition DAILY : string := "daily".
Definition TRAINER : string := "trainer".

(** [setGameMode(mode)] on the current mode: the mode afterwards and the
    value returned. *)
Definition setGameMode (currentGameMode mode : string) : string * bool :=
  if bool_decide (mode = DAILY) || bool_decide (mode = TRAINER)
  then (mode, true)
  else (currentGameMode, false).

Definition isTrainerMode (currentGameMode : string) : bool :=
  bool_decide (currentGameMode = TRAINER).

Definition isDailyMode (currentGameMode : string) : bool :=
  bool_decide (currentGameMode = DAILY).

(** The mode [switchGameMode] sets before it reloads the page. *)
Definition switchGameMode (currentGameMode : string) : string :=
  let newMode := if isDailyMode currentGameMode then TRAINER else DAILY in
  fst (setGameMode currentGameMode newMode).

Definition getStorageKey (currentGameMode key : string) : string :=
  let prefix := if isDailyMode currentGameMode then "daily_" else "trainer_" in
  prefix ++ key.

(** [Number.MAX_SAFE_INTEGER].  The numbers of the script are doubles.  The
    integers from [- MAX_SAFE_INTEGER] to [MAX_SAFE_INTEGER] are doubles;
    [+] and [++] on them give the exact sum, [String] writes them digit by
    digit and [parseInt] reads them back.  Outside that range a double
    sum is rounded.  The statistics and the guess counter below are
    integers, and [setup_stats], [check_counter] and [record_win] add in
    [Z]: they are the script on safe integers, which is what the theorems
    about them assume. *)
Definition MAX_SAFE_INTEGER : Z := 2 ^ 53 - 1.

Definition safe_integer (z : Z) : Prop :=
  - MAX_SAFE_INTEGER <= z <= MAX_SAFE_INTEGER.

(** The statistics as the script sets them up from what [JSON.parse] made
    of the stored item ([None] for [null]): seven zeros when there is none,
    the old 22-entry format folded into seven entries, anything else as it
    is.  Both loops stay inside [stats].  The sums are exact as long as
    they are safe integers. *)
Definition setup_stats (stats : option (list Z)) : list Z :=
  match stats with
  | None => replicate 7 0
  | Some stats =>
      if (length stats =? 22)%nat then
        let newStats := replicate 7 0 in
        let newStats :=
          foldl (fun newStats i =>
                   match js_get stats i with
                   | Some v => js_set newStats i v
                   | None => newStats
                   end)
                newStats (seqZ 0 (Z.min 6 (Z.of_nat (length stats)))) in
        foldl (fun newStats i =>
                 match js_get newStats 6, js_get stats i with
                 | Some total, Some v => js_set newStats 6 (total + v)
                 | _, _ => newStats
                 end)
              newStats (seqZ 6 (Z.of_nat (length stats) - 6))
      else stats
  end.

(** The condition of [updateScore]: slot [i] of the cube is as in the
    answer, piece and orientation. *)
Definition slot_solved (cube_permutation cube_orientation answerState : list Z)
    (i : Z) : bool :=
  bool_decide (js_get cube_permutation i = js_get answerState i)
  && bool_decide (js_get cube_orientation i = js_get answerState (i + 20)).

(** One pass of the loop of [updateScore] at index [i]. *)
Definition score_slot (cube_permutation cube_orientation answerState : list Z)
    (guesses : Z) (acc : list Z * Z) (i : Z) : list Z * Z :=
  let (score, correct) := acc in
  if slot_solved cube_permutation cube_orientation answerState i
  then
    (if bool_decide (js_get score i = Some (-1))
     then js_set score i guesses else score,
     correct + 1)
  else acc.

(** [updateScore(score)]: the score array afterwards and the number
    returned. *)
Definition updateScore (cube_permutation cube_orientation answerState : list Z)
    (guesses : Z) (score : list Z) : list Z * Z :=
  foldl (score_slot cube_permutation cube_orientation answerState guesses)
        (score, 0) (seqZ 0 (Z.of_nat (length score))).

(** [parseInt(localStorage.getItem(...)) || -1], on the integer the item
    holds ([None]: no item, or one that does not parse). *)
Definition initial_guesses (stored : option Z) : Z :=
  match stored with
  | Some z => if z =? 0 then -1 else z
  | None => -1
  end.

(** What [check] does to the counter [guesses] and what it writes to the
    stored counter: the increment is a post-increment, so the item gets the
    value before it.  The counter is a safe integer; the item is the
    integer that [String] writes and [parseInt] reads back. *)
Definition check_counter (verifyState : list Z -> bool) (guesses : Z)
    (cube_permutation cube_orientation : list Z) : Z * option Z :=
  if includes cube_permutation (-1) then (guesses, None)
  else if negb (verifyState (cube_permutation ++ cube_orientation))
  then (guesses, None)
  else if guesses >=? 6 then (guesses, None)
  else (guesses + 1, Some guesses).

(** The counter and the stored counter after one more guess went through
    [check]. *)
Definition check_next (verifyState : list Z -> bool) (acc : Z * option Z)
    (g : list Z * list Z) : Z * option Z :=
  let (guesses', written) :=
    check_counter verifyState (fst acc) (fst g) (snd g) in
  (guesses', match written with Some v => Some v | None => snd acc end).

(** The counter and the stored counter after the guesses [gs] went through
    [check] one after the other. *)
Definition check_all (verifyState : list Z -> bool) (guesses : Z)
    (stored : option Z) (gs : list (list Z * list Z)) : Z * option Z :=
  foldl (check_next verifyState) (guesses, stored) gs.

(** The counter when the page has loaded: read from storage, then the
    [check()] the script runs on the loaded cube. *)
Definition counter_after_load (verifyState : list Z -> bool)
    (stored : option Z) (cube_permutation cube_orientation : list Z) : Z :=
  fst (check_counter verifyState (initial_guesses stored)
         cube_permutation cube_orientation).

(** [stats[Math.min(guesses - 1, stats.length - 1)]++] at a first win.  At
    index -1 the increment makes a property of the array object and leaves
    the elements alone.  The increment is exact on a safe integer. *)
Definition record_win (stats : list Z) (guesses : Z) : list Z :=
  let i := Z.min (guesses - 1) (Z.of_nat (length stats) - 1) in
  match js_get stats i with
  | Some v => js_set stats i (v + 1)
  | None => stats
  end.

(** The sum of the entries. *)
Definition total (l : list Z) : Z := foldr Z.add 0 l.

End Script.

(** ** The items of [localStorage] *)

Module Storage.
Import Scene.

(** [localStorage]: strings under string keys. *)
Abbreviation storage := (gmap string string).

Fixpoint join_numbers (l : list Z) : string :=
  match l with
  | [] => ""
  | [x] => Generate.Z_toString x
  | x :: tl => Generate.Z_toString x ++ "," ++ join_numbers tl
  end.

(** [JSON.stringify] of an array of integers. *)
Definition JSON_stringify (l : list Z) : string :=
  "[" ++ join_numbers l ++ "]".

Section WithThree.
Context `{T : Three}.

(** Modelled from the spec: the class Cubie (cubie.js) is not among the
    sources.  [colors_text cubie] is the text that [localStorage] keeps for
    [cubie.colors]. *)
Variable colors_text : Cubie -> string.

Variable currentGameMode : string.

(** [save()] of [Cube3D], on the storage. *)
Definition save (c : cube) (st : storage) : storage :=
  let st :=
    foldl (fun st savedCubie =>
             <[Script.getStorageKey currentGameMode (name savedCubie)
               := colors_text savedCubie]> st)
          st (savedCubies c) in
  let st :=
    <[Script.getStorageKey currentGameMode "permutation"
      := JSON_stringify (permutation c)]> st in
  <[Script.getStorageKey currentGameMode "orientation"
    := JSON_stringify (orientation c)]> st.

(** The four statements that start a game afresh, in both branches of the
    set-up. *)
Definition start_fresh (c : cube) (st : storage) : storage :=
  let st :=
    <[Script.getStorageKey currentGameMode "guesses" := "-1"]> st in
  let st :=
    <[Script.getStorageKey currentGameMode "score"
      := JSON_stringify (replicate 20 (-1))]> st in
  let st := delete (Script.getStorageKey currentGameMode "complete") st in
  save c st.

(** The storage after the set-up at page load; [cube.load()] only reads. *)
Definition set_up (today : string) (c : cube) (st : storage) : storage :=
  if Script.isDailyMode currentGameMode then
    if bool_decide (st !! "today" = Some today) then st
    else start_fresh c (<["today" := today]> st)
  else
    match st !! Script.getStorageKey currentGameMode "guesses" with
    | None | Some "" => start_fresh c st
    | Some _ => st
    end.


(** A key that the current mode does not prefix. *)
Definition foreign (key : string) : Prop :=
  forall k, key <> Script.getStorageKey currentGameMode k.

(** The storage after [startNewTrainerGame]. *)
Definition startNewTrainerGame (st : storage) : storage :=
  if Script.isTrainerMode currentGameMode then
    delete (Script.getStorageKey currentGameMode "complete")
      (delete (Script.getStorageKey currentGameMode "score")
         (delete (Script.getStorageKey currentGameMode "guesses") st))
  else st.

End WithThree.
End Storage.

(** ** Entering a state at the picker *)

Module Entering.
Import Cube3D Scene.
Section WithThree.
Context `{T : Three}.

(** The cubie of each slot. *)
Variable cubie_at : nat -> Cubie.

(** The pieces the picker shows for the cubie of slot [i]. *)
Definition pieces_of (i : nat) : list string :=
  if (i <? 12)%nat then edge_pieces else corner_pieces.

(** The place of the button that carries [piece]. *)
Definition button_of (pieces : list string) (piece : string) : nat :=
  Z.to_nat (array_indexOf pieces piece).

(** The rotate presses that take orientation 0 to [o] in slot [i]. *)
Definition presses (i : nat) (o : Z) : nat :=
  let len := if (i <? 12)%nat then 2 else 3 in
  Z.to_nat ((len - o) mod len).

(** The orientation of slot [i] after one rotate press. *)
Definition turn (i : nat) (w : Z) : Z :=
  if w - 1 <? 0 then (if (i <? 12)%nat then 2 else 3) - 1 else w - 1.

(** Select the cubie of slot [i] and erase it. *)
Definition erase_slot (i : nat) : list event :=
  [ClickCubie (cubie_at i); ClickErase].

(** The same for the [n] slots from [i] on. *)
Fixpoint erase_slots (i n : nat) : list event :=
  match n with
  | O => []
  | S n' => erase_slot i ++ erase_slots (S i) n'
  end.

(** Select the cubie of slot [i], press the button of the piece [v], turn
    it to orientation [o]. *)
Definition enter_slot (i : nat) (v o : Z) : list event :=
  match CUBIE_ORDER !! Z.to_nat v with
  | Some piece =>
      [ClickCubie (cubie_at i); ClickPiece (button_of (pieces_of i) piece)]
      ++ replicate (presses i o) ClickRotate
  | None => []
  end.

(** The same for the slots from [i] on, with the pieces [p] and the
    orientations [o]. *)
Fixpoint enter_slots (i : nat) (p o : list Z) : list event :=
  match p, o with
  | v :: p', w :: o' => enter_slot i v w ++ enter_slots (S i) p' o'
  | _, _ => []
  end.

(** Erase the twenty slots, then fill them as [state] has them. *)
Definition enter_state (state : list Z) : list event :=
  erase_slots 0 20 ++ enter_slots 0 (take 20 state) (drop 20 state).

(** The picker is set up for the cubie of slot [i]: the handlers are for
    it, erase and rotate can be pressed, the buttons show the pieces of its
    kind, each disabled exactly when the permutation has the piece, and the
    highlight is on the cubie. *)
Definition editing (c : cube) (i : nat) : Prop :=
  handlers_for (controls c) = Some (cubie_at i)
  /\ erase_disabled (controls c) = false
  /\ rotate_disabled (controls c) = false
  /\ picker (controls c)
     = map (fun piece =>
              (piece, includes (permutation c) (getStateIndex piece)))
           (pieces_of i)
  /\ mesh_position (selection c) = position (cubie_at i).

(** The piece [v] with the orientation [w] fits the slot [i]. *)
Definition fits (i : nat) (v w : Z) : Prop :=
  if (i <? 12)%nat then 0 <= v < 12 /\ 0 <= w <= 1
  else 12 <= v < 20 /\ 0 <= w <= 2.

End WithThree.

(** The cubie the constructor builds for slot [i]. *)
Definition constructed `{T : Three} (i : nat) : Cubie :=
  match CUBIE_ORDER !! i with
  | Some n => default (new_Cubie 0 0 0 "") (find_cubie constructor_cubies n)
  | None => new_Cubie 0 0 0 ""
  end.

End Entering.

(** ** The reverse coordinate map ([Cube3D]'s static block) *)

Module Coordinates.
Import Cube3D.

(** [Object.entries(Cube3D.CUBIE_COORDINATES)]: the entries as written. *)
Definition entries : list (string * (Z * Z * Z)) :=
  [ ("UF", (1, 2, 2)); ("UR", (2, 1, 2)); ("UB", (1, 0, 2)); ("UL", (0, 1, 2));
    ("DF", (1, 2, 0)); ("DR", (2, 1, 0)); ("DB", (1, 0, 0)); ("DL", (0, 1, 0));
    ("FR", (2, 2, 1)); ("FL", (0, 2, 1)); ("BR", (2, 0, 1)); ("BL", (0, 0, 1));
    ("UFR", (2, 2, 2)); ("URB", (2, 0, 2)); ("UBL", (0, 0, 2)); ("ULF", (0, 2, 2));
    ("DRF", (2, 2, 0)); ("DFL", (0, 2, 0)); ("DLB", (0, 0, 0)); ("DBR", (2, 0, 0)) ].

(** [coords.join(',')] *)
Definition join (coords : Z * Z * Z) : string :=
  let '(x, y, z) := coords in
  Generate.Z_toString x ++ "," ++ Generate.Z_toString y ++ ","
  ++ Generate.Z_toString z.

(** The loop of the static block. *)
Definition COORDINATE_TO_CUBIE : gmap string string :=
  foldl (fun m entry => <[join (snd entry) := fst entry]> m) ∅ entries.

End Coordinates.

(** ** A generator that replays a script *)

(** [rng()] hands out the next number of the script (0 when the script is
    used up); [Math.floor(x * n)] of a number of the script is that number
    reduced below [n].  Each draw of [shuffle] is used with one [n], so a
    script stands for the doubles that floor to its numbers. *)
Module Scripted.

Definition scripted_random : SeedRandom := {|
  prng := list Z;
  unit_double := Z;
  seedrandom := fun _ => [];
  rng_call := fun script =>
    match script with
    | [] => (0, [])
    | x :: rest => (x, rest)
    end;
  floor_times := fun x n => x mod n
|}.

End Scripted.

(** ** The random numbers a generation pass draws *)

Module Draws.
Section WithGenerator.
Context `{SR : SeedRandom}.

(** The generator after one call [rng()]. *)
Definition next (rng : prng) : prng := snd (rng_call rng).

(** The double that call [k] (from 0) of [rng()] returns. *)
Definition draw (k : nat) (rng : prng) : unit_double :=
  fst (rng_call (Nat.iter k next rng)).

End WithGenerator.
End Draws.

(** ** The shuffle as the spec names it

    The Fisher-Yates shuffle, told by what it leaves behind and not by
    assignments to an array: the entry chosen among all the entries goes to
    the last place and stays there, the last entry takes the place of the
    chosen one, and the entries before the last place are shuffled by the
    choices that remain.  [fisher_yates] is compared with [Generate.shuffle];
    it is not a translation of it. *)
Module FisherYates.

Fixpoint fisher_yates (choices : list nat) (array : list Z) : list Z :=
  match choices with
  | [] => array
  | j :: choices' =>
      match last array, array !! j with
      | Some a, Some b =>
          fisher_yates choices' (take (length array - 1) (<[j := a]> array))
          ++ [b]
      | _, _ => array
      end
  end.

Section WithGenerator.
Context `{SR : SeedRandom}.

(** The choices of a shuffle of [len] entries whose first draw is draw
    [from] of the generator: choice [k] is made among the [len - k]
    entries that are not placed yet. *)
Definition choices (len from : nat) (rng : prng) : list nat :=
  (fun k => Z.to_nat (floor_times (Draws.draw (from + k) rng)
                        (Z.of_nat (len - k))))
  <$> seq 0 (len - 1).

(** [count] orientations below [k], from draw [from] of the generator
    on. *)
Definition orientations (count from : nat) (k : Z) (rng : prng) : list Z :=
  (fun n => floor_times (Draws.draw (from + n) rng) k) <$> seq 0 count.

End WithGenerator.
End FisherYates.

(** ** More of [Cube3D]: save, load, and the cube's side of a guess *)

Module Persistence.
Import Scene.
Section WithThree.
Context `{T : Three}.

(** [save()], as far as the two arrays go (the colours of the cubies, which
    it stores under the cubies' names, are not part of [cube]). *)
Definition save (c : cube) : cube :=
  with_storage c (Some (Json (permutation c))) (Some (Json (orientation c))).

(** [load()], as far as the two arrays go: an item that is there is parsed,
    a missing one gives the solved default; a throw leaves what was not yet
    assigned. *)
Definition load (c : cube) : outcome :=
  let savedPermutation :=
    match stored_permutation c with
    | Some i => JSON_parse i
    | None => Normal (seqZ 0 20)
    end in
  match savedPermutation with
  | Throw e => (c, Some e)
  | Normal p =>
      let c1 := with_arrays c p (orientation c) in
      let savedOrientation :=
        match stored_orientation c1 with
        | Some i => JSON_parse i
        | None => Normal (replicate 20 0)
        end in
      match savedOrientation with
      | Throw e => (c1, Some e)
      | Normal o => (with_arrays c1 (permutation c1) o, None)
      end
  end.

(** The selection highlight passed as a cubie: a mesh has the empty name. *)
Definition selection_object (c : cube) : Cubie :=
  {| name := ""; position := mesh_position (selection c) |}.

(** What an accepted guess does to the cube in [check]: [cube.save()], then
    [cube.initPicker(cube.selection)]. *)
Definition accept_guess (c : cube) : outcome :=
  initPicker (save c) (selection_object c) false.

(** What no click and no key changes: the cubies of the scene, the camera,
    the answer and the stored guess. *)
Definition same_game (c c' : cube) : Prop :=
  savedCubies c' = savedCubies c
  /\ camera c' = camera c
  /\ answerPermutation c' = answerPermutation c
  /\ answerOrientation c' = answerOrientation c
  /\ stored_permutation c' = stored_permutation c
  /\ stored_orientation c' = stored_orientation c.

(** No button of the picker, nor erase, nor rotate, can be pressed. *)
Definition controls_disabled (c : cube) : Prop :=
  erase_disabled (controls c) = true
  /\ rotate_disabled (controls c) = true
  /\ forall k piece, picker (controls c) !! k <> Some (piece, false).

(** The event rewrites the storage. *)
Definition is_Stored (e : event) : bool :=
  match e with Stored _ _ => true | _ => false end.

(** A permutation array under construction: twenty entries; an edge slot
    holds an edge value or -1, a corner slot a corner value or -1; no piece
    sits in two slots. *)
Definition partial_assignment (p : list Z) : Prop :=
  length p = 20%nat
  /\ (forall (i : nat) (v : Z), p !! i = Some v ->
        v = -1
        \/ (if (i <? 12)%nat then 0 <= v < 12 else 12 <= v < 20))
  /\ (forall (i j : nat) (v : Z),
        p !! i = Some v -> p !! j = Some v -> v <> -1 -> i = j).

(** The buttons of the picker show the pieces of the kind of the cubie the
    handlers are for, each disabled exactly when the permutation holds it. *)
Definition picker_fresh (c : cube) : Prop :=
  forall k piece d,
    picker (controls c) !! k = Some (piece, d) ->
    d = includes (permutation c) (Cube3D.getStateIndex piece)
    /\ exists cubie,
         handlers_for (controls c) = Some cubie
         /\ piece ∈ (if strlen (name cubie) =? 2 then edge_pieces
                     else corner_pieces).

(** While a control can be pressed, the handlers are for a cubie whose slot
    is not correct in the stored guess. *)
Definition bound_unlocked (c : cube) : Prop :=
  controls_disabled c
  \/ exists cubie,
       handlers_for (controls c) = Some cubie
       /\ correct c (Cube3D.getStateIndex (name cubie)) = Normal false.

End WithThree.
End Persistence.

(** * Theorems *)

(** ** The adjacency table *)

Module AdjacencyFacts.
Import Cube3D Adjacency.

Lemma unit_axis_stepb_sound p q :
  unit_axis_stepb p q = true -> unit_axis_step p q.
Proof.
  destruct p as [[px py] pz], q as [[qx qy] qz]; simpl.
  rewrite !orb_true_iff, !andb_true_iff, !Z.eqb_eq. lia.
Qed.

Lemma table_checked : table_ok = true.
Proof. vm_compute. reflexivity. Qed.

(** A check that holds on the list of the entries holds on every entry. *)
Lemma forallb_entries (m : gmap string (list string))
    (f : string -> string -> bool) a ns b :
  forallb (fun kv => forallb (f (fst kv)) (snd kv)) (map_to_list m) = true ->
  m !! a = Some ns -> b ∈ ns -> f a b = true.
Proof.
  intros Hall Hns Hb.
  rewrite forallb_forall in Hall.
  assert (Hin : In (a, ns) (map_to_list m)).
  { apply list_elem_of_In, elem_of_map_to_list, Hns. }
  apply Hall in Hin. cbn [fst snd] in Hin.
  rewrite forallb_forall in Hin.
  apply Hin, list_elem_of_In, Hb.
Qed.

(** Every listed pair passes the three checks of its table entry. *)
Lemma listed_checked a b :
  listed a b ->
  opposite_kind a b = true /\ listedb b a = true /\ geometric a b = true.
Proof.
  intros (ns & Hns & Hb).
  pose proof (forallb_entries ADJACENCY_MAP
                (fun a b => opposite_kind a b && listedb b a && geometric a b)
                a ns b table_checked Hns Hb) as H.
  cbv beta in H. rewrite !andb_true_iff in H. tauto.
Qed.

Lemma listedb_listed a b : listedb a b = true -> listed a b.
Proof.
  unfold listedb, listed. destruct (ADJACENCY_MAP !! a) as [ns|]; [|done].
  intros H%bool_decide_eq_true. eauto.
Qed.

(** Every piece of the order has neighbours in the table. *)
Lemma every_piece_listed a : a ∈ CUBIE_ORDER -> exists b, listed a b.
Proof.
  intros Ha.
  assert (Hall : forallb
                   (fun a => match ADJACENCY_MAP !! a with
                             | Some (b :: _) => true
                             | _ => false
                             end) CUBIE_ORDER = true)
    by (vm_compute; reflexivity).
  rewrite forallb_forall in Hall. apply list_elem_of_In, Hall in Ha.
  unfold listed.
  destruct (ADJACENCY_MAP !! a) as [[|b ns]|]; [done| |done].
  exists b, (b :: ns). split; [done|by left].
Qed.

(** C10. The adjacency table is bipartite (a listed pair is an edge name
    and a corner name), symmetric (B is listed for A exactly when A is
    listed for B) and agrees with the coordinate table (the coordinates of
    a listed pair differ by exactly 1 on exactly one axis); every one of the
    twenty pieces has neighbours listed. *)
Theorem adjacency_bipartite_symmetric_geometric :
  (forall a, a ∈ CUBIE_ORDER -> exists b, listed a b)
  /\ (forall a b, listed a b ->
     (String.length a = 2%nat /\ String.length b = 3%nat)
     \/ (String.length a = 3%nat /\ String.length b = 2%nat))
  /\ (forall a b, listed a b <-> listed b a)
  /\ (forall a b, listed a b ->
        exists p q, CUBIE_COORDINATES !! a = Some p
                    /\ CUBIE_COORDINATES !! b = Some q
                    /\ unit_axis_step p q).
Proof.
  split; [exact every_piece_listed|]. split; [|split].
  - intros a b (Hk & _ & _)%listed_checked.
    unfold opposite_kind, strlen in Hk.
    rewrite orb_true_iff, !andb_true_iff, !Z.eqb_eq in Hk. lia.
  - intros a b; split; intros (_ & Hs & _)%listed_checked;
      by apply listedb_listed.
  - intros a b (_ & _ & Hg)%listed_checked.
    unfold geometric in Hg.
    destruct (CUBIE_COORDINATES !! a) as [p|]; [|done].
    destruct (CUBIE_COORDINATES !! b) as [q|]; [|done].
    exists p, q. eauto using unit_axis_stepb_sound.
Qed.

End AdjacencyFacts.

(** ** The facelet projector *)

Module ProjectorFacts.
Import Cube3D Main Described.

(** *** The two loops push one colour per facelet, face after face *)

Section Loops.
Variables permutation orientation : list Z.

Lemma push_facelets_Normal face facelets acc out :
  push_facelets permutation orientation face facelets acc = Normal out
  <-> exists row,
        out = acc ++ row
        /\ row_of permutation orientation face facelets row.
Proof.
  revert acc. induction facelets as [|facelet rest IH]; intros acc; simpl.
  - split.
    + intros [= <-]. exists []. split; [by rewrite app_nil_r|constructor].
    + intros (row & -> & Hrow). inversion Hrow. by rewrite app_nil_r.
  - destruct (facelet_color permutation orientation face facelet)
      as [c|e] eqn:Hc; simpl.
    + rewrite IH. split.
      * intros (row & -> & Hrow). exists (c :: row).
        split; [by rewrite <- app_assoc|by constructor].
      * intros (row & -> & Hrow). inversion Hrow as [|? c' ? row' Hc' Hrest];
          subst. rewrite Hc in Hc'. injection Hc' as <-.
        exists row'. split; [by rewrite <- app_assoc|done].
    + split; [done|].
      intros (row & _ & Hrow). inversion Hrow; congruence.
Qed.

Lemma push_faces_Normal faces acc out :
  push_faces permutation orientation faces acc = Normal out
  <-> exists rows,
        out = acc ++ concat rows
        /\ rows_of permutation orientation faces rows.
Proof.
  revert acc. induction faces as [|face rest IH]; intros acc.
  - cbn [push_faces]. split.
    + intros [= <-]. exists []. split; [by rewrite app_nil_r|constructor].
    + intros (rows & -> & Hrows). inversion Hrows. by rewrite app_nil_r.
  - cbn [push_faces].
    destruct (FACELETS !! face) as [facelets|] eqn:Hface.
    + destruct (push_facelets permutation orientation face facelets acc)
        as [colors'|e] eqn:Hpush; cbn [JS.bind].
      * apply push_facelets_Normal in Hpush as (row & -> & Hrow).
        rewrite IH. split.
        -- intros (rows & -> & Hrows). exists (row :: rows).
           split; [by rewrite <- app_assoc|].
           constructor; [eauto|done].
        -- intros (rows & -> & Hrows).
           inversion Hrows as [|? row' ? rows' (fl & Hfl & Hrow') Hrest];
             subst.
           rewrite Hface in Hfl. injection Hfl as <-.
           assert (row' = row) as ->.
           { clear -Hrow Hrow'. revert row' Hrow'.
             induction Hrow; intros row' Hrow';
               inversion Hrow'; subst; [done|].
             f_equal; [congruence|auto]. }
           exists rows'. split; [by rewrite <- app_assoc|done].
      * split; [done|].
        intros (rows & -> & Hrows).
        inversion Hrows as [|? row' ? rows' (fl & Hfl & Hrow') Hrest];
          subst.
        rewrite Hface in Hfl. injection Hfl as <-.
        assert (push_facelets permutation orientation face facelets acc
                = Normal (acc ++ row')) as Hc
          by (apply push_facelets_Normal; eauto).
        congruence.
    + split; [done|].
      intros (rows & _ & Hrows).
      inversion Hrows as [|? ? ? ? (fl & Hfl & _) ?]; congruence.
Qed.

End Loops.

Lemma stateToFaceletColors_Normal state out :
  stateToFaceletColors state = Normal out
  <-> exists rows,
        out = concat rows
        /\ rows_of (take 20 state) (drop 20 state) (chars "ULFRBD") rows.
Proof. unfold stateToFaceletColors. by rewrite push_faces_Normal. Qed.

(** Rows of nine: the entry [p] of row [f] sits at [9 f + p]. *)
Lemma lookup_concat_rows {A} (rows : list (list A)) (f p : nat) row :
  Forall (fun r => length r = 9%nat) rows ->
  rows !! f = Some row -> (p < 9)%nat ->
  concat rows !! (9 * f + p)%nat = row !! p.
Proof.
  intros Hlen. revert f. induction Hlen as [|r rows Hr _ IH]; intros f Hf Hp.
  - done.
  - change (concat (r :: rows)) with (r ++ concat rows).
    destruct f as [|f].
    + injection Hf as ->. rewrite lookup_app_l by lia.
      by replace (9 * 0 + p)%nat with p by lia.
    + rewrite lookup_app_r by lia.
      replace (9 * S f + p - length r)%nat with (9 * f + p)%nat by lia.
      by apply IH.
Qed.

Lemma length_concat_rows {A} (rows : list (list A)) :
  Forall (fun r => length r = 9%nat) rows ->
  length (concat rows) = (9 * length rows)%nat.
Proof.
  induction 1 as [|r rows Hr _ IH]; simpl; [done|].
  rewrite length_app. lia.
Qed.

(** *** One facelet *)

Lemma facelets_checked : facelets_ok = true.
Proof. vm_compute. reflexivity. Qed.

Lemma face_checked face :
  face ∈ chars "ULFRBD" ->
  exists facelets,
    FACELETS !! face = Some facelets
    /\ length facelets = 9%nat
    /\ forall p facelet,
         facelets !! p = Some facelet -> facelet_ok face p facelet = true.
Proof.
  intros Hface. pose proof facelets_checked as Hall.
  unfold facelets_ok in Hall. rewrite forallb_forall in Hall.
  apply list_elem_of_In, Hall in Hface. unfold face_ok in Hface.
  destruct (FACELETS !! face) as [facelets|]; [|done].
  apply andb_true_iff in Hface as [Hlen Hfl].
  exists facelets. split; [done|]. split; [by apply Nat.eqb_eq|].
  intros p facelet Hp. rewrite forallb_forall in Hfl.
  apply (Hfl (p, facelet)), list_elem_of_In, elem_of_lookup_imap. eauto.
Qed.

Lemma CUBIE_ORDER_lengths v n :
  js_get CUBIE_ORDER v = Some n -> strlen n = 2 \/ strlen n = 3.
Proof.
  unfold js_get. case_decide; [|done]. intros Hn.
  assert (Hall : forallb (fun n => (strlen n =? 2) || (strlen n =? 3))
                   CUBIE_ORDER = true) by reflexivity.
  rewrite forallb_forall in Hall.
  apply list_elem_of_lookup_2, list_elem_of_In, Hall in Hn.
  rewrite orb_true_iff, !Z.eqb_eq in Hn. done.
Qed.

Lemma js_get_Some_lt {A} (l : list A) i x :
  js_get l i = Some x -> 0 <= i < Z.of_nat (length l).
Proof.
  unfold js_get. case_decide; [|done].
  intros Hlt%lookup_lt_Some. lia.
Qed.

Lemma js_get_lookup {A} (l : list A) (i : nat) :
  js_get l (Z.of_nat i) = l !! i.
Proof.
  unfold js_get. case_decide; [|lia]. by rewrite Nat2Z.id.
Qed.

Lemma js_get_is_Some {A} (l : list A) i :
  0 <= i < Z.of_nat (length l) -> is_Some (js_get l i).
Proof.
  intros Hi. unfold js_get. case_decide; [|lia].
  apply lookup_lt_is_Some. lia.
Qed.

Lemma charAt_letter s r : 0 <= r -> charAt s (Int r) = letter s r.
Proof. intros Hr. unfold charAt, letter. by case_decide; [|lia]. Qed.

(** The colour pushed for a facelet that is not a centre, when its slot
    holds a piece [name] of the order and an orientation that keeps the
    index from being negative. *)
Lemma facelet_color_filled permutation orientation face facelet piece o :
  let slot := getStateIndex facelet in
  let k := string_indexOf facelet face in
  strlen facelet = 2 \/ strlen facelet = 3 ->
  occupant permutation slot = Some piece ->
  js_get orientation slot = Some o ->
  0 <= k -> 0 <= o <= 3 ->
  facelet_color permutation orientation face facelet
  = Normal
      (letter piece
         ((k + (if strlen facelet =? 2 then o else 3 - o))
          mod strlen piece)).
Proof.
  intros slot k Hlen Hpiece Ho Hk Hrange.
  assert (Hname : strlen piece = 2 \/ strlen piece = 3).
  { unfold occupant in Hpiece.
    destruct (js_get permutation slot); [|done].
    eauto using CUBIE_ORDER_lengths. }
  unfold facelet_color. fold slot. fold k. rewrite Hpiece, Ho.
  destruct Hlen as [-> | ->]; cbn [Z.eqb Pos.eqb of_undefined num_add num_sub];
    unfold num_rem; (case_decide; [lia|]);
    rewrite Z.rem_mod_nonneg by lia;
    rewrite charAt_letter by (apply Z.mod_pos_bound; lia); done.
Qed.

(** *** C1: what the projector returns on a complete state *)

Lemma complete_entries state :
  complete state ->
  forall slot, 0 <= slot < 20 ->
    exists v o piece,
      js_get (take 20 state) slot = Some v /\ 0 <= v < 20
      /\ occupant (take 20 state) slot = Some piece
      /\ js_get (drop 20 state) slot = Some o
      /\ 0 <= o /\ (if slot <? 12 then o <= 1 else o <= 2).
Proof.
  intros (Hlen & Hperm & Hori) slot Hslot.
  destruct (js_get_is_Some (take 20 state) slot) as [v Hv].
  { rewrite length_take. lia. }
  destruct (js_get_is_Some (drop 20 state) slot) as [o Ho].
  { rewrite length_drop. lia. }
  assert (Hvr : 0 <= v < 20).
  { assert (v ∈ seqZ 0 20) as Hin.
    { rewrite <- Hperm. unfold js_get in Hv. case_decide; [|done].
      by eapply list_elem_of_lookup_2. }
    apply elem_of_seqZ in Hin. lia. }
  destruct (js_get_is_Some CUBIE_ORDER v) as [piece Hpiece]; [simpl; lia|].
  exists v, o, piece. split; [done|]. split; [done|].
  split; [unfold occupant; by rewrite Hv|]. split; [done|].
  unfold js_get in Ho. case_decide; [|done].
  apply Hori in Ho.
  replace (Z.to_nat slot <? 12)%nat with (slot <? 12) in Ho; [done|].
  destruct (Z.ltb_spec slot 12), (Nat.ltb_spec (Z.to_nat slot) 12); lia.
Qed.

Lemma chars_one_letter s c : c ∈ chars s -> strlen c = 1.
Proof.
  induction s as [|a s IH]; simpl; [by intros ?%elem_of_nil|].
  intros [->|Hc]%elem_of_cons; [done|auto].
Qed.

Lemma facelet_color_complete state face p facelet :
  complete state ->
  face ∈ chars "ULFRBD" ->
  facelet_ok face p facelet = true ->
  facelet_color (take 20 state) (drop 20 state) face facelet
  = Normal (if (p =? 4)%nat then face
            else color_by_name_length state face facelet).
Proof.
  intros Hc Hface Hok. unfold facelet_ok in Hok.
  destruct (p =? 4)%nat.
  - apply bool_decide_eq_true in Hok as ->.
    unfold facelet_color. by rewrite (chars_one_letter _ _ Hface).
  - rewrite !andb_true_iff, orb_true_iff, !andb_true_iff in Hok.
    rewrite !Z.leb_le, !Z.ltb_lt, !Z.eqb_eq in Hok.
    destruct Hok as (((Hlo & Hhi) & Hkind) & Hk).
    destruct (complete_entries state Hc (getStateIndex facelet))
      as (v & o & piece & Hv & Hvr & Hpiece & Ho & Ho0 & Ho1); [lia|].
    rewrite (facelet_color_filled _ _ face facelet piece o); try done.
    + unfold color_by_name_length, color_with. rewrite Hpiece, Ho.
      destruct Hkind as [[-> _]|[-> _]]; done.
    + lia.
    + destruct (getStateIndex facelet <? 12); lia.
Qed.

(** The rows the projector builds for a complete state. *)
Lemma complete_rows state :
  complete state ->
  exists rows,
    rows_of (take 20 state) (drop 20 state) (chars "ULFRBD") rows
    /\ Forall (fun r => length r = 9%nat) rows
    /\ forall (f p : nat) face facelet facelets,
         chars "ULFRBD" !! f = Some face ->
         FACELETS !! face = Some facelets ->
         facelets !! p = Some facelet ->
         exists row,
           rows !! f = Some row
           /\ row !! p
              = Some (if (p =? 4)%nat then face
                      else color_by_name_length state face facelet).
Proof.
  intros Hc.
  set (expected := fun face p (facelet : string) =>
         if (p =? 4)%nat then face
         else color_by_name_length state face facelet).
  set (row := fun face =>
         imap (expected face) (default [] (FACELETS !! face))).
  exists (map row (chars "ULFRBD")). split; [|split].
  - apply Forall2_fmap_r, Forall_Forall2_diag, Forall_forall.
    intros face Hface.
    destruct (face_checked face Hface) as (fl & Hfl & Hlen & Hok).
    exists fl. split; [done|]. unfold row. rewrite Hfl.
    change (default [] (Some fl)) with fl.
    apply Forall2_same_length_lookup_2; [by rewrite length_imap|].
    intros p facelet c Hp Hcp.
    rewrite list_lookup_imap, Hp in Hcp. injection Hcp as <-.
    apply facelet_color_complete; auto.
  - apply Forall_fmap, Forall_forall. intros face Hface.
    destruct (face_checked face Hface) as (fl & Hfl & Hlen & _).
    unfold compose, row. cbv beta. rewrite Hfl.
    change (default [] (Some fl)) with fl. by rewrite length_imap.
  - intros f p face facelet fl Hf Hfl Hp.
    exists (row face). split; [by rewrite list_lookup_fmap, Hf|].
    unfold row. rewrite Hfl.
    change (default [] (Some fl)) with fl.
    by rewrite list_lookup_imap, Hp.
Qed.

(** The colour at position [9 f + p] of what the projector returned. *)
Lemma complete_color_at state colors (f p : nat) face facelet facelets :
  complete state ->
  stateToFaceletColors state = Normal colors ->
  chars "ULFRBD" !! f = Some face ->
  FACELETS !! face = Some facelets ->
  facelets !! p = Some facelet ->
  colors !! (9 * f + p)%nat
  = Some (if (p =? 4)%nat then face
          else color_by_name_length state face facelet).
Proof.
  intros Hc Hcolors Hf Hfl Hp.
  destruct (complete_rows state Hc) as (rows & Hrows & Hlen & Hat).
  assert (stateToFaceletColors state = Normal (concat rows)) as Hrows'
    by (apply stateToFaceletColors_Normal; eauto).
  rewrite Hcolors in Hrows'. injection Hrows' as ->.
  destruct (Hat f p face facelet facelets Hf Hfl Hp) as (row & Hrow & Hcol).
  rewrite (lookup_concat_rows rows f p row Hlen Hrow); [done|].
  apply lookup_lt_Some in Hcol.
  rewrite Forall_lookup in Hlen. specialize (Hlen f row Hrow). lia.
Qed.

(** C1 (as amended). On a complete state the projector returns 54 colours
    in the face order U, L, F, R, B, D; position 4 of each face is the face
    letter; every other facelet shows the letter of the occupying piece's
    name at index (facelet.indexOf(face) + orientation) for an edge facelet
    and (facelet.indexOf(face) + 3 - orientation) for a corner facelet,
    in both cases modulo the length of the occupying piece's name. *)
Theorem project_complete_state state :
  complete state -> projects_as color_by_name_length state.
Proof.
  intros Hc. destruct (complete_rows state Hc) as (rows & Hrows & Hlen & Hat).
  exists (concat rows). split; [|split].
  - apply stateToFaceletColors_Normal. eauto.
  - rewrite (length_concat_rows rows Hlen).
    apply Forall2_length in Hrows. rewrite <- Hrows. done.
  - intros f p face facelet fl Hf Hfl Hp.
    destruct (Hat f p face facelet fl Hf Hfl Hp) as (row & Hrow & Hcol).
    rewrite (lookup_concat_rows rows f p row Hlen Hrow); [done|].
    apply lookup_lt_Some in Hcol.
    rewrite Forall_lookup in Hlen. specialize (Hlen f row Hrow). lia.
Qed.

Lemma zeros_in_range n : Scene.orientation_in_range (replicate n 0).
Proof.
  intros i v [-> _]%lookup_replicate. by destruct (i <? 12)%nat.
Qed.

Lemma crossed_state_complete : complete crossed_state.
Proof.
  split; [reflexivity|]. split.
  - refine (bool_decide_unpack (take 20 crossed_state ≡ₚ seqZ 0 20) _).
    vm_compute. exact I.
  - apply (zeros_in_range 20).
Qed.

(** C1, counterexample. With the edge UF in the corner slot UFR the
    facelet of UFR on face U shows F (index 3 modulo the name length 2),
    not the U that index 3 modulo 3 would give. *)
Lemma project_corner_modulo_3_fails :
  complete crossed_state /\ ~ projects_as color_as_claimed crossed_state.
Proof.
  split; [exact crossed_state_complete|].
  intros (colors & Hcolors & _ & Hat).
  specialize (Hat 0%nat 8%nat "U" "UFR"
                ["UBL"; "UB"; "URB"; "UL"; "U"; "UR"; "ULF"; "UF"; "UFR"]
                eq_refl).
  vm_compute in Hcolors. injection Hcolors as <-.
  assert (Hlook : FACELETS !! "U"
                  = Some ["UBL"; "UB"; "URB"; "UL"; "U"; "UR"; "ULF"; "UF";
                          "UFR"])
    by (vm_compute; reflexivity).
  specialize (Hat Hlook eq_refl).
  vm_compute in Hat. discriminate Hat.
Qed.

(** C1, witness: the amended statement at the crossed state. *)
Lemma project_complete_state_witness :
  complete crossed_state /\ projects_as color_by_name_length crossed_state.
Proof.
  split.
  - exact crossed_state_complete.
  - apply (project_complete_state crossed_state).
    exact crossed_state_complete.
Defined.

(** *** C6: the sticker metric *)

Lemma facelet_color_assigned state face p facelet :
  assigned state ->
  face ∈ chars "ULFRBD" ->
  facelet_ok face p facelet = true ->
  exists c,
    facelet_color (take 20 state) (drop 20 state) face facelet = Normal c.
Proof.
  intros Ha Hface Hok. unfold facelet_ok in Hok.
  destruct (p =? 4)%nat.
  - apply bool_decide_eq_true in Hok as ->.
    unfold facelet_color. rewrite (chars_one_letter _ _ Hface). eauto.
  - rewrite !andb_true_iff, orb_true_iff, !andb_true_iff in Hok.
    rewrite !Z.leb_le, !Z.ltb_lt, !Z.eqb_eq in Hok.
    destruct Hok as (((Hlo & Hhi) & Hkind) & Hk).
    destruct (Ha (getStateIndex facelet)) as (v & Hv & Hvr); [lia|].
    destruct (js_get_is_Some CUBIE_ORDER v) as [piece Hpiece]; [simpl; lia|].
    unfold facelet_color, occupant. rewrite Hv, Hpiece.
    destruct (strlen facelet =? 1); eauto.
Qed.

Lemma row_exists permutation orientation face facelets :
  (forall p facelet, facelets !! p = Some facelet ->
     exists c, facelet_color permutation orientation face facelet = Normal c) ->
  exists row, row_of permutation orientation face facelets row.
Proof.
  induction facelets as [|facelet rest IH]; intros Hall.
  - exists []. constructor.
  - destruct (Hall 0%nat facelet eq_refl) as [c Hc].
    destruct IH as [row Hrow].
    { intros p f Hp. apply (Hall (S p) f Hp). }
    exists (c :: row). by constructor.
Qed.

Lemma rows_exist permutation orientation faces :
  (forall face, face ∈ faces ->
     exists facelets row,
       FACELETS !! face = Some facelets
       /\ row_of permutation orientation face facelets row) ->
  exists rows, rows_of permutation orientation faces rows.
Proof.
  induction faces as [|face rest IH]; intros Hall.
  - exists []. constructor.
  - destruct (Hall face) as (fl & row & Hfl & Hrow); [by left|].
    destruct IH as [rows Hrows].
    { intros f Hf. apply Hall. by right. }
    exists (row :: rows). constructor; eauto.
Qed.

(** The projector returns on every state without an unassigned slot. *)
Lemma assigned_projects state :
  assigned state -> exists colors, stateToFaceletColors state = Normal colors.
Proof.
  intros Ha.
  destruct (rows_exist (take 20 state) (drop 20 state) (chars "ULFRBD"))
    as [rows Hrows].
  - intros face Hface.
    destruct (face_checked face Hface) as (fl & Hfl & _ & Hok).
    destruct (row_exists (take 20 state) (drop 20 state) face fl)
      as [row Hrow]; [|by eauto].
    intros p facelet Hp. eapply facelet_color_assigned; eauto.
  - exists (concat rows). apply stateToFaceletColors_Normal. eauto.
Qed.

Lemma sticker_matches_spec current answer i :
  0 <= i ->
  sticker_matches current answer i = true
  <-> i mod 9 <> 4 /\ current !! Z.to_nat i = answer !! Z.to_nat i.
Proof.
  intros Hi. unfold sticker_matches, js_get.
  rewrite Z.rem_mod_nonneg by lia.
  rewrite !decide_True by done.
  rewrite andb_true_iff, negb_true_iff, Z.eqb_neq, bool_decide_eq_true.
  done.
Qed.

(** The loop adds one for each position that passes [sticker_matches]. *)
Lemma count_loop current answer (l : list Z) (n : Z) :
  Forall (fun i => 0 <= i) l ->
  foldl (fun n i => if sticker_matches current answer i then n + 1 else n)
        n l
  = n + Z.of_nat
          (length
             (filter (fun i => i mod 9 <> 4
                               /\ current !! Z.to_nat i = answer !! Z.to_nat i)
                     l)).
Proof.
  intros Hl. revert n. induction Hl as [|i l Hi _ IH]; intros n.
  - simpl. lia.
  - cbn [foldl]. rewrite IH, filter_cons.
    pose proof (sticker_matches_spec current answer i Hi) as Hspec.
    destruct (sticker_matches current answer i).
    + rewrite decide_True by (by apply Hspec). cbn [length]. lia.
    + rewrite decide_False; [lia|].
      intros HP. apply Hspec in HP. done.
Qed.

Lemma matching_stickers_bound current answer :
  0 <= matching_stickers current answer <= 48.
Proof.
  unfold matching_stickers. split; [lia|].
  assert (Hle : forall l : list Z,
             Nat.le
               (length (filter (fun i => i mod 9 <> 4
                                  /\ current !! Z.to_nat i
                                     = answer !! Z.to_nat i) l))
               (length (filter (fun i => i mod 9 <> 4) l))).
  { intros l. induction l as [|i l IH]; [done|].
    rewrite !filter_cons. repeat case_decide; simpl; try lia; tauto. }
  specialize (Hle (seqZ 0 54)).
  assert (H48 : length (filter (fun i => i mod 9 <> 4) (seqZ 0 54)) = 48%nat)
    by (vm_compute; reflexivity).
  lia.
Qed.

(** C6 (as amended). For a guess and an answer with no unassigned slot the
    sticker metric is the number of positions that are not centres where
    the two projections agree, plus 6; it lies between 6 and 54. *)
Theorem countSolvedStickers_counts
    (cube_permutation cube_orientation answerState : list Z) :
  assigned (cube_permutation ++ cube_orientation) ->
  assigned answerState ->
  counts_stickers cube_permutation cube_orientation answerState.
Proof.
  intros [current Hcur]%assigned_projects [answer Hans]%assigned_projects.
  exists current, answer. split; [done|]. split; [done|]. split.
  - unfold countSolvedStickers. rewrite Hcur. cbn [JS.bind].
    rewrite count_loop.
    + unfold matching_stickers. f_equal.
    + apply Forall_forall. intros i Hi%elem_of_seqZ. lia.
  - pose proof (matching_stickers_bound current answer). lia.
Qed.

Lemma solved_state_assigned : assigned solved_state.
Proof.
  intros slot Hslot. exists slot. split; [|done].
  unfold js_get. case_decide; [|lia].
  change (take 20 solved_state) with (seqZ 0 20).
  rewrite lookup_seqZ_lt by lia. f_equal. lia.
Qed.

(** C6, counterexample. With the slot of UF unassigned the projector
    throws, so the metric has no value at all. *)
Lemma countSolvedStickers_throws_on_unassigned :
  ~ counts_stickers erased_permutation (replicate 20 0) solved_state.
Proof.
  intros (current & answer & Hcur & _). vm_compute in Hcur. discriminate.
Qed.

(** C6, witness: the solved guess against the solved answer. *)
Lemma countSolvedStickers_counts_witness :
  counts_stickers (seqZ 0 20) (replicate 20 0) solved_state.
Proof.
  apply (countSolvedStickers_counts (seqZ 0 20) (replicate 20 0) solved_state).
  - exact solved_state_assigned.
  - exact solved_state_assigned.
Defined.

(** *** C2: equal facelets, equal states *)

Lemma role_correct_complete state : role_correct state -> complete state.
Proof.
  intros (Hlen & He & Hc & Ho). split; [done|]. split; [|done].
  change 20%nat with (12 + 8)%nat.
  rewrite <- take_take_drop, He, Hc. done.
Qed.

(** In a role-correct state a slot holds one of its [fillings]. *)
Lemma role_correct_filling state slot :
  role_correct state -> 0 <= slot < 20 ->
  exists p o,
    js_get (take 20 state) slot = Some p
    /\ js_get (drop 20 state) slot = Some o
    /\ 0 <= p < 20 /\ 0 <= o <= 3
    /\ (p, o) ∈ fillings slot.
Proof.
  intros Hrole Hslot.
  pose proof (role_correct_complete _ Hrole) as Hc.
  destruct (complete_entries state Hc slot Hslot)
    as (p & o & _ & Hp & Hpr & _ & Ho & Ho0 & Ho1).
  exists p, o. split; [done|]. split; [done|]. split; [done|].
  split; [destruct (slot <? 12); lia|].
  destruct Hrole as (Hlen & He & Hco & _).
  unfold js_get in Hp. case_decide; [|done].
  unfold fillings. destruct (Z.ltb_spec slot 12).
  - assert (p ∈ seqZ 0 12) as Hin.
    { rewrite <- He. apply (list_elem_of_lookup_2 _ (Z.to_nat slot)).
      rewrite lookup_take_lt in Hp by lia. rewrite lookup_take_lt by lia.
      done. }
    apply list_elem_of_bind. exists p. split; [|done].
    apply list_elem_of_bind. exists o. split; [by left|].
    apply elem_of_seqZ. lia.
  - assert (p ∈ seqZ 12 8) as Hin.
    { rewrite <- Hco.
      apply (list_elem_of_lookup_2 _ (Z.to_nat slot - 12)).
      rewrite lookup_take_lt in Hp by lia. rewrite lookup_take_lt by lia.
      rewrite lookup_drop. rewrite <- Hp. f_equal. lia. }
    apply list_elem_of_bind. exists p. split; [|done].
    apply list_elem_of_bind. exists o. split; [by left|].
    apply elem_of_seqZ. lia.
Qed.

Lemma slots_checked : slots_ok = true.
Proof. vm_compute. reflexivity. Qed.

Lemma slot_checked slot :
  0 <= slot < 20 ->
  exists n,
    js_get CUBIE_ORDER slot = Some n
    /\ getStateIndex n = slot
    /\ (forall face, face ∈ chars n ->
          face ∈ chars "ULFRBD"
          /\ exists facelets, FACELETS !! face = Some facelets /\ n ∈ facelets)
    /\ (forall x y, x ∈ fillings slot -> y ∈ fillings slot ->
          view n (fst x) (snd x) = view n (fst y) (snd y) -> x = y).
Proof.
  intros Hslot. pose proof slots_checked as Hall.
  unfold slots_ok in Hall. rewrite forallb_forall in Hall.
  assert (Hin : In slot (seqZ 0 20)).
  { apply list_elem_of_In, elem_of_seqZ. lia. }
  apply Hall in Hin. unfold slot_ok in Hin.
  destruct (js_get CUBIE_ORDER slot) as [n|]; [|done].
  rewrite !andb_true_iff in Hin. destruct Hin as ((Hidx & Hfaces) & Hinj).
  exists n. split; [done|]. split; [by apply bool_decide_eq_true in Hidx|].
  split.
  - intros face Hface. rewrite forallb_forall in Hfaces.
    apply list_elem_of_In, Hfaces in Hface.
    apply andb_true_iff in Hface as [Hf Hfl].
    split; [by apply bool_decide_eq_true in Hf|].
    destruct (FACELETS !! face) as [fl|]; [|done].
    exists fl. split; [done|]. by apply bool_decide_eq_true in Hfl.
  - intros x y Hx Hy Hview. rewrite forallb_forall in Hinj.
    apply list_elem_of_In, Hinj in Hx. rewrite forallb_forall in Hx.
    apply list_elem_of_In, Hx in Hy.
    rewrite bool_decide_eq_true_2 in Hy by done.
    by apply bool_decide_eq_true in Hy.
Qed.

(** The colour of a facelet only depends on what its slot holds. *)
Lemma color_cell state face facelet p o :
  let slot := getStateIndex facelet in
  strlen facelet = 2 \/ strlen facelet = 3 ->
  0 <= slot < 20 ->
  0 <= string_indexOf facelet face ->
  js_get (take 20 state) slot = Some p -> 0 <= p < 20 ->
  js_get (drop 20 state) slot = Some o -> 0 <= o <= 3 ->
  color_by_name_length state face facelet = cell facelet face p o.
Proof.
  intros slot Hlen Hslot Hk Hp Hpr Ho Hor.
  destruct (js_get_is_Some CUBIE_ORDER p) as [piece Hpiece]; [simpl; lia|].
  assert (Hrep : forall x : Z, js_get (replicate 20 x) slot = Some x).
  { intros x. unfold js_get. case_decide; [|lia].
    apply lookup_replicate_2. lia. }
  unfold cell.
  rewrite (facelet_color_filled _ _ face facelet piece o).
  all: try done.
  - unfold color_by_name_length, color_with, occupant. fold slot.
    rewrite Hp, Hpiece, Ho. by destruct Hlen as [-> | ->].
  - unfold occupant. fold slot. by rewrite Hrep.
Qed.

Lemma equal_colors_equal_slots a b colors :
  role_correct a -> role_correct b ->
  stateToFaceletColors a = Normal colors ->
  stateToFaceletColors b = Normal colors ->
  forall slot, 0 <= slot < 20 ->
    js_get (take 20 a) slot = js_get (take 20 b) slot
    /\ js_get (drop 20 a) slot = js_get (drop 20 b) slot.
Proof.
  intros Ha Hb Hca Hcb slot Hslot.
  destruct (slot_checked slot Hslot) as (n & Hn & Hidx & Hfaces & Hinj).
  destruct (role_correct_filling a slot Ha Hslot)
    as (pa & oa & Hpa & Hoa & Hpar & Hoar & Hfa).
  destruct (role_correct_filling b slot Hb Hslot)
    as (pb & ob & Hpb & Hob & Hpbr & Hobr & Hfb).
  rewrite Hpa, Hoa, Hpb, Hob.
  enough ((pa, oa) = (pb, ob)) as [= -> ->] by done.
  apply Hinj; [done|done|]. cbn [fst snd]. unfold view.
  apply list_fmap_ext. intros _ face Hface%list_elem_of_lookup_2.
  destruct (Hfaces face Hface) as (Hf & fl & Hfl & Hnfl).
  apply list_elem_of_lookup_1 in Hf as [f Hf].
  apply list_elem_of_lookup_1 in Hnfl as [pos Hpos].
  assert (Hface' : face ∈ chars "ULFRBD") by by eapply list_elem_of_lookup_2.
  destruct (face_checked face Hface') as (fl' & Hfl' & _ & Hok).
  rewrite Hfl in Hfl'. injection Hfl' as <-.
  specialize (Hok pos n Hpos).
  pose proof (CUBIE_ORDER_lengths slot n Hn) as Hlen.
  unfold facelet_ok in Hok.
  destruct (pos =? 4)%nat eqn:Hpos4.
  { apply bool_decide_eq_true in Hok. subst face.
    pose proof (chars_one_letter _ _ Hface'). lia. }
  rewrite !andb_true_iff, !Z.leb_le, !Z.ltb_lt in Hok.
  destruct Hok as ((_ & _) & Hk).
  pose proof (complete_color_at a colors f pos face n fl
                (role_correct_complete a Ha) Hca Hf Hfl Hpos) as Hata.
  pose proof (complete_color_at b colors f pos face n fl
                (role_correct_complete b Hb) Hcb Hf Hfl Hpos) as Hatb.
  rewrite Hpos4 in Hata, Hatb. rewrite Hata in Hatb. injection Hatb as Heq.
  rewrite <- Hidx in Hpa, Hoa, Hpb, Hob, Hslot.
  rewrite (color_cell a face n pa oa) in Heq by done.
  rewrite (color_cell b face n pb ob) in Heq by done.
  done.
Qed.

Lemma equal_slots_equal_states (a b : list Z) :
  length a = 40%nat -> length b = 40%nat ->
  (forall slot, 0 <= slot < 20 ->
     js_get (take 20 a) slot = js_get (take 20 b) slot
     /\ js_get (drop 20 a) slot = js_get (drop 20 b) slot) ->
  a = b.
Proof.
  intros Hla Hlb Hslots. apply list_eq. intros i.
  destruct (Nat.lt_ge_cases i 20) as [Hi|Hi].
  - destruct (Hslots (Z.of_nat i)) as [Hp _]; [lia|].
    rewrite !js_get_lookup, !lookup_take_lt in Hp by lia. done.
  - destruct (Nat.lt_ge_cases i 40) as [Hi'|Hi'].
    + destruct (Hslots (Z.of_nat (i - 20))) as [_ Ho]; [lia|].
      rewrite !js_get_lookup, !lookup_drop in Ho.
      by replace (20 + (i - 20))%nat with i in Ho by lia.
    + rewrite !lookup_ge_None_2 by lia. done.
Qed.

(** **** The colours are single letters, so printing them loses nothing *)

Lemma get_lt n s :
  (n < String.length s)%nat -> exists c, String.get n s = Some c.
Proof.
  revert n. induction s as [|a s IH]; intros n Hn; simpl in *; [lia|].
  destruct n as [|n]; [eauto|]. apply IH. lia.
Qed.

Lemma letter_one s r : 0 <= r < strlen s -> strlen (letter s r) = 1.
Proof.
  intros Hr. unfold letter, strlen in *.
  destruct (get_lt (Z.to_nat r) s) as [c ->]; [lia|done].
Qed.

Lemma color_one_letter state face p facelet :
  complete state ->
  face ∈ chars "ULFRBD" ->
  facelet_ok face p facelet = true ->
  strlen (if (p =? 4)%nat then face
          else color_by_name_length state face facelet) = 1.
Proof.
  intros Hc Hface Hok. unfold facelet_ok in Hok.
  destruct (p =? 4)%nat; [by eapply chars_one_letter|].
  rewrite !andb_true_iff, !Z.leb_le, !Z.ltb_lt in Hok.
  destruct Hok as (((Hlo & Hhi) & _) & _).
  destruct (complete_entries state Hc (getStateIndex facelet))
    as (v & o & piece & Hv & Hvr & Hpiece & Ho & _); [lia|].
  unfold color_by_name_length, color_with. rewrite Hpiece, Ho.
  assert (strlen piece = 2 \/ strlen piece = 3).
  { unfold occupant in Hpiece. rewrite Hv in Hpiece.
    eauto using CUBIE_ORDER_lengths. }
  destruct (strlen facelet =? 2); apply letter_one, Z.mod_pos_bound; lia.
Qed.

Lemma projected_one_letter state colors :
  complete state ->
  stateToFaceletColors state = Normal colors ->
  Forall (fun c => strlen c = 1) colors.
Proof.
  intros Hc (rows & -> & Hrows)%stateToFaceletColors_Normal.
  apply Forall_concat, Forall_lookup. intros f row Hrow.
  destruct (Forall2_lookup_r _ _ _ _ _ Hrows Hrow)
    as (face & Hface & fl & Hfl & Hfrow).
  apply list_elem_of_lookup_2 in Hface.
  destruct (face_checked face Hface) as (fl' & Hfl' & _ & Hok).
  rewrite Hfl in Hfl'. injection Hfl' as <-.
  apply Forall_lookup. intros p c Hp.
  destruct (Forall2_lookup_r _ _ _ _ _ Hfrow Hp) as (facelet & Hfacelet & Hcol).
  specialize (Hok p facelet Hfacelet).
  rewrite (facelet_color_complete state face p facelet Hc Hface Hok) in Hcol.
  injection Hcol as <-. by apply color_one_letter.
Qed.

Lemma toString_inj (l1 l2 : list string) :
  Forall (fun c => strlen c = 1) l1 ->
  Forall (fun c => strlen c = 1) l2 ->
  toString l1 = toString l2 -> l1 = l2.
Proof.
  assert (Hone : forall c, strlen c = 1 -> exists a, c = String a EmptyString).
  { intros [|a [|b c]]; unfold strlen; simpl; intros Hc; try lia. eauto. }
  intros H1. revert l2.
  induction H1 as [|x1 tl1 Hx1 Htl1 IH]; intros l2 H2 Heq;
    destruct H2 as [|x2 tl2 Hx2 Htl2].
  - done.
  - apply Hone in Hx2 as [a2 ->].
    destruct Htl2; simpl in Heq; discriminate.
  - apply Hone in Hx1 as [a1 ->].
    destruct Htl1; simpl in Heq; discriminate.
  - apply Hone in Hx1 as [a1 ->]. apply Hone in Hx2 as [a2 ->].
    destruct Htl1 as [|y1 tl1 Hy1 Htl1], Htl2 as [|y2 tl2 Hy2 Htl2];
      cbn in Heq.
    + congruence.
    + discriminate.
    + discriminate.
    + injection Heq as -> Heq. f_equal.
      apply IH; [by constructor|exact Heq].
Qed.

(** C2. For two complete role-correct states the projector returns on
    both, and the 54 colours agree position by position exactly when the
    two states are the same array; the comparison of the printed colours
    says the same, and so does the win flag of [check] whenever it gives
    feedback on the guess [a] against the answer [b]. *)
Theorem facelets_equal_iff_states_equal (a b : list Z) :
  role_correct a -> role_correct b ->
  exists ca cb,
    stateToFaceletColors a = Normal ca
    /\ stateToFaceletColors b = Normal cb
    /\ (ca = cb <-> a = b)
    /\ (String.eqb (toString ca) (toString cb) = true <-> a = b)
    /\ (forall verifyState guesses colors won guesses',
          check verifyState cb guesses (take 20 a) (drop 20 a)
          = Normal (Feedback colors won, guesses') ->
          won = true <-> a = b).
Proof.
  intros Ha Hb.
  pose proof (role_correct_complete a Ha) as Hac.
  pose proof (role_correct_complete b Hb) as Hbc.
  destruct (assigned_projects a) as [ca Hca].
  { intros slot Hslot.
    destruct (complete_entries a Hac slot Hslot) as (v & _ & _ & Hv & Hr & _).
    eauto. }
  destruct (assigned_projects b) as [cb Hcb].
  { intros slot Hslot.
    destruct (complete_entries b Hbc slot Hslot) as (v & _ & _ & Hv & Hr & _).
    eauto. }
  exists ca, cb. split; [done|]. split; [done|].
  assert (Hiff : ca = cb <-> a = b).
  { split.
    - intros <-. apply equal_slots_equal_states;
        [apply Ha|apply Hb|].
      by apply (equal_colors_equal_slots a b ca).
    - intros <-. congruence. }
  assert (Hprint : String.eqb (toString ca) (toString cb) = true <-> a = b).
  { rewrite <- Hiff, String.eqb_eq. split.
    - apply toString_inj.
      + exact (projected_one_letter a ca Hac Hca).
      + exact (projected_one_letter b cb Hbc Hcb).
    - by intros ->. }
  split; [done|]. split; [done|].
  intros verifyState guesses colors won guesses'. unfold check.
  rewrite take_drop, Hca. cbn [JS.bind].
  destruct (includes (take 20 a) (-1)); [done|].
  destruct (negb (verifyState a)); [done|].
  destruct (guesses >=? 6); [done|].
  intros [= <- <- <-]. exact Hprint.
Qed.

Lemma solved_state_role_correct : role_correct solved_state.
Proof.
  split; [reflexivity|]. split; [|split; [|apply (zeros_in_range 20)]].
  - refine (bool_decide_unpack (take 12 solved_state ≡ₚ seqZ 0 12) _).
    vm_compute. exact I.
  - refine (bool_decide_unpack
              (take 8 (drop 12 solved_state) ≡ₚ seqZ 12 8) _).
    vm_compute. exact I.
Qed.

Lemma swapped_state_role_correct : role_correct swapped_state.
Proof.
  split; [reflexivity|]. split; [|split; [|apply (zeros_in_range 20)]].
  - refine (bool_decide_unpack (take 12 swapped_state ≡ₚ seqZ 0 12) _).
    vm_compute. exact I.
  - refine (bool_decide_unpack
              (take 8 (drop 12 swapped_state) ≡ₚ seqZ 12 8) _).
    vm_compute. exact I.
Qed.

(** C2, witness: the solved cube and the cube with two edges exchanged. *)
Lemma facelets_equal_iff_states_equal_witness :
  exists ca cb,
    stateToFaceletColors solved_state = Normal ca
    /\ stateToFaceletColors swapped_state = Normal cb
    /\ (ca = cb <-> solved_state = swapped_state)
    /\ (String.eqb (toString ca) (toString cb) = true
        <-> solved_state = swapped_state)
    /\ (forall verifyState guesses colors won guesses',
          check verifyState cb guesses (take 20 solved_state)
            (drop 20 solved_state)
          = Normal (Feedback colors won, guesses') ->
          won = true <-> solved_state = swapped_state).
Proof.
  apply (facelets_equal_iff_states_equal solved_state swapped_state).
  - exact solved_state_role_correct.
  - exact swapped_state_role_correct.
Defined.
End ProjectorFacts.

(** ** The guess check *)

Module CheckFacts.
Import Cube3D Main Described.

Lemma includes_true l x : includes l x = true <-> x ∈ l.
Proof. unfold includes. apply bool_decide_eq_true. Qed.




End CheckFacts.

(** ** Seeded generation *)

Module GenerateFacts.
Import Cube3D Main Described Generate Draws FisherYates.

(** *** The shuffle rearranges *)

Lemma insert_head_Permutation (l : list Z) (k : nat) (a b : Z) :
  l !! k = Some b -> b :: <[k := a]> l ≡ₚ a :: l.
Proof.
  revert k. induction l as [|x l IH]; intros [|k] Hk; simplify_eq/=.
  - apply Permutation_swap.
  - rewrite Permutation_swap, (IH k Hk). apply Permutation_swap.
Qed.

Lemma exchange_Permutation (l : list Z) (i j : nat) (a b : Z) :
  l !! i = Some a -> l !! j = Some b ->
  <[j := a]> (<[i := b]> l) ≡ₚ l.
Proof.
  revert i j. induction l as [|x l IH]; intros [|i] [|j] Hi Hj;
    simplify_eq/=.
  - done.
  - by apply insert_head_Permutation.
  - by apply insert_head_Permutation.
  - by rewrite (IH i j).
Qed.

Lemma swap_Permutation (array : list Z) (i j : Z) : swap array i j ≡ₚ array.
Proof.
  unfold swap, js_get, js_set.
  destruct (decide (0 <= i)) as [Hi|]; [|done].
  destruct (array !! Z.to_nat i) as [temp|] eqn:Hti; [|done].
  destruct (decide (0 <= j)) as [Hj|]; [|done].
  destruct (array !! Z.to_nat j) as [aj|] eqn:Htj; [|done].
  by apply exchange_Permutation.
Qed.

Lemma swap_nat (array : list Z) (i j : nat) (ai aj : Z) :
  array !! i = Some ai -> array !! j = Some aj ->
  swap array (Z.of_nat i) (Z.of_nat j) = <[j := ai]> (<[i := aj]> array).
Proof.
  intros Hi Hj. unfold swap, js_get, js_set.
  rewrite !decide_True by lia. rewrite !Nat2Z.id, Hi, Hj.
  by rewrite !decide_True by lia.
Qed.

Section WithGenerator.
Context `{SR : SeedRandom}.

Lemma shuffle_loop_Permutation n array rng :
  fst (shuffle_loop n array rng) ≡ₚ array.
Proof.
  revert array rng. induction n as [|n IH]; intros array rng; [done|].
  cbn [shuffle_loop]. destruct (rng_call rng) as [x rng'].
  rewrite IH. apply swap_Permutation.
Qed.

Lemma shuffle_Permutation array rng : fst (shuffle array rng) ≡ₚ array.
Proof. apply shuffle_loop_Permutation. Qed.

(** *** The shuffle is the Fisher-Yates shuffle of its draws *)

Lemma shuffle_loop_draws n array rng :
  snd (shuffle_loop n array rng) = Nat.iter n next rng.
Proof.
  revert array rng. induction n as [|n IH]; intros array rng; [done|].
  cbn [shuffle_loop]. destruct (rng_call rng) as [x rng'] eqn:Hcall.
  assert (Hnext : next rng = rng') by (unfold next; by rewrite Hcall).
  by rewrite IH, Nat.iter_succ_r, Hnext.
Qed.

Lemma draw_shift from k rng :
  draw (from + k) rng = draw k (Nat.iter from next rng).
Proof.
  unfold draw. by rewrite (Nat.add_comm from k), Nat.iter_add.
Qed.

Lemma choices_shift len from rng :
  choices len from rng = choices len 0 (Nat.iter from next rng).
Proof.
  unfold choices. apply list_fmap_ext. intros _ k _.
  by rewrite draw_shift.
Qed.

Lemma orientations_shift count from k rng :
  orientations count from k rng
  = orientations count 0 k (Nat.iter from next rng).
Proof.
  unfold orientations. apply list_fmap_ext. intros _ n _.
  by rewrite draw_shift.
Qed.

Lemma choices_S len rng :
  choices (S (S len)) 0 rng
  = Z.to_nat (floor_times (fst (rng_call rng)) (Z.of_nat (S (S len))))
    :: choices (S len) 0 (next rng).
Proof.
  change (next rng) with (Nat.iter 1 next rng).
  rewrite <- (choices_shift (S len) 1 rng). unfold choices.
  cbn [Nat.sub]. rewrite Nat.sub_0_r. cbn [seq fmap list_fmap].
  f_equal. rewrite <- fmap_S_seq, <- list_fmap_compose.
  apply list_fmap_ext. intros _ k _. cbn. done.
Qed.

Lemma orientations_S count k rng :
  orientations (S count) 0 k rng
  = floor_times (fst (rng_call rng)) k :: orientations count 0 k (next rng).
Proof.
  change (next rng) with (Nat.iter 1 next rng).
  rewrite <- (orientations_shift count 1 k rng). unfold orientations.
  cbn [seq fmap list_fmap]. f_equal.
  rewrite <- fmap_S_seq, <- list_fmap_compose.
  apply list_fmap_ext. intros _ n _. cbn. done.
Qed.

Lemma choices_in_range len from rng k j :
  floor_times_in_range ->
  Z.of_nat len < 2 ^ 53 ->
  choices len from rng !! k = Some j -> (j + k < len)%nat.
Proof.
  intros Hft Hlen. unfold choices. rewrite list_lookup_fmap.
  intros Hk. apply fmap_Some in Hk as (k' & Hk' & ->).
  apply lookup_seq in Hk' as [-> Hlt]. cbn [Nat.add] in *.
  pose proof (Hft (draw (from + k) rng) (Z.of_nat (len - k))) as Hj.
  lia.
Qed.

(** The loop with [n] steps left leaves what lies after entry [n]
    alone. *)
Lemma shuffle_loop_app n l tail rng :
  floor_times_in_range ->
  (n < length l)%nat -> Z.of_nat n + 1 < 2 ^ 53 ->
  fst (shuffle_loop n (l ++ tail) rng) = fst (shuffle_loop n l rng) ++ tail.
Proof.
  intros Hft. revert l rng. induction n as [|n IH]; intros l rng Hn Hb;
    [done|].
  cbn [shuffle_loop]. destruct (rng_call rng) as [x rng'].
  pose proof (Hft x (Z.of_nat (S n) + 1)) as Hj.
  set (j := floor_times x (Z.of_nat (S n) + 1)) in *.
  destruct (lookup_lt_is_Some_2 l (S n)) as [a Ha]; [lia|].
  destruct (lookup_lt_is_Some_2 l (Z.to_nat j)) as [b Hb']; [lia|].
  replace j with (Z.of_nat (Z.to_nat j)) by lia.
  rewrite (swap_nat l (S n) (Z.to_nat j) a b Ha Hb').
  rewrite (swap_nat (l ++ tail) (S n) (Z.to_nat j) a b)
    by (rewrite lookup_app_l by lia; done).
  rewrite insert_app_l by lia.
  rewrite insert_app_l by (rewrite length_insert; lia).
  apply IH; [rewrite !length_insert|]; lia.
Qed.

Lemma insert_last (m : list Z) (k : nat) (b : Z) :
  length m = S k -> <[k := b]> m = take k m ++ [b].
Proof.
  intros Hlen. rewrite insert_take_drop by lia.
  by rewrite drop_ge by lia.
Qed.

Lemma shuffle_loop_fisher_yates n array rng :
  floor_times_in_range ->
  length array = S n -> Z.of_nat (S n) < 2 ^ 53 ->
  fst (shuffle_loop n array rng) = fisher_yates (choices (S n) 0 rng) array.
Proof.
  intros Hft. revert array rng.
  induction n as [|n IH]; intros array rng Hlen Hb; [done|].
  rewrite choices_S. cbn [shuffle_loop fisher_yates]. unfold next.
  destruct (rng_call rng) as [x rng']. cbn [fst snd].
  replace (Z.of_nat (S n) + 1) with (Z.of_nat (S (S n))) by lia.
  pose proof (Hft x (Z.of_nat (S (S n)))) as Hj.
  set (j := floor_times x (Z.of_nat (S (S n)))) in *.
  destruct (lookup_lt_is_Some_2 array (S n)) as [a Ha]; [lia|].
  destruct (lookup_lt_is_Some_2 array (Z.to_nat j)) as [b Hb']; [lia|].
  rewrite last_lookup, Hlen. cbn [Nat.pred]. rewrite Ha, Hb'.
  replace j with (Z.of_nat (Z.to_nat j)) at 1 by lia.
  rewrite (swap_nat array (S n) (Z.to_nat j) a b Ha Hb').
  assert (Hswap : <[Z.to_nat j := a]> (<[S n := b]> array)
                  = take (S n) (<[Z.to_nat j := a]> array) ++ [b]).
  { destruct (decide (Z.to_nat j = S n)) as [Heq|Hne].
    - rewrite Heq in *. assert (b = a) as -> by congruence.
      rewrite list_insert_insert_eq, take_insert_ge by lia.
      by apply insert_last.
    - rewrite list_insert_insert_ne by done.
      apply insert_last. by rewrite length_insert. }
  rewrite Hswap. cbn [Nat.sub].
  rewrite shuffle_loop_app; [|done|rewrite length_take, length_insert; lia
                             |lia].
  f_equal. apply IH; [|lia].
  rewrite length_take, length_insert. lia.
Qed.

Lemma shuffle_fisher_yates array rng :
  floor_times_in_range ->
  Z.of_nat (length array) < 2 ^ 53 ->
  shuffle array rng
  = (fisher_yates (choices (length array) 0 rng) array,
     Nat.iter (length array - 1) next rng).
Proof.
  intros Hft Hb. unfold shuffle.
  rewrite (surjective_pairing (shuffle_loop _ _ _)), shuffle_loop_draws.
  f_equal. destruct array as [|a array]; [done|].
  cbn [length Nat.sub] in *. rewrite Nat.sub_0_r.
  by apply shuffle_loop_fisher_yates.
Qed.

Lemma push_orientations_draws count k orientation rng :
  snd (push_orientations count k orientation rng) = Nat.iter count next rng.
Proof.
  revert orientation rng.
  induction count as [|count IH]; intros orientation rng; [done|].
  cbn [push_orientations]. destruct (rng_call rng) as [x rng'] eqn:Hcall.
  assert (Hnext : next rng = rng') by (unfold next; by rewrite Hcall).
  by rewrite IH, Nat.iter_succ_r, Hnext.
Qed.

Lemma push_orientations_drawn count k orientation rng :
  fst (push_orientations count k orientation rng)
  = orientation ++ orientations count 0 k rng.
Proof.
  revert orientation rng.
  induction count as [|count IH]; intros orientation rng.
  - cbn. by rewrite app_nil_r.
  - rewrite orientations_S. cbn [push_orientations]. unfold next.
    destruct (rng_call rng) as [x rng']. cbn [fst snd].
    by rewrite IH, <- app_assoc.
Qed.

(** *** The orientations are draws below [k] *)

Lemma push_orientations_spec count k orientation rng :
  exists drawn,
    fst (push_orientations count k orientation rng) = orientation ++ drawn
    /\ length drawn = count
    /\ (floor_times_in_range -> 0 < k < 2 ^ 53 ->
        Forall (fun v => 0 <= v < k) drawn).
Proof.
  revert orientation rng.
  induction count as [|count IH]; intros orientation rng.
  - exists []. cbn. rewrite app_nil_r. auto.
  - cbn [push_orientations]. destruct (rng_call rng) as [x rng'].
    destruct (IH (orientation ++ [floor_times x k]) rng')
      as (drawn & Heq & Hlen & Hrange).
    exists (floor_times x k :: drawn). split; [|split].
    + by rewrite Heq, <- app_assoc.
    + cbn. by rewrite Hlen.
    + intros Hft Hk. constructor; [by apply Hft|by apply Hrange].
Qed.

(** *** One pass of the loop *)

(** The candidate of a pass, piece by piece. *)
Lemma candidate_parts rng :
  exists edgePermutation cornerPermutation edges corners,
    fst (candidate rng)
    = (edgePermutation ++ cornerPermutation) ++ (edges ++ corners)
    /\ edgePermutation
       = fst (shuffle [0; 1; 2; 3; 4; 5; 6; 7; 8; 9; 10; 11] rng)
    /\ cornerPermutation
       = fst (shuffle [12; 13; 14; 15; 16; 17; 18; 19]
                (snd (shuffle [0; 1; 2; 3; 4; 5; 6; 7; 8; 9; 10; 11] rng)))
    /\ length edges = 12%nat /\ length corners = 8%nat
    /\ (floor_times_in_range ->
        Forall (fun v => 0 <= v < 2) edges
        /\ Forall (fun v => 0 <= v < 3) corners).
Proof.
  unfold candidate.
  destruct (shuffle [0; 1; 2; 3; 4; 5; 6; 7; 8; 9; 10; 11] rng)
    as [edgePermutation rng1].
  cbn [fst snd].
  destruct (shuffle [12; 13; 14; 15; 16; 17; 18; 19] rng1)
    as [cornerPermutation rng2].
  destruct (push_orientations_spec 12 2 [] rng2) as (edges & He & Hle & Hre).
  destruct (push_orientations 12 2 [] rng2) as [orientation12 rng3].
  destruct (push_orientations_spec 8 3 orientation12 rng3)
    as (corners & Hc & Hlc & Hrc).
  destruct (push_orientations 8 3 orientation12 rng3) as [orientation rng4].
  cbn [fst snd] in *. subst orientation12 orientation.
  exists edgePermutation, cornerPermutation, edges, corners.
  repeat split; try done.
  - apply Hre; [done|lia].
  - apply Hrc; [done|lia].
Qed.

(** The candidate of a pass, draw by draw. *)
Lemma candidate_drawn rng :
  floor_times_in_range ->
  candidate rng
  = ((fisher_yates (choices 12 0 rng) [0; 1; 2; 3; 4; 5; 6; 7; 8; 9; 10; 11]
      ++ fisher_yates (choices 8 11 rng) [12; 13; 14; 15; 16; 17; 18; 19])
     ++ (orientations 12 18 2 rng ++ orientations 8 30 3 rng),
     Nat.iter 38 next rng).
Proof.
  intros Hft. unfold candidate.
  rewrite !shuffle_fisher_yates by (done || (cbn [length]; lia)).
  cbn [length Nat.sub].
  rewrite (surjective_pairing (push_orientations 12 _ _ _)).
  rewrite (surjective_pairing (push_orientations 8 _ _ _)).
  rewrite !push_orientations_drawn, !push_orientations_draws.
  rewrite <- !Nat.iter_add. cbn [Nat.add app].
  by rewrite (choices_shift 8 11), (orientations_shift 12 18),
    (orientations_shift 8 30).
Qed.

Lemma candidate_role_correct rng :
  floor_times_in_range -> role_correct (fst (candidate rng)).
Proof.
  intros Hft.
  destruct (candidate_parts rng)
    as (eP & cP & edges & corners & -> & HeP & HcP & Hle & Hlc & Hrange).
  destruct (Hrange Hft) as [Hre Hrc].
  assert (HeP' : eP ≡ₚ seqZ 0 12) by (subst eP; apply shuffle_Permutation).
  assert (HcP' : cP ≡ₚ seqZ 12 8) by (subst cP; apply shuffle_Permutation).
  assert (HleP : length eP = 12%nat) by by rewrite HeP'.
  assert (HlcP : length cP = 8%nat) by by rewrite HcP'.
  split; [|split; [|split]].
  - rewrite !length_app. lia.
  - rewrite <- !app_assoc. by rewrite take_app_length'.
  - rewrite <- !app_assoc. rewrite drop_app_length' by done.
    by rewrite take_app_length'.
  - rewrite drop_app_length' by (rewrite length_app; lia).
    intros i v Hv. destruct (Nat.ltb_spec i 12) as [Hi|Hi].
    + rewrite lookup_app_l in Hv by lia.
      rewrite Forall_lookup in Hre. specialize (Hre i v Hv). lia.
    + rewrite lookup_app_r in Hv by lia.
      rewrite Forall_lookup in Hrc. specialize (Hrc _ v Hv). lia.
Qed.

(** *** The loop *)

Section Loop.
Variable verifyState : list Z -> bool.

(** What the loop returns is the candidate of one of its passes, the first
    that verifies. *)
Lemma generate_loop_Some fuel rng state :
  generate_loop verifyState fuel rng = Some state ->
  exists k,
    (k < fuel)%nat
    /\ state = fst (nth_candidate k rng)
    /\ verifyState state = true
    /\ forall k', (k' < k)%nat ->
         verifyState (fst (nth_candidate k' rng)) = false.
Proof.
  revert rng. induction fuel as [|fuel IH]; intros rng; [done|].
  cbn [generate_loop].
  destruct (candidate rng) as [st rng'] eqn:Hcand.
  destruct (verifyState st) eqn:Hv.
  - intros [= <-]. exists 0%nat. cbn [nth_candidate]. rewrite Hcand.
    repeat split; [lia|done|lia].
  - intros (k & Hk & -> & Hvk & Hbefore)%IH. exists (S k).
    cbn [nth_candidate]. rewrite Hcand. cbn [snd].
    repeat split; [lia|done|].
    intros [|k'] Hk'; cbn [nth_candidate]; rewrite Hcand; cbn [fst snd];
      [done|apply Hbefore; lia].
Qed.

(** With fuel for one pass more than the first that verifies, the loop
    returns. *)
Lemma generate_loop_returns k rng :
  verifyState (fst (nth_candidate k rng)) = true ->
  exists state, generate_loop verifyState (S k) rng = Some state.
Proof.
  revert rng. induction k as [|k IH]; intros rng Hv;
    cbn [nth_candidate] in Hv; cbn [generate_loop];
    destruct (candidate rng) as [st rng'] eqn:Hcand; cbn [fst snd] in Hv.
  - rewrite Hv. eauto.
  - destruct (verifyState st); [eauto|]. by apply IH.
Qed.

Lemma nth_candidate_role_correct k rng :
  floor_times_in_range -> role_correct (fst (nth_candidate k rng)).
Proof.
  intros Hft. revert rng. induction k as [|k IH]; intros rng;
    cbn [nth_candidate]; [by apply candidate_role_correct|apply IH].
Qed.

(** C5. The shuffle returns a rearrangement of its input, and it is the
    Fisher-Yates shuffle of its draws: its step for place i uses one call
    of the generator, which chooses among the entries 0 .. i, and it leaves
    the generator advanced once for each step.  Every pass of the loop
    builds its candidate from 38 calls of the generator: the shuffle of
    0 .. 11 in the edge slots is made from calls 0 .. 10, the shuffle of
    12 .. 19 in the corner slots from calls 11 .. 17, on the generator the
    first shuffle left, the edge orientations are calls 18 .. 29 floored
    into {0, 1} and the corner orientations calls 30 .. 37 floored into
    {0, 1, 2}.  So the state the loop returns is role-correct, it is the
    candidate of the first pass that verifies, and the loop returns as
    soon as a pass verifies. *)
Theorem generated_state_role_correct :
  floor_times_in_range ->
  (forall array rng, fst (shuffle array rng) ≡ₚ array)
  /\ (forall array rng,
        Z.of_nat (length array) < 2 ^ 53 ->
        shuffle array rng
        = (fisher_yates (choices (length array) 0 rng) array,
           Nat.iter (length array - 1) next rng)
        /\ forall k j,
             choices (length array) 0 rng !! k = Some j ->
             (j + k < length array)%nat)
  /\ (forall rng,
        take 12 (fst (candidate rng))
        = fst (shuffle [0; 1; 2; 3; 4; 5; 6; 7; 8; 9; 10; 11] rng)
        /\ take 8 (drop 12 (fst (candidate rng)))
           = fst (shuffle [12; 13; 14; 15; 16; 17; 18; 19]
                    (snd (shuffle [0; 1; 2; 3; 4; 5; 6; 7; 8; 9; 10; 11]
                            rng)))
        /\ role_correct (fst (candidate rng))
        /\ snd (shuffle [0; 1; 2; 3; 4; 5; 6; 7; 8; 9; 10; 11] rng)
           = Nat.iter 11 next rng
        /\ candidate rng
           = ((fisher_yates (choices 12 0 rng)
                 [0; 1; 2; 3; 4; 5; 6; 7; 8; 9; 10; 11]
               ++ fisher_yates (choices 8 11 rng)
                    [12; 13; 14; 15; 16; 17; 18; 19])
              ++ (orientations 12 18 2 rng ++ orientations 8 30 3 rng),
              Nat.iter 38 next rng))
  /\ (forall fuel rng state,
        generate_loop verifyState fuel rng = Some state ->
        role_correct state /\ verifyState state = true
        /\ exists k,
             (k < fuel)%nat
             /\ state = fst (nth_candidate k rng)
             /\ forall k', (k' < k)%nat ->
                  verifyState (fst (nth_candidate k' rng)) = false)
  /\ (forall k rng,
        verifyState (fst (nth_candidate k rng)) = true ->
        exists state, generate_loop verifyState (S k) rng = Some state).
Proof.
  intros Hft. split; [|split; [|split; [|split]]].
  - apply shuffle_Permutation.
  - intros array rng Hlen. split; [by apply shuffle_fisher_yates|].
    intros k j. by apply choices_in_range.
  - intros rng. split; [|split; [|split; [|split]]].
    + destruct (candidate_parts rng)
        as (eP & cP & edges & corners & -> & HeP & _).
      rewrite <- HeP, <- !app_assoc. apply take_app_length'.
      subst eP. by rewrite shuffle_Permutation.
    + destruct (candidate_parts rng)
        as (eP & cP & edges & corners & -> & HeP & HcP & _).
      rewrite <- HcP, <- !app_assoc.
      rewrite drop_app_length'
        by (subst eP; by rewrite shuffle_Permutation).
      apply take_app_length'. subst cP. by rewrite shuffle_Permutation.
    + by apply candidate_role_correct.
    + apply shuffle_loop_draws.
    + by apply candidate_drawn.
  - intros fuel rng state Hloop.
    pose proof Hloop as (k & Hk & -> & Hv & Hbefore)%generate_loop_Some.
    split; [by apply nth_candidate_role_correct|]. split; [done|].
    by exists k.
  - apply generate_loop_returns.
Qed.

(** The loop does not depend on how much fuel is left over. *)
Lemma generate_loop_fuel fuel1 fuel2 rng s1 s2 :
  generate_loop verifyState fuel1 rng = Some s1 ->
  generate_loop verifyState fuel2 rng = Some s2 ->
  s1 = s2.
Proof.
  intros (k1 & _ & -> & Hv1 & Hb1)%generate_loop_Some
         (k2 & _ & -> & Hv2 & Hb2)%generate_loop_Some.
  destruct (Nat.lt_trichotomy k1 k2) as [Hlt|[->|Hlt]]; [|done|].
  - specialize (Hb2 k1 Hlt). congruence.
  - specialize (Hb1 k2 Hlt). congruence.
Qed.

Lemma candidate_lengths rng :
  length (take 20 (fst (candidate rng))) = 20%nat
  /\ length (drop 20 (fst (candidate rng))) = 20%nat.
Proof.
  destruct (candidate_parts rng)
    as (eP & cP & edges & corners & -> & HeP & HcP & Hle & Hlc & _).
  assert (length eP = 12%nat) by (subst eP; by rewrite shuffle_Permutation).
  assert (length cP = 8%nat) by (subst cP; by rewrite shuffle_Permutation).
  rewrite length_take, length_drop, !length_app. lia.
Qed.

(** C4. Generation is a function of the seed: two runs whose surroundings
    (mode, date, clock) give [seedrandom] the same seed string return the
    same twenty permutation entries and the same twenty orientation
    entries, however long each run was allowed to go on. *)
Theorem generateCubeState_deterministic env1 env2 fuel1 fuel2 s1 s2 :
  seed_of env1 = seed_of env2 ->
  generateCubeState verifyState fuel1 env1 = Some s1 ->
  generateCubeState verifyState fuel2 env2 = Some s2 ->
  take 20 s1 = take 20 s2 /\ drop 20 s1 = drop 20 s2
  /\ length (take 20 s1) = 20%nat /\ length (drop 20 s1) = 20%nat.
Proof.
  unfold generateCubeState. intros -> H1 H2.
  assert (s1 = s2) as <- by (eapply generate_loop_fuel; eauto).
  apply generate_loop_Some in H1 as (k & _ & -> & _).
  split; [done|]. split; [done|].
  clear. revert k. generalize (seedrandom (seed_of env2)).
  intros rng k. revert rng.
  induction k as [|k IH]; intros rng; cbn [nth_candidate];
    [apply candidate_lengths|apply IH].
Qed.

End Loop.
End WithGenerator.

(** *** The test generator *)

Import TestRandom.

Lemma clamp_range q : (0 <= clamp q)%Q /\ (clamp q < 1)%Q.
Proof.
  unfold clamp.
  destruct (Qle_bool 0 q) eqn:H0; cbn [andb]; [|split; [apply Qle_refl|done]].
  destruct (Qle_bool 1 q) eqn:H1; cbn [negb]; [split; [apply Qle_refl|done]|].
  split; [by apply Qle_bool_iff|].
  apply Qnot_le_lt. intros Hle%Qle_bool_iff. congruence.
Qed.

Lemma lcg_floor_in_range : floor_times_in_range (H := lcg_random).
Proof.
  intros x n [Hn _]. cbn [floor_times lcg_random].
  destruct (clamp_range x) as [H0 H1].
  assert (Hn' : (0 < inject_Z n)%Q) by (unfold Qlt; simpl; lia).
  split.
  - change 0 with (Qfloor 0). apply Qfloor_resp_le.
    by apply Qmult_le_0_compat; [|apply Qlt_le_weak].
  - rewrite Zlt_Qlt.
    apply Qle_lt_trans with (clamp x * inject_Z n)%Q; [apply Qfloor_le|].
    rewrite <- (Qmult_1_l (inject_Z n)) at 2.
    by apply Qmult_lt_compat_r.
Qed.

(** C5, witness: the test generator and the parity check of the solver;
    the loop returns a state, that state is role-correct, and the first
    edge shuffle of the day is the Fisher-Yates shuffle of the first
    eleven draws, which are not spent on nothing: the numbers have
    moved. *)
Lemma generated_state_role_correct_witness :
  (exists state,
     generate_loop Solver.verifyState 20 (seedrandom "Mon Nov 02 2026")
     = Some state
     /\ role_correct state /\ Solver.verifyState state = true)
  /\ shuffle [0; 1; 2; 3; 4; 5; 6; 7; 8; 9; 10; 11]
       (seedrandom "Mon Nov 02 2026")
     = (fisher_yates (choices 12 0 (seedrandom "Mon Nov 02 2026"))
          [0; 1; 2; 3; 4; 5; 6; 7; 8; 9; 10; 11],
        Nat.iter 11 next (seedrandom "Mon Nov 02 2026"))
  /\ fst (shuffle [0; 1; 2; 3; 4; 5; 6; 7; 8; 9; 10; 11]
            (seedrandom "Mon Nov 02 2026"))
     <> [0; 1; 2; 3; 4; 5; 6; 7; 8; 9; 10; 11]
  /\ snd (shuffle [0; 1; 2; 3; 4; 5; 6; 7; 8; 9; 10; 11]
            (seedrandom "Mon Nov 02 2026"))
     <> seedrandom "Mon Nov 02 2026".
Proof.
  destruct (generated_state_role_correct (SR := lcg_random)
              Solver.verifyState lcg_floor_in_range)
    as (_ & Hshuffle & _ & Hloop & _).
  split; [|split; [|split]].
  - eexists. split; [vm_compute; reflexivity|].
    destruct (Hloop 20%nat (seedrandom "Mon Nov 02 2026") _
                ltac:(vm_compute; reflexivity)) as (Hrole & Hv & _).
    by split.
  - apply (Hshuffle [0; 1; 2; 3; 4; 5; 6; 7; 8; 9; 10; 11]
             (seedrandom "Mon Nov 02 2026")).
    vm_compute. reflexivity.
  - vm_compute. discriminate.
  - vm_compute. discriminate.
Defined.

(** C4, witness: the same day seen in the morning with fuel for sixteen
    passes (the sixteenth is the first to verify) and in the evening with
    fuel for forty. *)
Lemma generateCubeState_deterministic_witness :
  exists s1 s2,
    generateCubeState Solver.verifyState 16 morning = Some s1
    /\ generateCubeState Solver.verifyState 40 evening = Some s2
    /\ take 20 s1 = take 20 s2 /\ drop 20 s1 = drop 20 s2
    /\ length (take 20 s1) = 20%nat /\ length (drop 20 s1) = 20%nat.
Proof.
  eexists. eexists.
  split; [vm_compute; reflexivity|]. split; [vm_compute; reflexivity|].
  apply (generateCubeState_deterministic (SR := lcg_random)
           Solver.verifyState morning evening 16 40).
  - reflexivity.
  - vm_compute. reflexivity.
  - vm_compute. reflexivity.
Defined.

End GenerateFacts.

(** ** The picker *)

Module PickerFacts.
Import Cube3D Scene.

Lemma array_indexOf_from_lookup arr x k i :
  array_indexOf_from arr x k = i -> 0 <= k -> 0 <= i ->
  k <= i /\ arr !! Z.to_nat (i - k) = Some x.
Proof.
  revert k. induction arr as [|y arr IH]; intros k Hi Hk Hi0;
    cbn [array_indexOf_from] in Hi; [lia|].
  case_decide.
  - subst. split; [lia|]. by rewrite Z.sub_diag.
  - destruct (IH (k + 1)) as [Hle Hlook]; [done|lia|lia|].
    split; [lia|].
    replace (Z.to_nat (i - k)) with (S (Z.to_nat (i - (k + 1)))) by lia.
    done.
Qed.

(** A name that has a state index is the name at that index of the order:
    two letters at an edge index, three at a corner index. *)
Lemma getStateIndex_kind n :
  0 <= getStateIndex n ->
  getStateIndex n < 20
  /\ strlen n = (if getStateIndex n <? 12 then 2 else 3).
Proof.
  intros Hi. unfold getStateIndex, array_indexOf in *.
  destruct (array_indexOf_from_lookup CUBIE_ORDER n 0 _ eq_refl)
    as [_ Hlook]; [lia|lia|].
  rewrite Z.sub_0_r in Hlook. set (i := array_indexOf_from CUBIE_ORDER n 0) in *.
  assert (Hall : forallb
                   (fun kn => strlen (snd kn)
                              =? (if Z.of_nat (fst kn) <? 12 then 2 else 3))
                   (imap (fun k n => (k, n)) CUBIE_ORDER) = true)
    by reflexivity.
  rewrite forallb_forall in Hall.
  assert (Hin : In (Z.to_nat i, n) (imap (fun k n => (k, n)) CUBIE_ORDER)).
  { apply list_elem_of_In, elem_of_lookup_imap. eauto. }
  apply Hall in Hin. cbn [fst snd] in Hin. apply Z.eqb_eq in Hin.
  rewrite Z2Nat.id in Hin by lia. split; [|done].
  apply lookup_lt_Some in Hlook.
  change (length CUBIE_ORDER) with 20%nat in Hlook. clearbody i. lia.
Qed.

Lemma js_set_in_range (o : list Z) (i v : Z) :
  orientation_in_range o ->
  (0 <= i -> 0 <= v /\ (if i <? 12 then v <= 1 else v <= 2)) ->
  orientation_in_range (js_set o i v).
Proof.
  intros Ho Hv k w. unfold js_set. case_decide as Hi; [|apply Ho].
  destruct (decide (k = Z.to_nat i)) as [->|Hne].
  - intros Hw. apply list_lookup_insert_Some in Hw as [(_ & <- & _)|[? _]];
      [|done].
    specialize (Hv Hi).
    replace (Z.to_nat i <? 12)%nat with (i <? 12); [done|].
    destruct (Z.ltb_spec i 12), (Nat.ltb_spec (Z.to_nat i) 12); lia.
  - rewrite list_lookup_insert_ne by done. apply Ho.
Qed.

Section WithThree.
Context `{T : Three}.

(** [initPicker] moves the highlight and rebuilds the controls; the two
    arrays stay. *)
Lemma initPicker_arrays c cubie keepSelection :
  permutation (fst (initPicker c cubie keepSelection)) = permutation c
  /\ orientation (fst (initPicker c cubie keepSelection)) = orientation c.
Proof.
  unfold initPicker.
  destruct (isCenterName (name cubie)); [done|].
  destruct (negb keepSelection
            && equals (position cubie) (mesh_position (selection c)));
    [done|].
  by destruct (correct c (getStateIndex (name cubie))) as [[|]|e].
Qed.

Lemma navigateWASD_arrays c direction :
  permutation (fst (navigateWASD c direction)) = permutation c
  /\ orientation (fst (navigateWASD c direction)) = orientation c.
Proof.
  unfold navigateWASD.
  repeat match goal with
         | |- context [match ?x with _ => _ end] =>
             lazymatch x with
             | initPicker _ _ _ => fail
             | _ => destruct x; try done
             end
         end.
  apply initPicker_arrays.
Qed.

Lemma button_onclick_orientation cubie piece c :
  orientation (fst (button_onclick cubie piece c))
  = js_set (orientation c) (getStateIndex (name cubie)) 0.
Proof.
  unfold button_onclick.
  by rewrite (proj2 (initPicker_arrays _ _ _)).
Qed.

Lemma erase_onclick_orientation cubie c :
  orientation (fst (erase_onclick cubie c)) = orientation c.
Proof.
  unfold erase_onclick.
  by rewrite (proj2 (initPicker_arrays _ _ _)).
Qed.

Lemma rotate_onclick_orientation cubie c o :
  js_get (orientation c) (getStateIndex (name cubie)) = Some o ->
  orientation (fst (rotate_onclick cubie c))
  = js_set (orientation c) (getStateIndex (name cubie))
      (if o - 1 <? 0 then strlen (name cubie) - 1 else o - 1).
Proof. intros Ho. unfold rotate_onclick. by rewrite Ho. Qed.

Lemma rotate_onclick_in_range cubie c :
  orientation_in_range (orientation c) ->
  orientation_in_range (orientation (fst (rotate_onclick cubie c))).
Proof.
  intros Hc. unfold rotate_onclick.
  destruct (js_get (orientation c) (getStateIndex (name cubie)))
    as [o|] eqn:Ho; [|done].
  cbn [fst orientation with_arrays]. apply js_set_in_range; [done|].
  intros Hi. destruct (getStateIndex_kind _ Hi) as [_ Hkind].
  unfold js_get in Ho. rewrite decide_True in Ho by done.
  apply Hc in Ho.
  replace (Z.to_nat (getStateIndex (name cubie)) <? 12)%nat
    with (getStateIndex (name cubie) <? 12) in Ho.
  2:{ destruct (Z.ltb_spec (getStateIndex (name cubie)) 12),
        (Nat.ltb_spec (Z.to_nat (getStateIndex (name cubie))) 12); lia. }
  rewrite Hkind.
  destruct (getStateIndex (name cubie) <? 12), (Z.ltb_spec (o - 1) 0); lia.
Qed.

Lemma run_event_in_range c e :
  orientation_in_range (orientation c) ->
  orientation_in_range (orientation (fst (run_event c e))).
Proof.
  intros Hc. destruct e as [cubie|k| | |direction|p o]; cbn [run_event].
  - by rewrite (proj2 (initPicker_arrays _ _ _)).
  - destruct (picker (controls c) !! k) as [[piece [|]]|]; [done| |done].
    destruct (handlers_for (controls c)) as [cubie|]; [|done].
    rewrite button_onclick_orientation.
    apply js_set_in_range; [done|]. intros _.
    by destruct (getStateIndex (name cubie) <? 12).
  - destruct (erase_disabled (controls c)); [done|].
    destruct (handlers_for (controls c)) as [cubie|]; [|done].
    by rewrite erase_onclick_orientation.
  - destruct (rotate_disabled (controls c)); [done|].
    destruct (handlers_for (controls c)) as [cubie|]; [|done].
    by apply rotate_onclick_in_range.
  - by rewrite (proj2 (navigateWASD_arrays _ _)).
  - done.
Qed.

Lemma run_events_in_range c es :
  orientation_in_range (orientation c) ->
  orientation_in_range (orientation (run_events c es)).
Proof.
  unfold run_events. revert c.
  induction es as [|e es IH]; intros c Hc; [done|].
  cbn [foldl]. apply IH. by apply run_event_in_range.
Qed.

(** C7. Assigning a piece sets the orientation of the slot to 0, rotating
    decrements it and wraps a negative value to the length of the cubie's
    name minus 1, erasing leaves the orientations alone; so from the
    all-zero array, after any sequence of clicks and keys, every edge slot
    has orientation 0 or 1 and every corner slot 0, 1 or 2. *)
Theorem picker_keeps_orientation_in_range (c : cube) (es : list event) :
  orientation c = replicate 20 0 ->
  (forall c' cubie piece,
     orientation (fst (button_onclick cubie piece c'))
     = js_set (orientation c') (getStateIndex (name cubie)) 0)
  /\ (forall c' cubie o,
        js_get (orientation c') (getStateIndex (name cubie)) = Some o ->
        orientation (fst (rotate_onclick cubie c'))
        = js_set (orientation c') (getStateIndex (name cubie))
            (if o - 1 <? 0 then strlen (name cubie) - 1 else o - 1))
  /\ (forall c' cubie,
        orientation (fst (erase_onclick cubie c')) = orientation c')
  /\ orientation_in_range (orientation (run_events c es)).
Proof.
  intros Hzero. split; [|split; [|split]].
  - intros c' cubie piece. apply button_onclick_orientation.
  - intros c' cubie o. apply rotate_onclick_orientation.
  - intros c' cubie. apply erase_onclick_orientation.
  - apply run_events_in_range. rewrite Hzero.
    intros i v [-> _]%lookup_replicate. by destruct (i <? 12)%nat.
Qed.

End WithThree.

(** C7, witness: a session on the cube the constructor builds. *)
Lemma picker_keeps_orientation_in_range_witness :
  orientation (Exact.cube_at Exact.front_camera (0, 0, 0)%Q)
  = replicate 20 0
  /\ orientation_in_range
       (orientation
          (run_events (Exact.cube_at Exact.front_camera (0, 0, 0)%Q)
             Exact.session)).
Proof.
  split; [reflexivity|].
  apply (picker_keeps_orientation_in_range (T := Exact.exact_three)
           (Exact.cube_at Exact.front_camera (0, 0, 0)%Q) Exact.session).
  reflexivity.
Defined.

End PickerFacts.

(** ** The navigator *)

Module NavigationFacts.
Import Cube3D Scene.

Section WithThree.
Context `{T : Three}.
Hypothesis order : gt_strict_order.

(** *** The loop over the candidates *)

Section Loop.
Variable cubies : list Cubie.
Variables primary orthogonal currentPos : Vector3.

Abbreviation scores_of := (scores_of cubies primary orthogonal currentPos).
Abbreviation loop_invariant :=
  (loop_invariant cubies primary orthogonal currentPos).

Lemma consider_invariant seen acc n :
  loop_invariant seen acc ->
  loop_invariant (seen ++ [n])
    (consider cubies primary orthogonal currentPos acc n).
Proof.
  destruct acc as [best bestScore]. intros (Hnone & Hsome & Hmax).
  unfold consider. cbn [fst snd] in *.
  destruct (find_cubie cubies n) as [adj|] eqn:Hfind.
  - destruct (scores primary orthogonal currentPos (position adj))
      as [scorePrimary scoreOrtho] eqn:Hscores.
    assert (Hn : scores_of n = Some (scorePrimary, scoreOrtho))
      by (unfold Scene.scores_of; by rewrite Hfind, Hscores).
    destruct (gt scorePrimary bestScore) eqn:Hbeats;
      [destruct (gt scorePrimary scoreOrtho) eqn:Hq|]; cbn [andb fst snd].
    + split; [done|]. split.
      * intros ? [= <-]. split; [apply elem_of_app; right; by left|eauto].
      * intros m sp so [Hm|Hm%list_elem_of_singleton]%elem_of_app Hs Hqm.
        -- destruct (gt sp scorePrimary) eqn:Hgt; [|done].
           pose proof (gt_trans order _ _ _ Hgt Hbeats) as Habs.
           rewrite (Hmax m sp so Hm Hs Hqm) in Habs. done.
        -- subst m. rewrite Hn in Hs. injection Hs as <- <-.
           apply (gt_irrefl order).
    + split; [done|]. split.
      * intros m Hm. destruct (Hsome m Hm) as [Hin Hso].
        split; [apply elem_of_app; by left|done].
      * intros m sp so [Hm|Hm%list_elem_of_singleton]%elem_of_app Hs Hqm;
          [by eapply Hmax|].
        subst m. rewrite Hn in Hs. injection Hs as <- <-. congruence.
    + split; [done|]. split.
      * intros m Hm. destruct (Hsome m Hm) as [Hin Hso].
        split; [apply elem_of_app; by left|done].
      * intros m sp so [Hm|Hm%list_elem_of_singleton]%elem_of_app Hs Hqm;
          [by eapply Hmax|].
        subst m. rewrite Hn in Hs. by injection Hs as <- <-.
  - split; [done|]. split.
    + intros m Hm. destruct (Hsome m Hm) as [Hin Hso].
      split; [apply elem_of_app; by left|done].
    + intros m sp so [Hm|Hm%list_elem_of_singleton]%elem_of_app Hs Hqm;
        [by eapply Hmax|].
      subst m. unfold Scene.scores_of in Hs. by rewrite Hfind in Hs.
Qed.

Lemma loop_keeps_invariant candidates seen acc :
  loop_invariant seen acc ->
  loop_invariant (seen ++ candidates)
    (foldl (consider cubies primary orthogonal currentPos) acc candidates).
Proof.
  revert seen acc. induction candidates as [|n rest IH]; intros seen acc Hinv.
  - by rewrite app_nil_r.
  - cbn [foldl]. replace (seen ++ n :: rest) with ((seen ++ [n]) ++ rest)
      by by rewrite <- app_assoc.
    by apply IH, consider_invariant.
Qed.

(** [best] and [bestScore] after the loop. *)
Lemma best_candidate_spec candidates :
  let acc := best_candidate cubies primary orthogonal currentPos candidates in
  (fst acc = None -> snd acc = neg_infinity)
  /\ (forall n, fst acc = Some n ->
        n ∈ candidates
        /\ exists so, scores_of n = Some (snd acc, so) /\ gt (snd acc) so = true)
  /\ (forall m sp so, m ∈ candidates ->
        scores_of m = Some (sp, so) -> gt sp so = true ->
        gt sp (snd acc) = false).
Proof.
  apply (loop_keeps_invariant candidates [] (None, neg_infinity)).
  split; [done|]. split; [done|]. by intros m sp so ?%elem_of_nil.
Qed.

End Loop.

(** [-Infinity] is not above 0.5. *)
Lemma neg_infinity_below_half : gt neg_infinity (literal (1 # 2)) = false.
Proof.
  destruct (gt neg_infinity (literal (1 # 2))) eqn:Hgt; [|done].
  pose proof (gt_trans order _ _ _ Hgt (gt_half_neg_infinity order)) as Habs.
  by rewrite (gt_irrefl order) in Habs.
Qed.

(** What [getDirectionalTarget] returns, in terms of the scores. *)
Lemma target_spec c currentCubie direction cam candidates :
  ADJACENCY_MAP !! name currentCubie = Some candidates ->
  let top := best_score c currentCubie direction cam in
  (forall n,
     getDirectionalTarget c currentCubie direction cam = Some n ->
     n ∈ candidates
     /\ qualifies c currentCubie direction cam n top
     /\ gt top (literal (1 # 2)) = true)
  /\ (forall m sp, m ∈ candidates ->
        qualifies c currentCubie direction cam m sp -> gt sp top = false)
  /\ (gt top (literal (1 # 2)) = false ->
      getDirectionalTarget c currentCubie direction cam = None)
  /\ (gt top (literal (1 # 2)) = true ->
      exists n, getDirectionalTarget c currentCubie direction cam = Some n).
Proof.
  intros Hadj top. subst top.
  unfold getDirectionalTarget, best_score, qualifies, candidate_scores.
  rewrite Hadj.
  pose proof (best_candidate_spec (savedCubies c)
                (primary_axis (camera_axes cam) (toLowerCase direction))
                (orthogonal_axis (camera_axes cam) (toLowerCase direction))
                (position currentCubie) candidates) as (Hnone & Hsome & Hmax).
  destruct (best_candidate (savedCubies c)
              (primary_axis (camera_axes cam) (toLowerCase direction))
              (orthogonal_axis (camera_axes cam) (toLowerCase direction))
              (position currentCubie) candidates) as [best bestScore].
  cbn [fst snd] in *. split; [|split; [|split]].
  - intros n Hn. destruct (gt bestScore (literal (1 # 2))) eqn:Hconf; [|done].
    subst best. destruct (Hsome n eq_refl) as [Hin Hso]. done.
  - intros m sp Hm (so & Hs & Hq). by eapply Hmax.
  - by intros ->.
  - intros Hconf. rewrite Hconf. destruct best as [n|]; [eauto|].
    rewrite (Hnone eq_refl), neg_infinity_below_half in Hconf. done.
Qed.

(** C3 (as amended). From the current piece, on one of the keys w, a, s, d,
    [getDirectionalTarget] considers the pieces of the current piece's
    adjacency set only; it scores each by the dot product of the normalized
    move with the primary axis (screenUp for up, its opposite for down,
    camRight for right, its opposite for left, where camRight is the
    normalized cross product of the view direction and the normalized up
    vector, replaced by the camera's own x axis when that vector is
    degenerate, and screenUp is the normalized cross product of camRight
    and the view direction); a candidate whose absolute dot product with the
    other axis is not below its primary score is never returned; the
    candidate returned has the highest qualifying score; and none is
    returned whenever the best score is not above 0.5. *)
Theorem getDirectionalTarget_picks_best
    c currentCubie direction cam candidates :
  ADJACENCY_MAP !! name currentCubie = Some candidates ->
  direction ∈ ["w"; "a"; "s"; "d"] ->
  picks_best c currentCubie direction cam candidates.
Proof.
  intros Hadj Hdir. unfold picks_best.
  pose proof (target_spec c currentCubie direction cam candidates Hadj)
    as Hspec.
  destruct (camera_axes cam) as [camRight screenUp] eqn:Haxes.
  split; [|exact Hspec].
  intros n. unfold candidate_scores. rewrite Haxes.
  destruct (find_cubie (savedCubies c) n) as [adj|]; [|done].
  cbn [fmap option_fmap option_map]. f_equal.
  repeat (apply elem_of_cons in Hdir as [->|Hdir]); [..|by apply elem_of_nil in Hdir];
    reflexivity.
Qed.

(** Without an adjacency entry there is no target. *)
Lemma getDirectionalTarget_no_entry c currentCubie direction cam :
  ADJACENCY_MAP !! name currentCubie = None ->
  getDirectionalTarget c currentCubie direction cam = None.
Proof. intros Hadj. unfold getDirectionalTarget. by rewrite Hadj. Qed.

(** *** Keys that lead nowhere *)

(** C8. With no piece selected (the highlight hidden, on no cubie, or on a
    centre), or with a selected piece whose best score for the key is not
    above the threshold, [getDirectionalTarget] returns no target and
    [navigateWASD] does nothing: it throws nothing and leaves the cube (the
    two arrays and the selection among the rest) as it was. *)
Theorem navigateWASD_without_target c direction :
  visible (selection c) = false
  \/ selected_cubie c = None
  \/ (exists currentCubie,
        selected_cubie c = Some currentCubie
        /\ (isCenterName (name currentCubie) = true
            \/ gt (best_score c currentCubie direction (camera c))
                  (literal (1 # 2)) = false)) ->
  navigateWASD c direction = (c, None)
  /\ (forall currentCubie,
        selected_cubie c = Some currentCubie ->
        gt (best_score c currentCubie direction (camera c))
           (literal (1 # 2)) = false ->
        getDirectionalTarget c currentCubie direction (camera c) = None).
Proof.
  assert (Hnone : forall currentCubie,
             gt (best_score c currentCubie direction (camera c))
                (literal (1 # 2)) = false ->
             getDirectionalTarget c currentCubie direction (camera c) = None).
  { intros currentCubie Hlow.
    destruct (ADJACENCY_MAP !! name currentCubie) as [candidates|] eqn:Hadj.
    - by apply (target_spec c currentCubie direction (camera c) candidates).
    - by apply getDirectionalTarget_no_entry. }
  intros Hcase. split; [|by eauto].
  unfold navigateWASD.
  destruct Hcase
    as [Hhidden|[Hnocubie|(currentCubie & Hsel & [Hcentre|Hlow])]].
  - by rewrite Hhidden.
  - rewrite Hnocubie. by destruct (negb (visible (selection c))).
  - rewrite Hsel, Hcentre. by destruct (negb (visible (selection c))).
  - rewrite Hsel, (Hnone currentCubie Hlow).
    destruct (negb (visible (selection c))); [done|].
    destruct (isCenterName (name currentCubie)); [done|].
    destruct (ADJACENCY_MAP !! name currentCubie) as [adjacent|]; [|done].
    by destruct (length adjacent =? 0)%nat.
Qed.

End WithThree.

(** *** On exact arithmetic *)

Import Exact.

Lemma exact_order : gt_strict_order (H := exact_three).
Proof.
  split.
  - intros [x|]; cbn; [|done]. unfold Qlt_bool.
    by rewrite (proj2 (Qle_bool_iff x x) (Qle_refl x)).
  - intros [x|] [y|] [z|]; cbn; try done. unfold Qlt_bool.
    rewrite !negb_true_iff. intros Hxy Hyz.
    destruct (Qle_bool x z) eqn:Hxz; [|done].
    apply Qle_bool_iff in Hxz.
    destruct (Qlt_le_dec y x) as [Hlt|Hle].
    + destruct (Qlt_le_dec z y) as [Hlt'|Hle'].
      * exfalso. apply (Qlt_irrefl x).
        apply Qle_lt_trans with z; [done|]. by apply Qlt_trans with y.
      * apply Qle_bool_iff in Hle'. congruence.
    + apply Qle_bool_iff in Hle. congruence.
  - reflexivity.
Qed.

(** C3, counterexample. From UF, on the key d: with the camera pitched
    down (the sine of the angle between its direction and [up] is 5/13) the
    code scores UFR 1 on the normalized camRight and returns it, where the
    cross product of the claim gives 5/13 and no target; with a camera whose
    direction is parallel to [up] the code falls back on the camera's x axis
    and returns UFR, where the cross product of the claim is the zero
    vector and gives no target. *)
Lemma getDirectionalTarget_normalizes_axes :
  getDirectionalTarget (cube_at pitched_camera (0, 1, 1)%Q) cubie_UF "d"
    pitched_camera = Some "UFR"
  /\ resolveDirection_as_claimed (cube_at pitched_camera (0, 1, 1)%Q)
       cubie_UF "d" pitched_camera = None
  /\ getDirectionalTarget (cube_at degenerate_camera (0, 1, 1)%Q) cubie_UF
       "d" degenerate_camera = Some "UFR"
  /\ resolveDirection_as_claimed (cube_at degenerate_camera (0, 1, 1)%Q)
       cubie_UF "d" degenerate_camera = None.
Proof. repeat split; vm_compute; reflexivity. Qed.

(** C3, witness: from UF on the key d under the pitched camera. *)
Lemma getDirectionalTarget_picks_best_witness :
  picks_best (cube_at pitched_camera (0, 1, 1)%Q) cubie_UF "d"
    pitched_camera ["UFR"; "ULF"].
Proof.
  apply (getDirectionalTarget_picks_best (T := exact_three) exact_order
           (cube_at pitched_camera (0, 1, 1)%Q) cubie_UF "d" pitched_camera
           ["UFR"; "ULF"]).
  - vm_compute. reflexivity.
  - apply elem_of_cons. right. apply elem_of_cons. right.
    apply elem_of_cons. right. apply elem_of_cons. by left.
Defined.

(** C8, witness: from UF the key w leads nowhere under the front camera
    (both neighbours of UF lie sideways). *)
Lemma navigateWASD_without_target_witness :
  navigateWASD front_cube "w" = (front_cube, None)
  /\ (forall currentCubie,
        selected_cubie front_cube = Some currentCubie ->
        gt (best_score front_cube currentCubie "w" (camera front_cube))
           (literal (1 # 2)) = false ->
        getDirectionalTarget front_cube currentCubie "w" (camera front_cube)
        = None).
Proof.
  apply (navigateWASD_without_target (T := exact_three) exact_order
           front_cube "w").
  right. right. exists cubie_UF. split; [reflexivity|].
  right. vm_compute. reflexivity.
Defined.

End NavigationFacts.

(** ** Reading and writing array elements *)

Module ArrayFacts.

Lemma js_set_length {A} (l : list A) (i : Z) (v : A) :
  length (js_set l i v) = length l.
Proof. unfold js_set. case_decide; [apply length_insert|reflexivity]. Qed.

Lemma js_get_set_eq {A} (l : list A) (i : Z) (v w : A) :
  js_get l i = Some w -> js_get (js_set l i v) i = Some v.
Proof.
  unfold js_get, js_set. case_decide; [|discriminate].
  intros Hw. apply list_lookup_insert_eq. by eapply lookup_lt_Some.
Qed.

Lemma js_get_set_ne {A} (l : list A) (i j : Z) (v : A) :
  i <> j -> js_get (js_set l i v) j = js_get l j.
Proof.
  intros Hne. unfold js_get, js_set.
  destruct (decide (0 <= j)); [|reflexivity].
  destruct (decide (0 <= i)); [|reflexivity].
  apply list_lookup_insert_ne. lia.
Qed.

Lemma js_set_set {A} (l : list A) (i : Z) (v w : A) :
  js_set (js_set l i v) i w = js_set l i w.
Proof.
  unfold js_set. case_decide; [apply list_insert_insert_eq|reflexivity].
Qed.

Lemma js_set_id {A} (l : list A) (i : Z) (v : A) :
  js_get l i = Some v -> js_set l i v = l.
Proof.
  unfold js_get, js_set. case_decide; [apply list_insert_id|reflexivity].
Qed.

Lemma js_get_Z {A} (l : list A) (i : Z) (x : A) :
  js_get l i = Some x ->
  0 <= i < Z.of_nat (length l) /\ l !! Z.to_nat i = Some x.
Proof.
  unfold js_get. case_decide; [|discriminate].
  intros Hx. pose proof (lookup_lt_Some _ _ _ Hx). split; [lia|done].
Qed.

Lemma js_get_is_Some_range {A} (l : list A) (i : Z) :
  0 <= i < Z.of_nat (length l) -> is_Some (js_get l i).
Proof.
  intros Hi. unfold js_get. case_decide; [|lia].
  apply lookup_lt_is_Some. lia.
Qed.

Lemma js_get_nat {A} (l : list A) (i : nat) : js_get l (Z.of_nat i) = l !! i.
Proof. unfold js_get. case_decide; [|lia]. by rewrite Nat2Z.id. Qed.

Lemma filter_all {A} (f : A -> bool) (l : list A) :
  length (List.filter f l) = length l <-> forall x, x ∈ l -> f x = true.
Proof.
  induction l as [|a l IH]; cbn [List.filter length].
  - split; [intros _ x Hx; by apply elem_of_nil in Hx|done].
  - pose proof (List.filter_length_le f l) as Hle.
    destruct (f a) eqn:Hfa; cbn [length].
    + split.
      * intros Hlen x [->|Hx]%elem_of_cons; [done|].
        apply IH; [lia|done].
      * intros Hall. f_equal. apply IH. intros x Hx. apply Hall.
        by apply elem_of_cons; right.
    + split; [lia|]. intros Hall.
      rewrite Hall in Hfa; [discriminate|]. by apply elem_of_cons; left.
Qed.

End ArrayFacts.

(** ** Storage keys, statistics, score and guess counter (main script) *)

Module ScriptFacts.
Import Script ArrayFacts.

(** X1.  [getStorageKey]: two prefixed keys are the same key only for the
    same key in modes that agree on being daily or not, so a daily game and
    a trainer game never share an item; and no prefixed key is one of the
    items the page keeps for both modes (gameMode, stats, today,
    tutorialComplete). *)
Theorem getStorageKey_separates (mode1 mode2 key1 key2 : string) :
  (getStorageKey mode1 key1 = getStorageKey mode2 key2
   <-> isDailyMode mode1 = isDailyMode mode2 /\ key1 = key2)
  /\ getStorageKey mode1 key1
     ∉ ["gameMode"; "stats"; "today"; "tutorialComplete"].
Proof.
  unfold getStorageKey. split.
  - destruct (isDailyMode mode1), (isDailyMode mode2); simpl; split;
      first [ intros [? ?]; simplify_eq/=; reflexivity
            | intros Heq; simplify_eq/=; split; reflexivity ].
  - rewrite !elem_of_cons, elem_of_nil.
    destruct (isDailyMode mode1); simpl;
      intros [Heq|[Heq|[Heq|[Heq|[]]]]]; discriminate.
Qed.

(** X2.  [switchGameMode] leaves one of the two modes whatever the stored
    mode was, daily exactly when the mode before was not; so every prefixed
    key of the new mode differs from every prefixed key of the old one, and
    the game of the other mode is not touched. *)
Theorem switchGameMode_flips (mode : string) :
  let mode' := switchGameMode mode in
  (mode' = DAILY \/ mode' = TRAINER)
  /\ isDailyMode mode' = negb (isDailyMode mode)
  /\ isTrainerMode mode' = isDailyMode mode
  /\ forall key key', getStorageKey mode' key <> getStorageKey mode key'.
Proof.
  cbv zeta.
  assert (Hflip : (switchGameMode mode = DAILY
                   \/ switchGameMode mode = TRAINER)
                  /\ isDailyMode (switchGameMode mode)
                     = negb (isDailyMode mode)
                  /\ isTrainerMode (switchGameMode mode) = isDailyMode mode).
  { unfold switchGameMode, setGameMode.
    destruct (isDailyMode mode); cbn; auto. }
  destruct Hflip as (Hmodes & Hdaily & Htrainer).
  repeat split; try done.
  intros key key'. unfold getStorageKey. rewrite Hdaily.
  destruct (isDailyMode mode); cbn; discriminate.
Qed.

(** X3.  The statistics set up from the old 22-entry format, whose entries
    are counts (none negative) with a total that is a safe integer, so that
    every sum of the script is exact: seven entries, the first six as they
    were, the seventh the sum of the old entries from the seventh on, so
    the total number of games is kept; every entry is again a count and a
    safe integer; and setting up again from the result changes nothing. *)
Theorem setup_stats_migrates (old : list Z) :
  length old = 22%nat ->
  Forall (fun v => 0 <= v) old ->
  total old <= MAX_SAFE_INTEGER ->
  let stats := setup_stats (Some old) in
  length stats = 7%nat
  /\ take 6 stats = take 6 old
  /\ stats !! 6%nat = Some (total (drop 6 old))
  /\ total stats = total old
  /\ Forall (fun v => 0 <= v <= MAX_SAFE_INTEGER) stats
  /\ setup_stats (Some stats) = stats.
Proof.
  intros Hlen Hcounts Hsafe stats.
  assert (Hfive : length stats = 7%nat
                  /\ take 6 stats = take 6 old
                  /\ stats !! 6%nat = Some (total (drop 6 old))
                  /\ total stats = total old
                  /\ Forall (fun v => 0 <= v <= MAX_SAFE_INTEGER) stats).
  { subst stats.
    do 23 (destruct old as [|? old]; try discriminate Hlen).
    rewrite !Forall_cons in Hcounts.
    unfold setup_stats. cbn [length Nat.eqb].
    change (seqZ 0 _) with [0; 1; 2; 3; 4; 5].
    change (seqZ 6 _) with [6; 7; 8; 9; 10; 11; 12; 13; 14; 15; 16; 17; 18;
                             19; 20; 21].
    unfold MAX_SAFE_INTEGER in *.
    cbv -[Z.add Z.le Z.pow Z.sub] in Hsafe |- *.
    rewrite !Forall_cons.
    repeat split; try f_equal; try apply Forall_nil_2; lia. }
  destruct Hfive as (Hseven & Hfirst & Hlast & Htotal & Hentries).
  repeat split; try assumption.
  clearbody stats. unfold setup_stats. rewrite Hseven. reflexivity.
Qed.

(** X3, witness: the old statistics 1, 2, ..., 22. *)
Lemma setup_stats_migrates_witness :
  let stats := setup_stats (Some (seqZ 1 22)) in
  length stats = 7%nat
  /\ take 6 stats = take 6 (seqZ 1 22)
  /\ stats !! 6%nat = Some (total (drop 6 (seqZ 1 22)))
  /\ total stats = total (seqZ 1 22)
  /\ Forall (fun v => 0 <= v <= MAX_SAFE_INTEGER) stats
  /\ setup_stats (Some stats) = stats.
Proof.
  apply (setup_stats_migrates (seqZ 1 22)).
  - reflexivity.
  - apply Forall_forall. intros v Hv. apply elem_of_seqZ in Hv. lia.
  - vm_compute. discriminate.
Defined.

Section UpdateScore.
Variables cube_permutation cube_orientation answerState : list Z.
Variable guesses : Z.

Lemma elem_cons_ne (i a : Z) (l : list Z) :
  i <> a -> bool_decide (i ∈ a :: l) = bool_decide (i ∈ l).
Proof.
  intros Hne. apply bool_decide_ext. rewrite elem_of_cons.
  split; [intros [Heq|Hin]; [contradiction|exact Hin]|by right].
Qed.

Lemma score_loop (l : list Z) (score : list Z) (correct : Z) :
  let r := foldl (score_slot cube_permutation cube_orientation answerState
                    guesses) (score, correct) l in
  length (fst r) = length score
  /\ snd r
     = correct
       + Z.of_nat
           (length
              (List.filter
                 (slot_solved cube_permutation cube_orientation answerState)
                 l))
  /\ forall i v,
       js_get score i = Some v ->
       js_get (fst r) i
       = Some (if bool_decide (v = -1)
                  && slot_solved cube_permutation cube_orientation
                       answerState i
                  && bool_decide (i ∈ l)
               then guesses else v).
Proof.
  revert score correct.
  induction l as [|a l IH]; intros score correct; cbv zeta in *;
    cbn [foldl List.filter].
  - cbn [fst snd length]. split; [done|]. split; [lia|].
    intros i v Hv. rewrite Hv. f_equal.
    rewrite (bool_decide_eq_false_2 (i ∈ [])); [|apply not_elem_of_nil].
    by rewrite andb_false_r.
  - change (score_slot cube_permutation cube_orientation answerState guesses
              (score, correct) a)
      with (if slot_solved cube_permutation cube_orientation answerState a
            then (if bool_decide (js_get score a = Some (-1))
                  then js_set score a guesses else score, correct + 1)
            else (score, correct)).
    destruct (slot_solved cube_permutation cube_orientation answerState a)
      eqn:Ha.
    + set (score1 := if bool_decide (js_get score a = Some (-1))
                     then js_set score a guesses else score).
      destruct (IH score1 (correct + 1)) as (Hlen & Hcount & Hget).
      assert (Hlen1 : length score1 = length score).
      { subst score1. case_bool_decide; [apply js_set_length|done]. }
      split; [congruence|]. split; [rewrite Hcount; cbn [length]; lia|].
      intros i v Hv.
      destruct (decide (i = a)) as [->|Hne].
      * rewrite Ha. subst score1.
        case_bool_decide as Hminus.
        -- assert (v = -1) as -> by congruence.
           rewrite (Hget a guesses) by (by eapply js_get_set_eq).
           rewrite (bool_decide_eq_true_2 (-1 = -1)) by done.
           rewrite (bool_decide_eq_true_2 (a ∈ a :: l))
             by (apply elem_of_cons; by left).
           cbn [andb]. by destruct (_ && _).
        -- rewrite (Hget a v Hv).
           rewrite (bool_decide_eq_false_2 (v = -1)) by congruence.
           done.
      * assert (Hv1 : js_get score1 i = Some v).
        { subst score1. case_bool_decide; [|done].
          by rewrite js_get_set_ne. }
        rewrite (Hget i v Hv1). by rewrite (elem_cons_ne i a l).
    + destruct (IH score correct) as (Hlen & Hcount & Hget).
      split; [done|]. split; [done|].
      intros i v Hv. rewrite (Hget i v Hv).
      destruct (decide (i = a)) as [->|Hne].
      * rewrite Ha, andb_false_r. reflexivity.
      * by rewrite (elem_cons_ne i a l).
Qed.

(** X4.  [updateScore]: the number returned is the number of slots of the
    score array at which the cube agrees with the answer in piece and in
    orientation, so it lies between 0 and the length of the array; the array
    keeps its length; an entry other than -1 is never overwritten, and an
    entry -1 becomes the current number of guesses exactly when its slot
    agrees with the answer. *)
Theorem updateScore_counts (score : list Z) :
  let r := updateScore cube_permutation cube_orientation answerState
             guesses score in
  length (fst r) = length score
  /\ snd r
     = Z.of_nat
         (length
            (List.filter
               (slot_solved cube_permutation cube_orientation answerState)
               (seqZ 0 (Z.of_nat (length score)))))
  /\ 0 <= snd r <= Z.of_nat (length score)
  /\ forall i v,
       js_get score i = Some v ->
       js_get (fst r) i
       = Some (if bool_decide (v = -1)
                  && slot_solved cube_permutation cube_orientation
                       answerState i
               then guesses else v).
Proof.
  cbv zeta. unfold updateScore.
  destruct (score_loop (seqZ 0 (Z.of_nat (length score))) score 0)
    as (Hlen & Hcount & Hget).
  split; [done|]. split; [rewrite Hcount; lia|]. split.
  - rewrite Hcount.
    pose proof (List.filter_length_le
                  (slot_solved cube_permutation cube_orientation answerState)
                  (seqZ 0 (Z.of_nat (length score)))) as Hle.
    rewrite length_seqZ in Hle. lia.
  - intros i v Hv. rewrite (Hget i v Hv).
    destruct (js_get_Z _ _ _ Hv) as [Hi _].
    rewrite (bool_decide_eq_true_2 (i ∈ _)); [by rewrite andb_true_r|].
    apply elem_of_seqZ. lia.
Qed.

(** X5.  With the arrays of a cube (twenty pieces, twenty orientations, an
    answer of forty entries, twenty scores), [updateScore] returns 20
    exactly when the guess is the answer. *)
Theorem updateScore_all_iff_solved (score : list Z) :
  length cube_permutation = 20%nat ->
  length cube_orientation = 20%nat ->
  length answerState = 40%nat ->
  length score = 20%nat ->
  snd (updateScore cube_permutation cube_orientation answerState guesses
         score) = 20
  <-> cube_permutation ++ cube_orientation = answerState.
Proof.
  intros Hp Ho Ha Hs. unfold updateScore.
  destruct (score_loop (seqZ 0 (Z.of_nat (length score))) score 0)
    as (_ & -> & _).
  rewrite Hs.
  assert (Hcount : forall n : nat, 0 + Z.of_nat n = 20 <-> n = 20%nat)
    by (intros; lia).
  rewrite Hcount.
  change 20%nat with (length (seqZ 0 (Z.of_nat 20))) at 1.
  rewrite filter_all. unfold slot_solved. split.
  - intros Hall. apply list_eq. intros n.
    destruct (decide (n < 20)%nat) as [Hlt|Hge].
    + assert (Hin : Z.of_nat n ∈ seqZ 0 (Z.of_nat 20))
        by (apply elem_of_seqZ; lia).
      apply Hall in Hin.
      rewrite andb_true_iff, !bool_decide_eq_true in Hin.
      destruct Hin as [Hperm _].
      rewrite !js_get_nat in Hperm.
      rewrite lookup_app_l by lia. done.
    + destruct (decide (n < 40)%nat) as [Hlt|Hge'].
      * assert (Hin : Z.of_nat (n - 20) ∈ seqZ 0 (Z.of_nat 20))
          by (apply elem_of_seqZ; lia).
        apply Hall in Hin.
        rewrite andb_true_iff, !bool_decide_eq_true in Hin.
        destruct Hin as [_ Hori].
        replace (Z.of_nat (n - 20) + 20) with (Z.of_nat n) in Hori by lia.
        rewrite !js_get_nat in Hori.
        rewrite lookup_app_r by lia. rewrite Hp. done.
      * rewrite !lookup_ge_None_2; [done|lia|rewrite length_app; lia].
  - intros <- i Hi. apply elem_of_seqZ in Hi.
    change (length (seqZ 0 (Z.of_nat 20))) with 20%nat in Hi.
    rewrite andb_true_iff, !bool_decide_eq_true.
    replace i with (Z.of_nat (Z.to_nat i)) by lia.
    replace (Z.of_nat (Z.to_nat i) + 20)
      with (Z.of_nat (Z.to_nat i + 20)) by lia.
    rewrite !js_get_nat. split.
    + rewrite lookup_app_l by lia. done.
    + rewrite lookup_app_r by lia. rewrite Hp. f_equal. lia.
Qed.

End UpdateScore.

(** X5, witness: the solved guess against the solved answer. *)
Lemma updateScore_all_iff_solved_witness :
  snd (updateScore (seqZ 0 20) (replicate 20 0)
         (seqZ 0 20 ++ replicate 20 0) 1 (replicate 20 (-1))) = 20
  <-> seqZ 0 20 ++ replicate 20 0 = seqZ 0 20 ++ replicate 20 0.
Proof.
  apply (updateScore_all_iff_solved (seqZ 0 20) (replicate 20 0)
           (seqZ 0 20 ++ replicate 20 0) 1 (replicate 20 (-1)));
    reflexivity.
Defined.

Lemma check_counter_steps verifyState guesses cube_permutation
    cube_orientation :
  let r := check_counter verifyState guesses cube_permutation
             cube_orientation in
  (fst r = guesses /\ snd r = None)
  \/ (guesses < 6 /\ fst r = guesses + 1 /\ snd r = Some guesses).
Proof.
  cbv zeta. unfold check_counter.
  destruct (includes cube_permutation (-1)); [by left|].
  destruct (negb (verifyState _)); [by left|].
  destruct (guesses >=? 6) eqn:Hsix; [by left|].
  right. cbn [fst snd]. repeat split. lia.
Qed.

(** The counter that [check] returns is the one [check_counter] gives. *)
Lemma check_counter_agrees verifyState answerColors guesses cube_permutation
    cube_orientation v guesses' :
  Main.check verifyState answerColors guesses cube_permutation
    cube_orientation = Normal (v, guesses') ->
  guesses' = fst (check_counter verifyState guesses cube_permutation
                    cube_orientation).
Proof.
  unfold Main.check, check_counter.
  destruct (includes cube_permutation (-1)); [by intros [= _ <-]|].
  destruct (negb (verifyState _)); [by intros [= _ <-]|].
  destruct (guesses >=? 6); [by intros [= _ <-]|].
  destruct (Main.stateToFaceletColors _); cbn [bind]; [|discriminate].
  by intros [= _ <-].
Qed.

Lemma check_next_steps verifyState guesses stored g :
  check_next verifyState (guesses, stored) g = (guesses, stored)
  \/ (guesses < 6
      /\ check_next verifyState (guesses, stored) g
         = (guesses + 1, Some guesses)).
Proof.
  unfold check_next. cbn [fst snd].
  destruct (check_counter_steps verifyState guesses (fst g) (snd g))
    as [[Hsame Hnone]|(Hlt & Hnext & Hsome)];
    destruct (check_counter verifyState guesses g.1 g.2)
      as [guesses1 written]; cbn [fst snd] in *; subst; auto.
Qed.

(** X6.  The guess counter through any run of guesses, from a counter
    that is a safe integer of at most six (so that every increment is
    exact): it never goes down, rises by at most one per guess and never
    passes six, so it stays a safe integer; and once a guess has been
    counted, the stored counter is the counter less one (the item is
    written before the increment). *)
Theorem guess_counter_bounded (verifyState : list Z -> bool) (guesses : Z)
    (stored : option Z) (gs : list (list Z * list Z)) :
  - MAX_SAFE_INTEGER <= guesses <= 6 ->
  let r := check_all verifyState guesses stored gs in
  guesses <= fst r <= 6
  /\ safe_integer (fst r)
  /\ fst r <= guesses + Z.of_nat (length gs)
  /\ (fst r = guesses -> snd r = stored)
  /\ (guesses < fst r -> snd r = Some (fst r - 1)).
Proof.
  unfold check_all, safe_integer, MAX_SAFE_INTEGER. revert guesses stored.
  induction gs as [|g gs IH]; intros guesses stored Hsix; cbv zeta in *;
    cbn [foldl length].
  - cbn [fst snd]. repeat split; first [lia|done].
  - destruct (check_next_steps verifyState guesses stored g)
      as [->|[Hlt ->]].
    + destruct (IH guesses stored Hsix) as (Hb & Hsafe & Hl & Hs & Hw).
      repeat split; try lia; assumption.
    + destruct (IH (guesses + 1) (Some guesses))
        as (Hb & Hsafe & Hl & Hs & Hw); [lia|].
      set (r := foldl _ _ gs) in *.
      repeat split; try lia.
      intros _.
      destruct (decide (fst r = guesses + 1)) as [Heq|Hne].
      * rewrite Hs by done. f_equal. lia.
      * apply Hw. lia.
Qed.

(** X6, witness: a guess, a guess with an empty slot and a third guess,
    from the counter -1. *)
Lemma guess_counter_bounded_witness :
  let r := check_all (fun _ => true) (-1) None
             [(seqZ 0 20, replicate 20 0); ([-1], []);
              (seqZ 0 20, replicate 20 0)] in
  -1 <= fst r <= 6
  /\ safe_integer (fst r)
  /\ fst r <= -1 + Z.of_nat 3
  /\ (fst r = -1 -> snd r = None)
  /\ (-1 < fst r -> snd r = Some (fst r - 1)).
Proof.
  apply (guess_counter_bounded (fun _ => true) (-1) None
           [(seqZ 0 20, replicate 20 0); ([-1], []);
            (seqZ 0 20, replicate 20 0)]).
  unfold MAX_SAFE_INTEGER. lia.
Defined.

(** X7.  Reloading the page after a counted guess, the counter a safe
    integer below six (so that the increment is exact, and the stored item
    is read back as the integer that was written): the load reads the
    stored counter and runs [check] on the guess again, which brings the
    counter back to what it was, except after the guess counted from 0:
    the stored 0 is read as -1, and the counter comes back as 0, not 1. *)
Theorem counter_after_reload (verifyState : list Z -> bool) (guesses : Z)
    (cube_permutation cube_orientation : list Z) :
  - MAX_SAFE_INTEGER <= guesses < 6 ->
  includes cube_permutation (-1) = false ->
  verifyState (cube_permutation ++ cube_orientation) = true ->
  let r := check_counter verifyState guesses cube_permutation
             cube_orientation in
  fst r = guesses + 1
  /\ snd r = Some guesses
  /\ counter_after_load verifyState (snd r) cube_permutation
       cube_orientation
     = (if guesses =? 0 then 0 else fst r).
Proof.
  intros Hsix Hfull Hvalid. cbv zeta.
  unfold counter_after_load, check_counter, initial_guesses.
  rewrite Hfull, Hvalid. cbn [negb].
  destruct (guesses >=? 6) eqn:H6; [lia|]. cbn [fst snd].
  split; [done|]. split; [done|].
  destruct (guesses =? 0) eqn:H0.
  - reflexivity.
  - rewrite H6. reflexivity.
Qed.

(** X7, witness: the guess counted from 0. *)
Lemma counter_after_reload_witness :
  let r := check_counter (fun _ => true) 0 (seqZ 0 20) (replicate 20 0) in
  fst r = 0 + 1
  /\ snd r = Some 0
  /\ counter_after_load (fun _ => true) (snd r) (seqZ 0 20)
       (replicate 20 0)
     = (if 0 =? 0 then 0 else fst r).
Proof.
  apply (counter_after_reload (fun _ => true) 0 (seqZ 0 20)
           (replicate 20 0));
    [unfold MAX_SAFE_INTEGER; lia|reflexivity|reflexivity].
Defined.

Lemma total_insert (l : list Z) (i : nat) (v w : Z) :
  l !! i = Some v -> total (<[i := w]> l) = total l + (w - v).
Proof.
  revert i. induction l as [|x l IH]; intros [|i] Hv; try discriminate;
    unfold total in *; simpl in *.
  - injection Hv as ->. lia.
  - specialize (IH i Hv). lia.
Qed.

(** X8.  The win recorded in the statistics, seven safe integers (so that
    the increment is exact): with a counter from 1 to 6, as [check] leaves
    it, exactly the entry of that number of guesses goes up by one, so the
    total goes up by one and the last entry (6+) stays; with the counter at
    0 or below, as after the check at page load, no entry changes. *)
Theorem record_win_entry (stats : list Z) (guesses : Z) :
  length stats = 7%nat ->
  Forall safe_integer stats ->
  guesses <= 6 ->
  let stats' := record_win stats guesses in
  length stats' = 7%nat
  /\ stats' !! 6%nat = stats !! 6%nat
  /\ (1 <= guesses ->
      total stats' = total stats + 1
      /\ exists v, js_get stats (guesses - 1) = Some v
                   /\ safe_integer v
                   /\ js_get stats' (guesses - 1) = Some (v + 1))
  /\ (guesses <= 0 -> stats' = stats).
Proof.
  intros Hlen Hsafe Hsix. cbv zeta. unfold record_win. rewrite Hlen.
  replace (Z.min (guesses - 1) (Z.of_nat 7 - 1)) with (guesses - 1) by lia.
  destruct (js_get stats (guesses - 1)) as [v|] eqn:Hv.
  - destruct (js_get_Z _ _ _ Hv) as [Hrange Hlook].
    split; [by rewrite js_set_length|]. split.
    + rewrite <- !js_get_nat. apply js_get_set_ne. lia.
    + split.
      * intros _. split.
        -- unfold js_set. case_decide; [|lia].
           rewrite (total_insert _ _ v) by done. lia.
        -- exists v. split; [done|]. split.
           ++ rewrite Forall_lookup in Hsafe. by eapply Hsafe.
           ++ by eapply js_get_set_eq.
      * lia.
  - split; [done|]. split; [done|]. split; [|done].
    intros Hone.
    destruct (js_get_is_Some_range stats (guesses - 1)) as [v Hsome];
      [lia|congruence].
Qed.

(** X8, witness: a win at the third guess. *)
Lemma record_win_entry_witness :
  let stats' := record_win [0; 2; 5; 3; 1; 0; 4] 3 in
  length stats' = 7%nat
  /\ stats' !! 6%nat = [0; 2; 5; 3; 1; 0; 4] !! 6%nat
  /\ (1 <= 3 ->
      total stats' = total [0; 2; 5; 3; 1; 0; 4] + 1
      /\ exists v, js_get [0; 2; 5; 3; 1; 0; 4] (3 - 1) = Some v
                   /\ safe_integer v
                   /\ js_get stats' (3 - 1) = Some (v + 1))
  /\ (3 <= 0 -> stats' = [0; 2; 5; 3; 1; 0; 4]).
Proof.
  apply (record_win_entry [0; 2; 5; 3; 1; 0; 4] 3).
  - reflexivity.
  - unfold safe_integer, MAX_SAFE_INTEGER.
    repeat (apply Forall_cons; split; [lia|]). apply Forall_nil_2.
  - lia.
Defined.

End ScriptFacts.

(** ** Saving, loading and editing a guess ([Cube3D]) *)

Module SessionFacts.
Import Cube3D Scene Persistence ArrayFacts PickerFacts.

Section WithThree.
Context `{T : Three}.

Lemma initPicker_shape c cubie keepSelection :
  exists s u, fst (initPicker c cubie keepSelection) = with_ui c s u.
Proof.
  unfold initPicker.
  destruct (isCenterName (name cubie)); [eauto|].
  destruct (negb keepSelection && _); [eauto|].
  destruct (correct c _) as [[|]|]; eauto.
Qed.

Lemma navigateWASD_cases c direction :
  navigateWASD c direction = (c, None)
  \/ exists currentCubie targetCubie,
       selected_cubie c = Some currentCubie
       /\ visible (selection c) = true
       /\ isCenterName (name currentCubie) = false
       /\ getDirectionalTarget c currentCubie direction (camera c)
          = Some (name targetCubie)
       /\ targetCubie ∈ savedCubies c
       /\ navigateWASD c direction = initPicker c targetCubie false.
Proof.
  unfold navigateWASD.
  destruct (visible (selection c)); cbn [negb]; [|by left].
  destruct (selected_cubie c) as [currentCubie|]; [|by left].
  destruct (isCenterName (name currentCubie)) eqn:Hcentre; [by left|].
  destruct (ADJACENCY_MAP !! name currentCubie) as [adjacent|]; [|by left].
  destruct (length adjacent =? 0)%nat; [by left|].
  destruct (getDirectionalTarget c currentCubie direction (camera c))
    as [target|] eqn:Htarget; [|by left].
  case_bool_decide; [by left|].
  destruct (find_cubie (savedCubies c) target) as [targetCubie|] eqn:Hfind;
    [|by left].
  right. exists currentCubie, targetCubie.
  unfold find_cubie in Hfind.
  destruct (find_some _ _ Hfind) as [Hin Hname].
  apply bool_decide_eq_true in Hname. subst target.
  repeat split; try done. by apply list_elem_of_In.
Qed.

Lemma same_game_refl c : same_game c c.
Proof. by repeat split. Qed.

Lemma same_game_trans c1 c2 c3 :
  same_game c1 c2 -> same_game c2 c3 -> same_game c1 c3.
Proof.
  unfold same_game. intros (?&?&?&?&?&?) (?&?&?&?&?&?).
  repeat split; congruence.
Qed.

Lemma same_game_with_ui c s u : same_game c (with_ui c s u).
Proof. by repeat split. Qed.

Lemma same_game_with_arrays c p o : same_game c (with_arrays c p o).
Proof. by repeat split. Qed.

Lemma initPicker_same_game c cubie keepSelection :
  same_game c (fst (initPicker c cubie keepSelection)).
Proof.
  destruct (initPicker_shape c cubie keepSelection) as (s & u & ->).
  apply same_game_with_ui.
Qed.

Lemma navigateWASD_same_game c direction :
  same_game c (fst (navigateWASD c direction)).
Proof.
  destruct (navigateWASD_cases c direction)
    as [->|(cur & tc & _ & _ & _ & _ & _ & ->)].
  - apply same_game_refl.
  - apply initPicker_same_game.
Qed.

Lemma correct_same_game c c' index :
  same_game c c' -> correct c' index = correct c index.
Proof.
  intros (_ & _ & Hp & Ho & Hsp & Hso). unfold correct.
  by rewrite Hp, Ho, Hsp, Hso.
Qed.

Lemma rotate_onclick_shape cubie c :
  exists o, fst (rotate_onclick cubie c) = with_arrays c (permutation c) o.
Proof.
  unfold rotate_onclick.
  destruct (js_get (orientation c) _); [eauto|].
  exists (orientation c). by destruct c.
Qed.

Lemma run_event_same_game c e :
  is_Stored e = false -> same_game c (fst (run_event c e)).
Proof.
  intros He. destruct e as [cubie|k| | |direction|p o]; cbn [run_event];
    try discriminate He.
  - apply initPicker_same_game.
  - destruct (picker (controls c) !! k) as [[piece [|]]|];
      try apply same_game_refl.
    destruct (handlers_for (controls c)) as [cubie|];
      [|apply same_game_refl].
    unfold button_onclick.
    eapply same_game_trans;
      [apply same_game_with_arrays|apply initPicker_same_game].
  - destruct (erase_disabled (controls c)); [apply same_game_refl|].
    destruct (handlers_for (controls c)) as [cubie|];
      [|apply same_game_refl].
    unfold erase_onclick.
    eapply same_game_trans;
      [apply same_game_with_arrays|apply initPicker_same_game].
  - destruct (rotate_disabled (controls c)); [apply same_game_refl|].
    destruct (handlers_for (controls c)) as [cubie|];
      [|apply same_game_refl].
    destruct (rotate_onclick_shape cubie c) as (o & ->).
    apply same_game_with_arrays.
  - apply navigateWASD_same_game.
Qed.

Lemma run_events_same_game c es :
  forallb (fun e => negb (is_Stored e)) es = true ->
  same_game c (run_events c es).
Proof.
  unfold run_events. revert c.
  induction es as [|e es IH]; intros c Hes; cbn [foldl];
    [apply same_game_refl|].
  cbn [forallb] in Hes. apply andb_true_iff in Hes as [He Hes].
  apply negb_true_iff in He.
  eapply same_game_trans; [by apply run_event_same_game|by apply IH].
Qed.

(** X9.  Loading after saving gives back the saved guess, whatever was
    clicked or typed in between: the two arrays are the ones the cube had at
    [save], and [load] does not throw. *)
Theorem load_restores_saved (c : cube) (es : list event) :
  forallb (fun e => negb (is_Stored e)) es = true ->
  let c' := run_events (save c) es in
  load c' = (with_arrays c' (permutation c) (orientation c), None).
Proof.
  intros Hes c'.
  destruct (run_events_same_game (save c) es Hes)
    as (_ & _ & _ & _ & Hsp & Hso).
  fold c' in Hsp, Hso. cbn [save with_storage stored_permutation
                              stored_orientation] in Hsp, Hso.
  unfold load. rewrite Hsp. cbn [JSON_parse].
  cbn [with_arrays stored_orientation]. rewrite Hso. reflexivity.
Qed.

Lemma disabled_no_button (u : Controls) k piece :
  picker u = [] -> picker u !! k <> Some (piece, false).
Proof. intros ->. by rewrite lookup_nil. Qed.

Lemma initPicker_bound c cubie keepSelection :
  bound_unlocked c -> bound_unlocked (fst (initPicker c cubie keepSelection)).
Proof.
  intros Hc. unfold initPicker.
  destruct (isCenterName (name cubie)).
  { left. repeat split; try done; intros k piece; by rewrite lookup_nil. }
  destruct (negb keepSelection && _).
  { left. repeat split; try done; intros k piece; by rewrite lookup_nil. }
  destruct (correct c (getStateIndex (name cubie))) as [[|]|] eqn:Hcorrect.
  - left. repeat split; try done; intros k piece; by rewrite lookup_nil.
  - right. exists cubie. split; [done|exact Hcorrect].
  - destruct Hc as [(He & Hr & _)|(bound & Hbound & Hfalse)].
    + left. repeat split; try done; intros k piece; by rewrite lookup_nil.
    + right. exists bound. split; [exact Hbound|exact Hfalse].
Qed.

(** One event on a cube whose controls, if enabled, are bound to a slot
    that is not correct: a correct slot keeps its piece and orientation. *)
Lemma run_event_locked c e i :
  is_Stored e = false ->
  bound_unlocked c ->
  correct c i = Normal true ->
  bound_unlocked (fst (run_event c e))
  /\ correct (fst (run_event c e)) i = Normal true
  /\ js_get (permutation (fst (run_event c e))) i = js_get (permutation c) i
  /\ js_get (orientation (fst (run_event c e))) i
     = js_get (orientation c) i.
Proof.
  intros He Hc Hi.
  split; [|split;
    [by rewrite (correct_same_game c _ i (run_event_same_game c e He))|]].
  - destruct e as [cubie|k| | |direction|p o]; cbn [run_event];
      try discriminate He.
    + by apply initPicker_bound.
    + destruct (picker (controls c) !! k) as [[piece [|]]|]; try done.
      destruct (handlers_for (controls c)) as [cubie|]; [|done].
      unfold button_onclick. by apply initPicker_bound.
    + destruct (erase_disabled (controls c)); [done|].
      destruct (handlers_for (controls c)) as [cubie|]; [|done].
      unfold erase_onclick. by apply initPicker_bound.
    + destruct (rotate_disabled (controls c)); [done|].
      destruct (handlers_for (controls c)) as [cubie|]; [|done].
      destruct (rotate_onclick_shape cubie c) as (o & ->). exact Hc.
    + destruct (navigateWASD_cases c direction)
        as [->|(cur & tc & _ & _ & _ & _ & _ & ->)]; [done|].
      by apply initPicker_bound.
  - destruct e as [cubie|k| | |direction|p o]; cbn [run_event];
      try discriminate He.
    + by destruct (initPicker_arrays c cubie false) as [-> ->].
    + destruct (picker (controls c) !! k) as [[piece [|]]|] eqn:Hk;
        try done.
      destruct (handlers_for (controls c)) as [cubie|] eqn:Hfor; [|done].
      destruct Hc as [(_ & _ & Hnone)|(bound & Hbound & Hfalse)];
        [by destruct (Hnone k piece)|].
      assert (bound = cubie) as -> by congruence.
      assert (Hne : getStateIndex (name cubie) <> i) by congruence.
      unfold button_onclick.
      destruct (initPicker_arrays
                  (with_arrays c
                     (js_set (permutation c) (getStateIndex (name cubie))
                        (getStateIndex piece))
                     (js_set (orientation c) (getStateIndex (name cubie)) 0))
                  cubie true) as [-> ->].
      cbn [with_arrays permutation orientation].
      by rewrite !js_get_set_ne.
    + destruct (erase_disabled (controls c)) eqn:Herase; [done|].
      destruct (handlers_for (controls c)) as [cubie|] eqn:Hfor; [|done].
      destruct Hc as [(Htrue & _)|(bound & Hbound & Hfalse)];
        [congruence|].
      assert (bound = cubie) as -> by congruence.
      assert (Hne : getStateIndex (name cubie) <> i) by congruence.
      unfold erase_onclick.
      destruct (initPicker_arrays
                  (with_arrays c
                     (js_set (permutation c) (getStateIndex (name cubie))
                        (-1))
                     (orientation c))
                  cubie true) as [-> ->].
      cbn [with_arrays permutation orientation].
      by rewrite !js_get_set_ne.
    + destruct (rotate_disabled (controls c)) eqn:Hrotate; [done|].
      destruct (handlers_for (controls c)) as [cubie|] eqn:Hfor; [|done].
      destruct Hc as [(_ & Htrue & _)|(bound & Hbound & Hfalse)];
        [congruence|].
      assert (bound = cubie) as -> by congruence.
      assert (Hne : getStateIndex (name cubie) <> i) by congruence.
      unfold rotate_onclick.
      destruct (js_get (orientation c) (getStateIndex (name cubie)));
        [|done].
      cbn [fst with_arrays permutation orientation].
      by rewrite !js_get_set_ne.
    + by destruct (navigateWASD_arrays c direction) as [-> ->].
Qed.

Lemma run_events_locked c es i :
  forallb (fun e => negb (is_Stored e)) es = true ->
  bound_unlocked c ->
  correct c i = Normal true ->
  js_get (permutation (run_events c es)) i = js_get (permutation c) i
  /\ js_get (orientation (run_events c es)) i = js_get (orientation c) i.
Proof.
  unfold run_events. revert c.
  induction es as [|e es IH]; intros c Hes Hc Hi; cbn [foldl]; [done|].
  cbn [forallb] in Hes. apply andb_true_iff in Hes as [He Hes].
  apply negb_true_iff in He.
  destruct (run_event_locked c e i He Hc Hi) as (Hc' & Hi' & Hp & Ho).
  destruct (IH _ Hes Hc' Hi') as [-> ->]. done.
Qed.

(** X10.  Once a guess is accepted, a slot whose piece and orientation are
    the answer's is locked: whatever is clicked or typed afterwards (the
    picker, erase, rotate, the keys, other cubies), the slot keeps its piece
    and its orientation until the stored guess is rewritten. *)
Theorem accepted_pieces_stay (c : cube) (es : list event) (i : Z) :
  forallb (fun e => negb (is_Stored e)) es = true ->
  js_get (permutation c) i = js_get (answerPermutation c) i ->
  js_get (orientation c) i = js_get (answerOrientation c) i ->
  let c' := run_events (fst (accept_guess c)) es in
  js_get (permutation c') i = js_get (permutation c) i
  /\ js_get (orientation c') i = js_get (orientation c) i.
Proof.
  intros Hes Hp Ho. cbv zeta.
  assert (Haccept : exists s u,
            fst (accept_guess c) = with_ui (save c) s u
            /\ erase_disabled u = true /\ rotate_disabled u = true
            /\ picker u = []).
  { unfold accept_guess, initPicker.
    change (isCenterName (name (selection_object c))) with true.
    cbv iota. cbn [fst]. eauto 10. }
  destruct Haccept as (s & u & -> & He & Hr & Hpick).
  destruct (run_events_locked (with_ui (save c) s u) es i Hes)
    as [Hp' Ho']; [| |split; [exact Hp'|exact Ho']].
  - left. repeat split; try done; intros k piece;
      by apply disabled_no_button.
  - unfold correct.
    cbn [with_ui save with_storage stored_permutation stored_orientation
         answerPermutation answerOrientation JSON_parse bind].
    by rewrite Hp, Ho, !bool_decide_eq_true_2.
Qed.

(** *** The permutation under construction *)

Lemma lookup_map_Some {A B} (f : A -> B) (l : list A) (k : nat) (y : B) :
  map f l !! k = Some y -> exists x, l !! k = Some x /\ y = f x.
Proof.
  revert k. induction l as [|a l IH]; intros [|k] Hy; try discriminate.
  - injection Hy as <-. eauto.
  - apply IH, Hy.
Qed.

Lemma initPicker_fresh c cubie keepSelection :
  picker_fresh (fst (initPicker c cubie keepSelection)).
Proof.
  unfold picker_fresh, initPicker.
  destruct (isCenterName (name cubie)).
  { intros k piece d Hk. cbn [fst with_ui controls picker] in Hk.
    by rewrite lookup_nil in Hk. }
  destruct (negb keepSelection && _).
  { intros k piece d Hk. cbn [fst with_ui controls picker] in Hk.
    by rewrite lookup_nil in Hk. }
  destruct (correct c (getStateIndex (name cubie))) as [[|]|];
    try (intros k piece d Hk; cbn [fst with_ui controls picker] in Hk;
         by rewrite lookup_nil in Hk).
  intros k piece d Hk. cbn [fst with_ui controls picker] in Hk.
  apply lookup_map_Some in Hk as (x & Hx & [= -> ->]).
  split; [reflexivity|]. exists cubie. split; [reflexivity|].
  by eapply list_elem_of_lookup_2.
Qed.

Lemma piece_index_kind (cubie_name piece : string) :
  piece ∈ (if strlen cubie_name =? 2 then edge_pieces else corner_pieces) ->
  0 <= getStateIndex cubie_name ->
  getStateIndex piece <> -1
  /\ (if getStateIndex cubie_name <? 12
      then 0 <= getStateIndex piece < 12
      else 12 <= getStateIndex piece < 20).
Proof.
  intros Hpiece Hindex.
  destruct (getStateIndex_kind cubie_name Hindex) as [_ Hlen].
  assert (Hedges : forallb (fun p => (0 <=? getStateIndex p)
                                     && (getStateIndex p <? 12))
                     edge_pieces = true) by (vm_compute; reflexivity).
  assert (Hcorners : forallb (fun p => (12 <=? getStateIndex p)
                                       && (getStateIndex p <? 20))
                       corner_pieces = true) by (vm_compute; reflexivity).
  rewrite forallb_forall in Hedges, Hcorners.
  rewrite Hlen in Hpiece.
  destruct (getStateIndex cubie_name <? 12); cbn [Z.eqb Pos.eqb] in Hpiece;
    apply list_elem_of_In in Hpiece.
  - apply Hedges in Hpiece. lia.
  - apply Hcorners in Hpiece. lia.
Qed.

Lemma partial_assignment_assign (p : list Z) (i v : Z) :
  partial_assignment p ->
  includes p v = false ->
  v <> -1 ->
  (0 <= i < 20 -> if i <? 12 then 0 <= v < 12 else 12 <= v < 20) ->
  partial_assignment (js_set p i v).
Proof.
  intros (Hlen & Hkind & Hinj) Hnew Hv Hi.
  apply bool_decide_eq_false in Hnew.
  unfold js_set. case_decide as Hpos; [|done].
  split; [by rewrite length_insert|]. split.
  - intros j w [(<- & <- & Hlt)|[Hne Hw]]%list_lookup_insert_Some;
      [|by apply Hkind].
    right. rewrite Hlen in Hlt.
    destruct (Z.to_nat i <? 12)%nat eqn:Hn.
    + apply Nat.ltb_lt in Hn. specialize (Hi ltac:(lia)).
      destruct (i <? 12) eqn:Hz; lia.
    + apply Nat.ltb_ge in Hn. specialize (Hi ltac:(lia)).
      destruct (i <? 12) eqn:Hz; lia.
  - intros j1 j2 w
      [(<- & <- & Hlt1)|[Hne1 Hw1]]%list_lookup_insert_Some
      [(<- & Heq & Hlt2)|[Hne2 Hw2]]%list_lookup_insert_Some Hw;
      try done.
    + destruct Hnew. by eapply list_elem_of_lookup_2.
    + subst w. destruct Hnew. by eapply list_elem_of_lookup_2.
    + by eapply Hinj.
Qed.

Lemma partial_assignment_erase (p : list Z) (i : Z) :
  partial_assignment p -> partial_assignment (js_set p i (-1)).
Proof.
  intros (Hlen & Hkind & Hinj).
  unfold js_set. case_decide as Hpos; [|done].
  split; [by rewrite length_insert|]. split.
  - intros j w [(<- & <- & Hlt)|[Hne Hw]]%list_lookup_insert_Some;
      [by left|by apply Hkind].
  - intros j1 j2 w
      [(<- & <- & Hlt1)|[Hne1 Hw1]]%list_lookup_insert_Some
      [(<- & Heq & Hlt2)|[Hne2 Hw2]]%list_lookup_insert_Some Hw;
      try done.
    by eapply Hinj.
Qed.

Lemma run_event_partial c e :
  partial_assignment (permutation c) -> picker_fresh c ->
  partial_assignment (permutation (fst (run_event c e)))
  /\ picker_fresh (fst (run_event c e)).
Proof.
  intros Hp Hfresh.
  destruct e as [cubie|k| | |direction|p o]; cbn [run_event].
  - split; [|apply initPicker_fresh].
    by rewrite (proj1 (initPicker_arrays c cubie false)).
  - destruct (picker (controls c) !! k) as [[piece [|]]|] eqn:Hk;
      try done.
    destruct (handlers_for (controls c)) as [cubie|] eqn:Hfor; [|done].
    unfold button_onclick. split; [|apply initPicker_fresh].
    rewrite (proj1 (initPicker_arrays _ cubie true)).
    cbn [with_arrays permutation].
    destruct (Hfresh k piece false Hk) as (Hnew & bound & Hbound & Hpiece).
    assert (bound = cubie) as -> by congruence.
    destruct (decide (0 <= getStateIndex (name cubie))) as [Hpos|Hneg].
    + destruct (piece_index_kind _ _ Hpiece Hpos) as [Hv Hkind].
      apply partial_assignment_assign; try done.
    + unfold js_set. by case_decide.
  - destruct (erase_disabled (controls c)); [done|].
    destruct (handlers_for (controls c)) as [cubie|]; [|done].
    unfold erase_onclick. split; [|apply initPicker_fresh].
    rewrite (proj1 (initPicker_arrays _ cubie true)).
    cbn [with_arrays permutation]. by apply partial_assignment_erase.
  - destruct (rotate_disabled (controls c)); [done|].
    destruct (handlers_for (controls c)) as [cubie|]; [|done].
    destruct (rotate_onclick_shape cubie c) as (o & ->).
    split; [exact Hp|exact Hfresh].
  - destruct (navigateWASD_cases c direction)
      as [->|(cur & tc & _ & _ & _ & _ & _ & ->)]; [done|].
    split; [|apply initPicker_fresh].
    by rewrite (proj1 (initPicker_arrays c tc false)).
  - split; [exact Hp|exact Hfresh].
Qed.

Lemma run_events_partial c es :
  partial_assignment (permutation c) -> picker_fresh c ->
  partial_assignment (permutation (run_events c es)).
Proof.
  unfold run_events. revert c.
  induction es as [|e es IH]; intros c Hp Hfresh; cbn [foldl]; [done|].
  destruct (run_event_partial c e Hp Hfresh) as [Hp' Hfresh'].
  by apply IH.
Qed.

(** X11.  Whatever is clicked or typed, the picker keeps the permutation a
    partial placement of the pieces: twenty entries, an edge or -1 in an
    edge slot and a corner or -1 in a corner slot, and no piece in two
    slots. *)
Theorem picker_keeps_partial_assignment (c : cube) (es : list event) :
  partial_assignment (permutation c) ->
  picker_fresh c ->
  partial_assignment (permutation (run_events c es)).
Proof.
  intros Hp Hfresh. unfold run_events. revert c Hp Hfresh.
  induction es as [|e es IH]; intros c Hp Hfresh; cbn [foldl]; [done|].
  destruct (run_event_partial c e Hp Hfresh) as [Hp' Hfresh'].
  by apply IH.
Qed.

Lemma run_event_orientation_length c e :
  length (orientation (fst (run_event c e))) = length (orientation c).
Proof.
  destruct e as [cubie|k| | |direction|p o]; cbn [run_event].
  - by rewrite (proj2 (initPicker_arrays c cubie false)).
  - destruct (picker (controls c) !! k) as [[piece [|]]|]; try done.
    destruct (handlers_for (controls c)) as [cubie|]; [|done].
    unfold button_onclick.
    rewrite (proj2 (initPicker_arrays _ cubie true)).
    cbn [with_arrays orientation]. apply js_set_length.
  - destruct (erase_disabled (controls c)); [done|].
    destruct (handlers_for (controls c)) as [cubie|]; [|done].
    unfold erase_onclick.
    by rewrite (proj2 (initPicker_arrays _ cubie true)).
  - destruct (rotate_disabled (controls c)); [done|].
    destruct (handlers_for (controls c)) as [cubie|]; [|done].
    unfold rotate_onclick.
    destruct (js_get (orientation c) _); [|done].
    cbn [fst with_arrays orientation]. apply js_set_length.
  - by rewrite (proj2 (navigateWASD_arrays c direction)).
  - done.
Qed.

Lemma run_events_orientation_length c es :
  length (orientation (run_events c es)) = length (orientation c).
Proof.
  unfold run_events. revert c.
  induction es as [|e es IH]; intros c; cbn [foldl]; [done|].
  rewrite IH. apply run_event_orientation_length.
Qed.

(** A partial placement without -1 places every piece: the edge slots hold
    the edges and the corner slots the corners. *)
Lemma partial_assignment_full (p : list Z) :
  partial_assignment p ->
  includes p (-1) = false ->
  take 12 p ≡ₚ seqZ 0 12 /\ drop 12 p ≡ₚ seqZ 12 8.
Proof.
  intros (Hlen & Hkind & Hinj) Hfull.
  apply bool_decide_eq_false in Hfull.
  assert (Hassigned : forall i v, p !! i = Some v -> v <> -1).
  { intros i v Hv ->. apply Hfull. by eapply list_elem_of_lookup_2. }
  assert (Hnodup : NoDup p).
  { apply NoDup_alt. intros i j v Hi Hj. eapply Hinj; eauto. }
  split.
  - apply submseteq_length_Permutation.
    + apply NoDup_submseteq.
      * eapply sublist_NoDup; [done|apply sublist_take].
      * intros v [i Hv]%list_elem_of_lookup_1.
        apply lookup_take_Some in Hv as [Hv Hi].
        destruct (Hkind i v Hv) as [->|Hrange];
          [by destruct (Hassigned i (-1) Hv)|].
        apply Nat.ltb_lt in Hi. rewrite Hi in Hrange.
        apply elem_of_seqZ. lia.
    + rewrite length_seqZ, length_take. lia.
  - apply submseteq_length_Permutation.
    + apply NoDup_submseteq.
      * eapply sublist_NoDup; [done|apply sublist_drop].
      * intros v [i Hv]%list_elem_of_lookup_1.
        rewrite lookup_drop in Hv.
        destruct (Hkind _ v Hv) as [->|Hrange];
          [by destruct (Hassigned _ (-1) Hv)|].
        replace (12 + i <? 12)%nat with false in Hrange
          by (symmetry; apply Nat.ltb_ge; lia).
        apply elem_of_seqZ. lia.
    + rewrite length_seqZ, length_drop. lia.
Qed.

(** X12.  A guess built with the picker that leaves no slot empty is a
    state of the pieces in their roles: the edge slots hold a permutation
    of the twelve edges, the corner slots a permutation of the eight
    corners, and every orientation is in range. *)
Theorem complete_guess_role_correct (c : cube) (es : list event) :
  partial_assignment (permutation c) ->
  picker_fresh c ->
  orientation_in_range (orientation c) ->
  length (orientation c) = 20%nat ->
  includes (permutation (run_events c es)) (-1) = false ->
  Described.role_correct
    (permutation (run_events c es) ++ orientation (run_events c es)).
Proof.
  intros Hp Hfresh Hrange Hlen Hfull.
  pose proof (run_events_partial c es Hp Hfresh) as Hpartial.
  pose proof (run_events_in_range c es Hrange) as Hrange'.
  pose proof (run_events_orientation_length c es) as Hlen'.
  rewrite Hlen in Hlen'.
  destruct (partial_assignment_full _ Hpartial Hfull) as [Hedges Hcorners].
  destruct Hpartial as (Hlenp & _).
  set (p := permutation (run_events c es)) in *.
  set (o := orientation (run_events c es)) in *.
  unfold Described.role_correct.
  split; [rewrite length_app; lia|]. split; [|split].
  - rewrite take_app_le by lia. done.
  - rewrite drop_app_le by lia.
    rewrite take_app_length' by (rewrite length_drop; lia). done.
  - rewrite drop_app_length' by lia. done.
Qed.

(** X13.  [check] never throws on a guess built with the picker: either
    the guess is turned down (the button shakes, or the game is over) or
    the projector returns its colours; the projector is reached only with
    every slot filled, and then the pieces are in their roles.  The sticker
    count of such a guess, which the statistics display asks for, returns
    as well. *)
Theorem check_never_throws_after_picker (c : cube) (es : list event)
    (verifyState : list Z -> bool) (answerColors : list string)
    (guesses : Z) :
  partial_assignment (permutation c) ->
  picker_fresh c ->
  orientation_in_range (orientation c) ->
  length (orientation c) = 20%nat ->
  let c' := run_events c es in
  (exists v guesses',
     Main.check verifyState answerColors guesses (permutation c')
       (orientation c')
     = Normal (v, guesses'))
  /\ (includes (permutation c') (-1) = false ->
      exists n,
        Main.countSolvedStickers (permutation c') (orientation c')
          answerColors
        = Normal n).
Proof.
  intros Hp Hfresh Hrange Hlen c'.
  assert (Hprojects : includes (permutation c') (-1) = false ->
            exists colors,
              Main.stateToFaceletColors (permutation c' ++ orientation c')
              = Normal colors).
  { intros Hfull.
    pose proof (run_events_partial c es Hp Hfresh) as Hpartial.
    pose proof (run_events_in_range c es Hrange) as Hrange'.
    pose proof (run_events_orientation_length c es) as Hlen'.
    rewrite Hlen in Hlen'. fold c' in Hpartial, Hrange', Hlen'.
    destruct (partial_assignment_full _ Hpartial Hfull)
      as [Hedges Hcorners].
    destruct Hpartial as (Hlenp & _).
    assert (Hcomplete : Described.complete
                          (permutation c' ++ orientation c')).
    { split; [rewrite length_app; lia|]. split.
      - rewrite take_app_length' by lia.
        rewrite <- (take_drop 12 (permutation c')), Hedges, Hcorners.
        reflexivity.
      - rewrite drop_app_length' by lia. done. }
    destruct (ProjectorFacts.complete_rows _ Hcomplete)
      as (rows & Hrows & _).
    exists (concat rows).
    apply ProjectorFacts.stateToFaceletColors_Normal. eauto. }
  split.
  - unfold Main.check.
    destruct (includes (permutation c') (-1)) eqn:Hfull; [eauto|].
    destruct (negb (verifyState _)); [eauto|].
    destruct (guesses >=? 6); [eauto|].
    destruct (Hprojects eq_refl) as [colors ->]. cbn [bind]. eauto.
  - intros Hfull. unfold Main.countSolvedStickers.
    destruct (Hprojects Hfull) as [colors ->]. cbn [bind]. eauto.
Qed.

(** *** Rotate, deselect, move *)

Lemma rotate_onclick_at cubie c o :
  js_get (orientation c) (getStateIndex (name cubie)) = Some o ->
  fst (rotate_onclick cubie c)
  = with_arrays c (permutation c)
      (js_set (orientation c) (getStateIndex (name cubie))
         (if o - 1 <? 0 then strlen (name cubie) - 1 else o - 1)).
Proof. intros Ho. unfold rotate_onclick. by rewrite Ho. Qed.

(** X14.  On a cube whose orientation array has its twenty entries, each
    in range: Rotate pressed as many times as the cubie's name has letters
    (twice for an edge, three times for a corner) brings the orientation
    array back to what it was, the permutation untouched; the slot of the
    cubie has an orientation, and one press alone changes it. *)
Theorem rotate_full_turn (cubie : Cubie) (c : cube) :
  length (orientation c) = 20%nat ->
  orientation_in_range (orientation c) ->
  0 <= getStateIndex (name cubie) ->
  let press := fun c => fst (rotate_onclick cubie c) in
  let turned := Nat.iter (Z.to_nat (strlen (name cubie))) press c in
  orientation turned = orientation c
  /\ permutation turned = permutation c
  /\ length (orientation (press c)) = 20%nat
  /\ exists o,
       js_get (orientation c) (getStateIndex (name cubie)) = Some o
       /\ js_get (orientation (press c)) (getStateIndex (name cubie))
          <> Some o.
Proof.
  intros Htwenty Hrange Hindex press turned.
  destruct (getStateIndex_kind _ Hindex) as [Hlt Hlen].
  set (i := getStateIndex (name cubie)) in *.
  destruct (js_get (orientation c) i) as [o|] eqn:Ho.
  - destruct (js_get_Z _ _ _ Ho) as [_ Hlook].
    apply Hrange in Hlook.
    assert (Hbound : 0 <= o /\ (if i <? 12 then o <= 1 else o <= 2)).
    { destruct Hlook as [Hzero Hup]. split; [done|].
      destruct (Z.to_nat i <? 12)%nat eqn:Hn;
        [apply Nat.ltb_lt in Hn|apply Nat.ltb_ge in Hn];
        destruct (i <? 12) eqn:Hz; lia. }
    clear Hlook. split; [|split; [|split]].
    + subst turned. rewrite Hlen.
      assert (Hcases : o = 0 \/ o = 1 \/ o = 2)
        by (destruct (i <? 12); lia).
      destruct (i <? 12) eqn:Hz.
      * change (Z.to_nat 2) with 2%nat. unfold Nat.iter; cbn [nat_rect].
        subst press. cbv beta.
        rewrite (rotate_onclick_at cubie c o Ho).
        set (v1 := if o - 1 <? 0 then strlen (name cubie) - 1 else o - 1).
        set (c1 := with_arrays c (permutation c) _).
        assert (Ho1 : js_get (orientation c1) i = Some v1)
          by (by eapply js_get_set_eq).
        rewrite (rotate_onclick_at cubie c1 v1 Ho1).
        subst c1. cbn [with_arrays orientation permutation].
        rewrite js_set_set. apply js_set_id.
        etransitivity; [exact Ho|]. f_equal. subst v1. rewrite Hlen.
        destruct Hcases as [->|[->| ->]]; [reflexivity|reflexivity|lia].
      * change (Z.to_nat 3) with 3%nat. unfold Nat.iter; cbn [nat_rect].
        subst press. cbv beta.
        rewrite (rotate_onclick_at cubie c o Ho).
        set (v1 := if o - 1 <? 0 then strlen (name cubie) - 1 else o - 1).
        set (c1 := with_arrays c (permutation c) _).
        assert (Ho1 : js_get (orientation c1) i = Some v1)
          by (by eapply js_get_set_eq).
        rewrite (rotate_onclick_at cubie c1 v1 Ho1).
        set (v2 := if v1 - 1 <? 0 then strlen (name cubie) - 1 else v1 - 1).
        set (c2 := with_arrays c1 (permutation c1) _).
        assert (Ho2 : js_get (orientation c2) i = Some v2)
          by (by eapply js_get_set_eq).
        rewrite (rotate_onclick_at cubie c2 v2 Ho2).
        subst c2 c1. cbn [with_arrays orientation permutation].
        rewrite !js_set_set. apply js_set_id.
        etransitivity; [exact Ho|]. f_equal. subst v2 v1. rewrite Hlen.
        by destruct Hcases as [->|[->| ->]].
    + subst turned. generalize (Z.to_nat (strlen (name cubie))).
      intros n. induction n as [|n IH]; [done|].
      change (Nat.iter (S n) press c) with (press (Nat.iter n press c)).
      unfold press at 1.
      destruct (rotate_onclick_shape cubie (Nat.iter n press c))
        as (o' & ->).
      exact IH.
    + subst press. cbv beta.
      rewrite (rotate_onclick_at cubie c o Ho).
      cbn [with_arrays orientation]. by rewrite js_set_length.
    + exists o. split; [done|]. subst press. cbv beta.
      rewrite (rotate_onclick_at cubie c o Ho).
      cbn [with_arrays orientation].
      erewrite js_get_set_eq by done.
      rewrite Hlen. intros [= Heq].
      destruct (o - 1 <? 0) eqn:H1, (i <? 12); lia.
  - destruct (js_get_is_Some_range (orientation c) i) as [o Hsome];
      [lia|congruence].
Qed.

(** X15.  A second click on the cubie just selected takes the selection
    away: the highlight is hidden, and from then on the buttons of the
    picker, erase, rotate and the keys do nothing; the guess is as it was
    before the two clicks. *)
Theorem second_click_deselects (c : cube) (cubie : Cubie) :
  isCenterName (name cubie) = false ->
  equals (position cubie) (mesh_position (selection c)) = false ->
  equals (position cubie) (position cubie) = true ->
  let c1 := fst (initPicker c cubie false) in
  let c2 := fst (initPicker c1 cubie false) in
  (visible (selection c1) = true
   /\ mesh_position (selection c1) = position cubie)
  /\ visible (selection c2) = false
  /\ permutation c2 = permutation c
  /\ orientation c2 = orientation c
  /\ forall e,
       match e with
       | ClickCubie _ | Stored _ _ => False
       | _ => True
       end ->
       run_event c2 e = (c2, None).
Proof.
  intros Hcentre Hother Hrefl c1 c2.
  assert (Hc1 : visible (selection c1) = true
                /\ mesh_position (selection c1) = position cubie).
  { subst c1. unfold initPicker. rewrite Hcentre, Hother. cbn [negb andb].
    by destruct (correct c _) as [[|]|]. }
  assert (Hc2 : exists s u,
            c2 = with_ui c1 s u /\ visible s = false
            /\ erase_disabled u = true /\ rotate_disabled u = true
            /\ picker u = []).
  { subst c2. unfold initPicker at 1. rewrite Hcentre.
    rewrite (proj2 Hc1), Hrefl. cbn [negb andb fst]. eauto 10. }
  destruct Hc2 as (s & u & Hc2 & Hs & He & Hr & Hpick).
  split; [exact Hc1|]. rewrite Hc2.
  split; [exact Hs|]. split; [|split].
  - cbn [with_ui permutation]. subst c1.
    apply (proj1 (initPicker_arrays c cubie false)).
  - cbn [with_ui orientation]. subst c1.
    apply (proj2 (initPicker_arrays c cubie false)).
  - intros [cubie'|k| | |direction|p o] He'; try contradiction;
      cbn [run_event with_ui controls].
    + by rewrite Hpick, lookup_nil.
    + by rewrite He.
    + by rewrite Hr.
    + unfold navigateWASD. cbn [with_ui selection]. by rewrite Hs.
Qed.

Lemma consider_member cubies primary orthogonal currentPos acc n m :
  fst (consider cubies primary orthogonal currentPos acc n) = Some m ->
  fst acc = Some m \/ m = n.
Proof.
  unfold consider. destruct acc as [best bestScore].
  destruct (find_cubie cubies n) as [adj|]; [|by left].
  destruct (scores _ _ _ _) as [scorePrimary scoreOrtho].
  destruct (gt scorePrimary bestScore && gt scorePrimary scoreOrtho);
    cbn [fst]; [intros [= <-]; by right|by left].
Qed.

Lemma best_candidate_member cubies primary orthogonal currentPos
    candidates m :
  fst (best_candidate cubies primary orthogonal currentPos candidates)
  = Some m ->
  m ∈ candidates.
Proof.
  unfold best_candidate.
  assert (Hloop : forall acc,
            fst (foldl (consider cubies primary orthogonal currentPos) acc
                   candidates) = Some m ->
            fst acc = Some m \/ m ∈ candidates).
  { induction candidates as [|n candidates IH]; intros acc Hm;
      cbn [foldl] in Hm; [by left|].
    destruct (IH _ Hm) as [Hacc|Hin].
    - destruct (consider_member _ _ _ _ _ _ _ Hacc) as [Hacc'| ->];
        [by left|right; by left].
    - right. by right. }
  intros Hm. by destruct (Hloop _ Hm).
Qed.

Lemma getDirectionalTarget_listed c currentCubie direction cam target :
  getDirectionalTarget c currentCubie direction cam = Some target ->
  Adjacency.listed (name currentCubie) target.
Proof.
  unfold getDirectionalTarget, Adjacency.listed.
  destruct (ADJACENCY_MAP !! name currentCubie) as [candidates|];
    [|discriminate].
  destruct (best_candidate _ _ _ _ candidates) as [best bestScore] eqn:Hbest.
  destruct (gt bestScore _); [|discriminate].
  intros ->. exists candidates. split; [done|].
  eapply best_candidate_member. by rewrite Hbest.
Qed.

(** X16.  A key never edits the guess: the two arrays, the scene, the
    camera, the answer and the storage are as before.  Either nothing
    changes at all, or the picker is set up for a cubie of the scene that
    the adjacency table lists for the selected cubie, which is of the other
    kind (an edge from a corner, a corner from an edge). *)
Theorem navigateWASD_moves_to_neighbour (c : cube) (direction : string) :
  let c' := fst (navigateWASD c direction) in
  permutation c' = permutation c
  /\ orientation c' = orientation c
  /\ same_game c c'
  /\ (navigateWASD c direction = (c, None)
      \/ exists currentCubie targetCubie,
           selected_cubie c = Some currentCubie
           /\ targetCubie ∈ savedCubies c
           /\ Adjacency.listed (name currentCubie) (name targetCubie)
           /\ Adjacency.opposite_kind (name currentCubie) (name targetCubie)
              = true
           /\ navigateWASD c direction = initPicker c targetCubie false).
Proof.
  cbv zeta.
  split; [apply navigateWASD_arrays|].
  split; [apply navigateWASD_arrays|].
  split; [apply navigateWASD_same_game|].
  destruct (navigateWASD_cases c direction)
    as [Hsame|(cur & tc & Hcur & _ & _ & Htarget & Hin & Hnav)];
    [by left|].
  right. exists cur, tc.
  apply getDirectionalTarget_listed in Htarget.
  destruct (AdjacencyFacts.listed_checked _ _ Htarget) as (Hkind & _).
  done.
Qed.

Lemma lower_ascii_idem a : lower_ascii (lower_ascii a) = lower_ascii a.
Proof. destruct a as [[] [] [] [] [] [] [] []]; reflexivity. Qed.

Lemma toLowerCase_idem s : toLowerCase (toLowerCase s) = toLowerCase s.
Proof.
  induction s as [|a s IH]; cbn [toLowerCase]; [done|].
  by rewrite lower_ascii_idem, IH.
Qed.

(** X17.  [getDirectionalTarget] reads the key without regard to case, and
    takes every key that is not w, s or d for a: such a key moves left. *)
Theorem getDirectionalTarget_reads_key (c : cube) (currentCubie : Cubie)
    (direction : string) (cam : Camera) :
  getDirectionalTarget c currentCubie (toLowerCase direction) cam
  = getDirectionalTarget c currentCubie direction cam
  /\ (toLowerCase direction ∉ ["w"; "s"; "d"] ->
      getDirectionalTarget c currentCubie direction cam
      = getDirectionalTarget c currentCubie "a" cam).
Proof.
  split.
  - unfold getDirectionalTarget. by rewrite toLowerCase_idem.
  - intros Hother. unfold getDirectionalTarget.
    change (toLowerCase "a") with "a".
    set (key := toLowerCase direction) in *.
    assert (Hw : key <> "w") by (intros ->; apply Hother; by left).
    assert (Hs : key <> "s")
      by (intros ->; apply Hother; right; by left).
    assert (Hd : key <> "d")
      by (intros ->; apply Hother; right; right; by left).
    assert (Hprimary : forall axes,
              primary_axis axes key = primary_axis axes "a").
    { intros [camRight screenUp]. unfold primary_axis, is_vertical.
      by rewrite !bool_decide_eq_false_2. }
    assert (Horthogonal : forall axes,
              orthogonal_axis axes key = orthogonal_axis axes "a").
    { intros [camRight screenUp]. unfold orthogonal_axis, is_vertical.
      by rewrite !bool_decide_eq_false_2. }
    by rewrite Hprimary, Horthogonal.
Qed.

(** *** The scene the constructor builds *)

Lemma constructor_cubies_names : map name constructor_cubies = CUBIES.
Proof. reflexivity. Qed.

Lemma find_cubie_name cubies n :
  n ∈ map name cubies -> exists cubie, find_cubie cubies n = Some cubie.
Proof.
  unfold find_cubie.
  induction cubies as [|cubie cubies IH]; cbn [map List.find].
  - by intros ?%elem_of_nil.
  - intros [->|Hin]%elem_of_cons.
    + rewrite bool_decide_eq_true_2 by done. eauto.
    + destruct (bool_decide (name cubie = n)); eauto.
Qed.

Lemma listed_piece a b : Adjacency.listed a b -> b ∈ CUBIE_ORDER.
Proof.
  intros (ns & Hns & Hb).
  assert (Hall : forallb
                   (fun kv => forallb
                      ((fun _ b => bool_decide (b ∈ CUBIE_ORDER)) (fst kv))
                      (snd kv))
                   (map_to_list ADJACENCY_MAP) = true)
    by (vm_compute; reflexivity).
  pose proof (AdjacencyFacts.forallb_entries ADJACENCY_MAP
                (fun _ b => bool_decide (b ∈ CUBIE_ORDER)) a ns b Hall Hns Hb)
    as Hin.
  by apply bool_decide_eq_true in Hin.
Qed.

(** X18.  The scene the constructor builds fits the piece order: its 27
    cubies have 27 different names; a cubie that is not a centre has a
    state index from 0 to 19 and a centre has none; every piece of the order
    is one of the cubies, and so is every neighbour the adjacency table
    lists, so the navigator finds each candidate in the scene. *)
Theorem constructor_scene_fits_order :
  NoDup (map name constructor_cubies)
  /\ length constructor_cubies = 27%nat
  /\ (forall cubie, cubie ∈ constructor_cubies ->
        if isCenterName (name cubie)
        then getStateIndex (name cubie) = -1
        else 0 <= getStateIndex (name cubie) < 20)
  /\ (forall n, n ∈ CUBIE_ORDER ->
        exists cubie,
          find_cubie constructor_cubies n = Some cubie /\ name cubie = n)
  /\ (forall a b, Adjacency.listed a b ->
        exists cubie,
          find_cubie constructor_cubies b = Some cubie /\ name cubie = b).
Proof.
  assert (Hpieces : forall n, n ∈ CUBIE_ORDER ->
            exists cubie,
              find_cubie constructor_cubies n = Some cubie
              /\ name cubie = n).
  { intros n Hn.
    destruct (find_cubie_name constructor_cubies n) as [cubie Hfind].
    - rewrite constructor_cubies_names.
      assert (Hall : forallb (fun n => bool_decide (n ∈ CUBIES))
                       CUBIE_ORDER = true) by (vm_compute; reflexivity).
      rewrite forallb_forall in Hall.
      apply list_elem_of_In, Hall in Hn. by apply bool_decide_eq_true in Hn.
    - exists cubie. split; [done|].
      unfold find_cubie in Hfind. apply find_some in Hfind as [_ Hname].
      by apply bool_decide_eq_true in Hname. }
  split; [|split; [reflexivity|split; [|split]]].
  - rewrite constructor_cubies_names.
    refine (bool_decide_unpack (NoDup CUBIES) _). vm_compute. exact I.
  - intros cubie Hin.
    assert (Hname : name cubie ∈ CUBIES).
    { rewrite <- constructor_cubies_names.
      apply list_elem_of_In, in_map, list_elem_of_In, Hin. }
    assert (Hall : forallb
                     (fun n => if isCenterName n
                               then getStateIndex n =? -1
                               else (0 <=? getStateIndex n)
                                    && (getStateIndex n <? 20))
                     CUBIES = true) by (vm_compute; reflexivity).
    rewrite forallb_forall in Hall.
    apply list_elem_of_In, Hall in Hname.
    destruct (isCenterName (name cubie)); lia.
  - exact Hpieces.
  - intros a b Hlisted. apply Hpieces. by eapply listed_piece.
Qed.

End WithThree.
(** *** Witnesses on the cube seen from the front *)

Import Exact.

Lemma solved_partial : partial_assignment (seqZ 0 20).
Proof.
  split; [reflexivity|]. split.
  - intros i v Hv. right.
    apply lookup_seqZ in Hv as [-> Hi].
    destruct (i <? 12)%nat eqn:Hlt;
      [apply Nat.ltb_lt in Hlt|apply Nat.ltb_ge in Hlt]; lia.
  - intros i j v [-> Hi]%lookup_seqZ [Hj _]%lookup_seqZ _. lia.
Qed.

Lemma no_button_fresh `{T : Three} (c : cube) :
  picker (controls c) = [] -> picker_fresh c.
Proof. intros Hnone k piece d Hk. by rewrite Hnone, lookup_nil in Hk. Qed.

Lemma zeros_range `{T : Three} (n : nat) :
  orientation_in_range (replicate n 0).
Proof. intros i v [-> _]%lookup_replicate. by destruct (i <? 12)%nat. Qed.

(** X9, witness: the session at the picker, then load. *)
Lemma load_restores_saved_witness :
  let c' := run_events (save front_cube) session in
  load c'
  = (with_arrays c' (permutation front_cube) (orientation front_cube),
     None).
Proof.
  apply (load_restores_saved (T := exact_three) front_cube session).
  reflexivity.
Defined.

(** X10, witness: the solved guess is accepted against the solved answer;
    the session then leaves the slot of UFR alone. *)
Lemma accepted_pieces_stay_witness :
  let c' := run_events (fst (accept_guess front_cube)) session in
  js_get (permutation c') 12 = js_get (permutation front_cube) 12
  /\ js_get (orientation c') 12 = js_get (orientation front_cube) 12.
Proof.
  apply (accepted_pieces_stay (T := exact_three) front_cube session 12);
    reflexivity.
Defined.

(** X11, witness: the session from the solved cube. *)
Lemma picker_keeps_partial_assignment_witness :
  partial_assignment (permutation (run_events front_cube session)).
Proof.
  apply (picker_keeps_partial_assignment (T := exact_three) front_cube
           session).
  - exact solved_partial.
  - by apply no_button_fresh.
Defined.

(** X12, witness: the session ends with every slot filled. *)
Lemma complete_guess_role_correct_witness :
  Described.role_correct
    (permutation (run_events front_cube session)
     ++ orientation (run_events front_cube session)).
Proof.
  apply (complete_guess_role_correct (T := exact_three) front_cube session).
  - exact solved_partial.
  - by apply no_button_fresh.
  - apply (zeros_range 20).
  - reflexivity.
  - vm_compute. reflexivity.
Defined.

(** X14, witness: three presses on the corner UFR. *)
Lemma rotate_full_turn_witness :
  let press := fun c => fst (rotate_onclick cubie_UFR c) in
  let turned := Nat.iter (Z.to_nat (strlen (name cubie_UFR))) press
                  front_cube in
  orientation turned = orientation front_cube
  /\ permutation turned = permutation front_cube
  /\ length (orientation (press front_cube)) = 20%nat
  /\ exists o,
       js_get (orientation front_cube) (getStateIndex (name cubie_UFR))
       = Some o
       /\ js_get (orientation (press front_cube))
            (getStateIndex (name cubie_UFR))
          <> Some o.
Proof.
  apply (rotate_full_turn (T := exact_three) cubie_UFR front_cube).
  - reflexivity.
  - apply (zeros_range 20).
  - vm_compute. discriminate.
Defined.

(** X15, witness: two clicks on UFR while the highlight is on UF. *)
Lemma second_click_deselects_witness :
  let c1 := fst (initPicker front_cube cubie_UFR false) in
  let c2 := fst (initPicker c1 cubie_UFR false) in
  (visible (selection c1) = true
   /\ mesh_position (selection c1) = position cubie_UFR)
  /\ visible (selection c2) = false
  /\ permutation c2 = permutation front_cube
  /\ orientation c2 = orientation front_cube
  /\ forall e,
       match e with
       | ClickCubie _ | Stored _ _ => False
       | _ => True
       end ->
       run_event c2 e = (c2, None).
Proof.
  apply (second_click_deselects (T := exact_three) front_cube cubie_UFR);
    vm_compute; reflexivity.
Defined.

(** X13, witness: the session, then the guess button. *)
Lemma check_never_throws_after_picker_witness :
  let c' := run_events front_cube session in
  (exists v guesses',
     Main.check Solver.verifyState [] 0 (permutation c') (orientation c')
     = Normal (v, guesses'))
  /\ (includes (permutation c') (-1) = false ->
      exists n,
        Main.countSolvedStickers (permutation c') (orientation c') []
        = Normal n).
Proof.
  apply (check_never_throws_after_picker (T := exact_three) front_cube
           session Solver.verifyState [] 0).
  - exact solved_partial.
  - by apply no_button_fresh.
  - apply (zeros_range 20).
  - reflexivity.
Defined.

End SessionFacts.

(** ** The coordinate tables and the constructor's grid *)

Module CoordinateFacts.
Import Cube3D Coordinates.

Lemma entries_are_the_table : list_to_map entries = CUBIE_COORDINATES.
Proof. reflexivity. Qed.

Lemma forallb_lookups {V} (m : gmap string V) (f : string -> V -> bool) k v :
  forallb (fun kv => f (fst kv) (snd kv)) (map_to_list m) = true ->
  m !! k = Some v -> f k v = true.
Proof.
  intros Hall Hk. rewrite forallb_forall in Hall.
  apply (Hall (k, v)), list_elem_of_In, elem_of_map_to_list, Hk.
Qed.

Lemma coordinates_checked :
  forallb (fun kv => bool_decide
                       (COORDINATE_TO_CUBIE !! join (snd kv) = Some (fst kv)))
          (map_to_list CUBIE_COORDINATES) = true.
Proof. vm_compute. reflexivity. Qed.

Lemma reverse_checked :
  forallb (fun kv => match CUBIE_COORDINATES !! snd kv with
                     | Some coords => bool_decide (fst kv = join coords)
                     | None => false
                     end)
          (map_to_list COORDINATE_TO_CUBIE) = true.
Proof. vm_compute. reflexivity. Qed.


(** X19.  The reverse map built by the static block is the inverse of the
    coordinate table: the key joined from the coordinates of a piece leads
    back to that piece, so no two pieces share coordinates, and the map has
    no other keys.  The table is the grid of the constructor with the last
    two coordinates exchanged: the cubie named at place (i, j, k) of the
    constructor's loops has the coordinates (i, k, j). *)
Theorem coordinate_tables_agree :
  (forall n coords,
     CUBIE_COORDINATES !! n = Some coords ->
     COORDINATE_TO_CUBIE !! join coords = Some n)
  /\ (forall key n,
        COORDINATE_TO_CUBIE !! key = Some n ->
        exists coords,
          CUBIE_COORDINATES !! n = Some coords /\ key = join coords)
  /\ (forall i j k n,
        0 <= i < 3 -> 0 <= j < 3 -> 0 <= k < 3 ->
        js_get Scene.CUBIES (i * 9 + j * 3 + k) = Some n ->
        isCenterName n = false ->
        CUBIE_COORDINATES !! n = Some (i, k, j)).
Proof.
  split; [|split].
  - intros n coords Hn.
    pose proof (forallb_lookups CUBIE_COORDINATES
                  (fun n coords =>
                     bool_decide (COORDINATE_TO_CUBIE !! join coords = Some n))
                  n coords coordinates_checked Hn) as Hcheck.
    by apply bool_decide_eq_true in Hcheck.
  - intros key n Hkey.
    pose proof (forallb_lookups COORDINATE_TO_CUBIE
                  (fun key n =>
                     match CUBIE_COORDINATES !! n with
                     | Some coords => bool_decide (key = join coords)
                     | None => false
                     end)
                  key n reverse_checked Hkey) as Hcheck.
    cbv beta in Hcheck.
    destruct (CUBIE_COORDINATES !! n) as [coords|]; [|discriminate].
    apply bool_decide_eq_true in Hcheck. eauto.
  - intros i j k n Hi Hj Hk Hn Hcentre.
    assert (Hall : forallb
                     (fun i => forallb
                        (fun j => forallb
                           (fun k =>
                              match js_get Scene.CUBIES (i * 9 + j * 3 + k)
                              with
                              | Some n =>
                                  isCenterName n
                                  || bool_decide
                                       (CUBIE_COORDINATES !! n
                                        = Some (i, k, j))
                              | None => false
                              end)
                           (seqZ 0 3))
                        (seqZ 0 3))
                     (seqZ 0 3) = true) by (vm_compute; reflexivity).
    rewrite forallb_forall in Hall.
    specialize (Hall i). rewrite forallb_forall in Hall.
    specialize (Hall ltac:(apply list_elem_of_In, elem_of_seqZ; lia) j).
    rewrite forallb_forall in Hall.
    specialize (Hall ltac:(apply list_elem_of_In, elem_of_seqZ; lia) k
                  ltac:(apply list_elem_of_In, elem_of_seqZ; lia)).
    cbv beta in Hall. rewrite Hn, Hcentre in Hall.
    by apply bool_decide_eq_true in Hall.
Qed.

End CoordinateFacts.

(** ** The random numbers a generation pass draws *)

Module DrawFacts.
Import Generate Draws GenerateFacts.

Section WithGenerator.
Context `{SR : SeedRandom}.

Lemma candidate_next rng : snd (candidate rng) = Nat.iter 38 next rng.
Proof.
  unfold candidate, shuffle.
  pose proof (shuffle_loop_draws
                (length [0; 1; 2; 3; 4; 5; 6; 7; 8; 9; 10; 11] - 1)
                [0; 1; 2; 3; 4; 5; 6; 7; 8; 9; 10; 11] rng) as H1.
  destruct (shuffle_loop _ [0; 1; 2; 3; 4; 5; 6; 7; 8; 9; 10; 11] rng)
    as [edgePermutation rng1].
  pose proof (shuffle_loop_draws
                (length [12; 13; 14; 15; 16; 17; 18; 19] - 1)
                [12; 13; 14; 15; 16; 17; 18; 19] rng1) as H2.
  destruct (shuffle_loop _ [12; 13; 14; 15; 16; 17; 18; 19] rng1)
    as [cornerPermutation rng2].
  pose proof (push_orientations_draws 12 2 [] rng2) as H3.
  destruct (push_orientations 12 2 [] rng2) as [orientation12 rng3].
  pose proof (push_orientations_draws 8 3 orientation12 rng3) as H4.
  destruct (push_orientations 8 3 orientation12 rng3)
    as [orientation rng4].
  cbn [fst snd length Nat.sub] in *. subst.
  change 38%nat with (8 + (12 + (7 + 11)))%nat.
  by rewrite !Nat.iter_add.
Qed.

(** X20.  Every pass of the generation loop draws exactly 38 random
    numbers, whatever their values (11 and 7 for the two shuffles, 12 and
    8 for the orientations): the candidate of pass k is the one made
    from the generator advanced 38 k times, and the generator after it is
    the one advanced 38 (k + 1) times. *)
Theorem generation_pass_draws (rng : prng) (k : nat) :
  nth_candidate k rng = candidate (Nat.iter (38 * k) next rng)
  /\ snd (nth_candidate k rng) = Nat.iter (38 * (k + 1)) next rng.
Proof.
  assert (Hnth : forall k rng,
            nth_candidate k rng = candidate (Nat.iter (38 * k) next rng)).
  { clear. intros k. induction k as [|k IH]; intros rng; [done|].
    cbn [nth_candidate]. rewrite IH, candidate_next.
    rewrite <- Nat.iter_add. do 2 f_equal. lia. }
  split; [apply Hnth|].
  rewrite Hnth, candidate_next, <- Nat.iter_add. f_equal. lia.
Qed.

End WithGenerator.

Lemma Z_toString_inj (a b : Z) : Z_toString a = Z_toString b -> a = b.
Proof.
  assert (Hnonnil : forall z, Z.to_int z <> Decimal.Pos Decimal.Nil
                              /\ Z.to_int z <> Decimal.Neg Decimal.Nil).
  { intros [|p|p]; cbn; split; try discriminate;
      intros [= Hnil]; by apply DecimalPos.Unsigned.to_uint_nonnil in Hnil. }
  unfold Z_toString. intros Heq.
  apply DecimalZ.to_int_inj.
  assert (Hparse : DecimalString.NilZero.int_of_string
                     (DecimalString.NilZero.string_of_int (Z.to_int a))
                   = DecimalString.NilZero.int_of_string
                       (DecimalString.NilZero.string_of_int (Z.to_int b)))
    by (by rewrite Heq).
  rewrite !DecimalString.NilZero.isi in Hparse
    by (apply Hnonnil). congruence.
Qed.

(** X21.  Outside daily mode the seed is the decimal form of the clock:
    two games are seeded alike exactly when they were started at the same
    millisecond. *)
Theorem trainer_seeds_differ (env1 env2 : environment) :
  isDailyMode env1 = false ->
  isDailyMode env2 = false ->
  seed_of env1 = seed_of env2 <-> now env1 = now env2.
Proof.
  unfold seed_of. intros -> ->.
  split; [apply Z_toString_inj|by intros ->].
Qed.

(** X21, witness: two trainer games one millisecond apart. *)
Lemma trainer_seeds_differ_witness :
  seed_of {| currentGameMode := TRAINER; toDateString := "Mon Nov 02 2026";
             now := 1793606400000 |}
  = seed_of {| currentGameMode := TRAINER;
               toDateString := "Mon Nov 02 2026"; now := 1793606400001 |}
  <-> 1793606400000 = 1793606400001.
Proof.
  apply (trainer_seeds_differ
           {| currentGameMode := TRAINER; toDateString := "Mon Nov 02 2026";
              now := 1793606400000 |}
           {| currentGameMode := TRAINER; toDateString := "Mon Nov 02 2026";
              now := 1793606400001 |}); reflexivity.
Defined.

(** *** Every arrangement can come out of the shuffle *)

Lemma scripted_floor_in_range :
  floor_times_in_range (H := Scripted.scripted_random).
Proof.
  intros x n Hn. cbn [floor_times Scripted.scripted_random].
  apply Z.mod_pos_bound. lia.
Qed.

Lemma shuffle_loop_reaches (n : nat) : forall array target : list Z,
  (n < length array)%nat ->
  length target = length array ->
  take (S n) array ≡ₚ take (S n) target ->
  drop (S n) array = drop (S n) target ->
  exists script : list Z,
    length script = n
    /\ fst (shuffle_loop (SR := Scripted.scripted_random) n array script)
       = target.
Proof.
  induction n as [|m IH]; intros array target Hn Hlen Hperm Hrest.
  - exists []. split; [done|]. cbn [shuffle_loop fst].
    rewrite <- (take_drop 1 array), <- (take_drop 1 target), Hrest.
    f_equal.
    destruct array as [|a array], target as [|b target];
      cbn [length] in *; try lia.
    cbn [take] in *. f_equal. by apply Permutation_length_1.
  - destruct (lookup_lt_is_Some_2 target (S m)) as [t Ht]; [lia|].
    destruct (lookup_lt_is_Some_2 array (S m)) as [ai Hai]; [lia|].
    assert (Hin : t ∈ take (S (S m)) array).
    { rewrite Hperm. apply (list_elem_of_lookup_2 _ (S m)).
      apply lookup_take_Some. split; [done|lia]. }
    apply list_elem_of_lookup_1 in Hin as [j Hj].
    apply lookup_take_Some in Hj as [Hj Hjlt].
    set (array' := <[j := ai]> (<[S m := t]> array)).
    assert (Hlen' : length array' = length array)
      by (subst array'; by rewrite !length_insert).
    assert (Hlast : array' !! S m = Some t).
    { subst array'. destruct (decide (j = S m)) as [->|Hne].
      - assert (ai = t) as -> by congruence.
        apply list_lookup_insert_eq. rewrite length_insert. lia.
      - rewrite list_lookup_insert_ne by done.
        apply list_lookup_insert_eq. lia. }
    assert (Hdrop : drop (S (S m)) array' = drop (S (S m)) array)
      by (subst array'; rewrite !drop_insert_lt by lia; done).
    assert (Hswap : array' ≡ₚ array)
      by (subst array'; by apply GenerateFacts.exchange_Permutation).
    assert (Htake : take (S (S m)) array' ≡ₚ take (S (S m)) array).
    { apply (Permutation_app_inv_r (drop (S (S m)) array)).
      rewrite <- Hdrop at 1. by rewrite !take_drop. }
    destruct (IH array' target) as (script & Hscript & Hreach).
    + lia.
    + congruence.
    + apply (Permutation_app_inv_r [t]).
      rewrite <- (take_S_r array' (S m) t Hlast).
      rewrite <- (take_S_r target (S m) t Ht).
      by rewrite Htake.
    + rewrite (drop_S array' t (S m) Hlast), (drop_S target t (S m) Ht).
      by rewrite Hdrop, Hrest.
    + exists (Z.of_nat j :: script). split; [cbn [length]; lia|].
      cbn [shuffle_loop rng_call floor_times Scripted.scripted_random].
      replace (Z.of_nat j mod (Z.of_nat (S m) + 1)) with (Z.of_nat j)
        by (symmetry; apply Z.mod_small; lia).
      rewrite (swap_nat array (S m) j ai t Hai Hj). exact Hreach.
Qed.

(** X22.  The shuffle can return every arrangement of its array: for each
    permutation of the array there are draws, one for each step of the
    loop, with which [shuffle] returns that permutation. *)
Theorem shuffle_reaches_every_arrangement (array target : list Z) :
  target ≡ₚ array ->
  exists script : list Z,
    length script = (length array - 1)%nat
    /\ fst (shuffle (SR := Scripted.scripted_random) array script) = target.
Proof.
  intros Hperm. unfold shuffle.
  pose proof (Permutation_length Hperm) as Hlen.
  destruct array as [|a array].
  - apply Permutation_nil_r in Hperm as ->. by exists [].
  - cbn [length Nat.sub] in *. rewrite Nat.sub_0_r.
    apply shuffle_loop_reaches.
    + cbn [length]. lia.
    + done.
    + rewrite !take_ge by (cbn [length]; lia). by symmetry.
    + rewrite !drop_ge by (cbn [length]; lia). done.
Qed.

(** X22, witness: an arrangement of four numbers. *)
Lemma shuffle_reaches_every_arrangement_witness :
  exists script : list Z,
    length script = (length [0; 1; 2; 3] - 1)%nat
    /\ fst (shuffle (SR := Scripted.scripted_random) [0; 1; 2; 3] script)
       = [2; 0; 3; 1].
Proof.
  apply (shuffle_reaches_every_arrangement [0; 1; 2; 3] [2; 0; 3; 1]).
  refine (bool_decide_unpack ([2; 0; 3; 1] ≡ₚ [0; 1; 2; 3]) _).
  vm_compute. exact I.
Defined.

End DrawFacts.

(** ** The sticker metric at its top value *)

Module StickerFacts.
Import Cube3D Main Described ProjectorFacts.

Lemma role_correct_projects state :
  role_correct state ->
  exists colors,
    stateToFaceletColors state = Normal colors
    /\ length colors = 54%nat
    /\ forall (f : nat) face,
         chars "ULFRBD" !! f = Some face ->
         colors !! (9 * f + 4)%nat = Some face.
Proof.
  intros Hc%role_correct_complete.
  destruct (complete_rows state Hc) as (rows & Hrows & Hlen & _).
  assert (Hcolors : stateToFaceletColors state = Normal (concat rows))
    by (apply stateToFaceletColors_Normal; eauto).
  exists (concat rows). split; [done|]. split.
  - rewrite (length_concat_rows rows Hlen).
    apply Forall2_length in Hrows. rewrite <- Hrows. reflexivity.
  - intros f face Hf.
    destruct (face_checked face) as (facelets & Hfl & Hnine & _);
      [by eapply list_elem_of_lookup_2|].
    destruct (lookup_lt_is_Some_2 facelets 4) as [facelet Hfacelet]; [lia|].
    by rewrite (complete_color_at state (concat rows) f 4 face facelet
                  facelets Hc Hcolors Hf Hfl Hfacelet).
Qed.

Lemma filter_both_length {A} (P Q : A -> Prop)
    `{forall x, Decision (P x)} `{forall x, Decision (Q x)} (l : list A) :
  (length (filter (fun x => P x /\ Q x) l) <= length (filter P l))%nat
  /\ (length (filter (fun x => P x /\ Q x) l) = length (filter P l)
      <-> forall x, x ∈ l -> P x -> Q x).
Proof.
  induction l as [|a l [IHle IH]]; [split; [done|]|].
  - split; [by intros _ x ?%elem_of_nil|done].
  - rewrite !filter_cons.
    destruct (decide (P a)) as [HP|HP], (decide (P a /\ Q a)) as [HPQ|HPQ];
      cbn [length]; try tauto.
    + split; [lia|]. split.
      * intros Hlen x [->|Hx]%elem_of_cons HPx; [tauto|].
        apply IH; [lia|done|done].
      * intros Hall. f_equal. apply IH. intros x Hx. apply Hall.
        by apply elem_of_cons; right.
    + split; [lia|]. split; [lia|].
      intros Hall. destruct HPQ. split; [done|].
      apply Hall; [by apply elem_of_cons; left|done].
    + split; [done|]. rewrite IH. split.
      * intros Hall x [->|Hx]%elem_of_cons HPx; [done|by apply Hall].
      * intros Hall x Hx. apply Hall. by apply elem_of_cons; right.
Qed.

(** X23.  For a guess and an answer with the pieces in their roles, the
    sticker count is 54 exactly when the guess is the answer. *)
Theorem all_stickers_iff_solved
    (cube_permutation cube_orientation answerState : list Z)
    (answerColors : list string) :
  role_correct (cube_permutation ++ cube_orientation) ->
  role_correct answerState ->
  stateToFaceletColors answerState = Normal answerColors ->
  countSolvedStickers cube_permutation cube_orientation answerColors
  = Normal 54
  <-> cube_permutation ++ cube_orientation = answerState.
Proof.
  intros Ha Hb Hanswer.
  destruct (role_correct_projects _ Ha) as (current & Hcur & Hlc & Hcc).
  destruct (role_correct_projects _ Hb) as (answer & Hans & Hla & Hca).
  assert (answer = answerColors) as -> by congruence.
  unfold countSolvedStickers. rewrite Hcur. cbn [JS.bind].
  rewrite count_loop
    by (apply Forall_forall; intros i Hi%elem_of_seqZ; lia).
  destruct (filter_both_length
              (fun i => i mod 9 <> 4)
              (fun i => current !! Z.to_nat i = answerColors !! Z.to_nat i)
              (seqZ 0 54)) as [_ Hall].
  assert (Hcentres : length (filter (fun i => i mod 9 <> 4) (seqZ 0 54))
                     = 48%nat) by (vm_compute; reflexivity).
  rewrite Hcentres in Hall.
  split.
  - intros [= Hcount].
    assert (Hmatch : forall i, i ∈ seqZ 0 54 -> i mod 9 <> 4 ->
              current !! Z.to_nat i = answerColors !! Z.to_nat i)
      by (apply Hall; lia).
    assert (Hsame : current = answerColors).
    { apply list_eq. intros n.
      destruct (decide (n < 54)%nat) as [Hlt|Hge];
        [|by rewrite !lookup_ge_None_2 by lia].
      destruct (decide (Z.of_nat n mod 9 = 4)) as [Hcentre|Hother].
      - assert (Hn : n = (9 * (n / 9) + 4)%nat).
        { pose proof (Nat.div_mod_eq n 9) as Hdiv.
          assert (Hmod : (n mod 9 = 4)%nat).
          { apply Nat2Z.inj. rewrite Nat2Z.inj_mod. exact Hcentre. }
          lia. }
        destruct (lookup_lt_is_Some_2 (chars "ULFRBD") (n / 9))
          as [face Hface].
        { change (length (chars "ULFRBD")) with 6%nat.
          apply Nat.Div0.div_lt_upper_bound. lia. }
        rewrite Hn, (Hcc _ _ Hface), (Hca _ _ Hface). done.
      - specialize (Hmatch (Z.of_nat n)). rewrite Nat2Z.id in Hmatch.
        apply Hmatch; [apply elem_of_seqZ; lia|done]. }
    subst current.
    apply equal_slots_equal_states;
      [by destruct Ha|by destruct Hb|].
    by apply (equal_colors_equal_slots _ _ answerColors).
  - intros <-. assert (current = answerColors) as -> by congruence.
    do 2 f_equal.
    assert (Hcount : length (filter (fun i => i mod 9 <> 4
                               /\ answerColors !! Z.to_nat i
                                  = answerColors !! Z.to_nat i) (seqZ 0 54))
                     = 48%nat) by (by apply Hall).
    rewrite Hcount. reflexivity.
Qed.

(** X23, witness: the solved guess against the solved answer. *)
Lemma all_stickers_iff_solved_witness :
  countSolvedStickers (seqZ 0 20) (replicate 20 0)
    (chars "UUUUUUUUULLLLLLLLLFFFFFFFFFRRRRRRRRRBBBBBBBBBDDDDDDDDD")
  = Normal 54
  <-> seqZ 0 20 ++ replicate 20 0 = solved_state.
Proof.
  apply (all_stickers_iff_solved (seqZ 0 20) (replicate 20 0) solved_state
           (chars "UUUUUUUUULLLLLLLLLFFFFFFFFFRRRRRRRRRBBBBBBBBBDDDDDDDDD")).
  - exact solved_state_role_correct.
  - exact solved_state_role_correct.
  - vm_compute. reflexivity.
Defined.

End StickerFacts.

(** ** Every state of the pieces in their roles can be entered *)

Module EnteringFacts.
Import Cube3D Scene Entering ArrayFacts.

Lemma lookup_map {A B} (f : A -> B) (l : list A) (k : nat) :
  map f l !! k = f <$> l !! k.
Proof.
  revert k. induction l as [|a l IH]; intros [|k]; try done. apply IH.
Qed.

Lemma slots_named : forall (i : nat) (n : string),
  CUBIE_ORDER !! i = Some n ->
  isCenterName n = false
  /\ getStateIndex n = Z.of_nat i
  /\ (strlen n =? 2) = (i <? 12)%nat
  /\ strlen n = (if (i <? 12)%nat then 2 else 3)
  /\ pieces_of i !! button_of (pieces_of i) n = Some n.
Proof.
  intros i n Hn.
  assert (Hall : forallb
                   (fun i =>
                      match CUBIE_ORDER !! i with
                      | Some n =>
                          negb (isCenterName n)
                          && (getStateIndex n =? Z.of_nat i)
                          && Bool.eqb (strlen n =? 2) (i <? 12)%nat
                          && (strlen n =? if (i <? 12)%nat then 2 else 3)
                          && bool_decide
                               (pieces_of i !! button_of (pieces_of i) n
                                = Some n)
                      | None => false
                      end)
                   (seq 0 20) = true) by (vm_compute; reflexivity).
  rewrite forallb_forall in Hall.
  assert (Hi : (i < 20)%nat) by (by apply lookup_lt_Some in Hn).
  specialize (Hall i ltac:(apply in_seq; lia)). rewrite Hn in Hall.
  rewrite !andb_true_iff, negb_true_iff, !Z.eqb_eq, Bool.eqb_true_iff,
    bool_decide_eq_true in Hall.
  tauto.
Qed.

Section WithThree.
Context `{T : Three}.
Variable cubie_at : nat -> Cubie.
Hypothesis names : forall i, (i < 20)%nat ->
  CUBIE_ORDER !! i = Some (name (cubie_at i)).
Hypothesis apart : forall i j, (i < 20)%nat -> (j < 20)%nat -> i <> j ->
  equals (position (cubie_at i)) (position (cubie_at j)) = false.

Lemma correct_unstored c index :
  stored_permutation c = None -> correct c index = Normal false.
Proof. intros Hnone. unfold correct. by rewrite Hnone. Qed.

(** [initPicker] for the cubie of a slot, with nothing stored, when it
    does not toggle the highlight off. *)
Lemma initPicker_edits c i keepSelection :
  (i < 20)%nat ->
  stored_permutation c = None ->
  negb keepSelection
  && equals (position (cubie_at i)) (mesh_position (selection c)) = false ->
  let c' := fst (initPicker c (cubie_at i) keepSelection) in
  editing cubie_at c' i
  /\ permutation c' = permutation c
  /\ orientation c' = orientation c
  /\ stored_permutation c' = None.
Proof.
  intros Hi Hnone Htoggle. cbv zeta.
  destruct (slots_named i _ (names i Hi)) as (Hcentre & Hindex & Hlen & _ & _).
  unfold initPicker. rewrite Hcentre, Htoggle.
  rewrite (correct_unstored c _ Hnone).
  cbn [fst with_ui permutation orientation stored_permutation].
  split; [|done].
  unfold editing.
  cbn [with_ui controls handlers_for erase_disabled rotate_disabled picker
       selection mesh_position permutation].
  repeat split. unfold pieces_of. by rewrite Hlen.
Qed.

Lemma select_edits c i :
  (i < 20)%nat ->
  stored_permutation c = None ->
  equals (position (cubie_at i)) (mesh_position (selection c)) = false ->
  let c' := fst (run_event c (ClickCubie (cubie_at i))) in
  editing cubie_at c' i
  /\ permutation c' = permutation c
  /\ orientation c' = orientation c
  /\ stored_permutation c' = None.
Proof.
  intros Hi Hnone Haway. cbn [run_event].
  apply initPicker_edits; [done|done|]. by rewrite Haway.
Qed.

Lemma erase_edits c i :
  (i < 20)%nat ->
  stored_permutation c = None ->
  editing cubie_at c i ->
  let c' := fst (run_event c ClickErase) in
  editing cubie_at c' i
  /\ permutation c' = <[i := -1]> (permutation c)
  /\ orientation c' = orientation c
  /\ stored_permutation c' = None.
Proof.
  intros Hi Hnone (Hfor & Herase & _). cbv zeta. cbn [run_event].
  rewrite Herase, Hfor. unfold erase_onclick.
  destruct (slots_named i _ (names i Hi)) as (_ & Hindex & _).
  rewrite Hindex.
  destruct (initPicker_edits
              (with_arrays c (js_set (permutation c) (Z.of_nat i) (-1))
                 (orientation c)) i true Hi Hnone eq_refl)
    as (Hedit & Hp & Ho & Hs).
  split; [exact Hedit|]. split; [|split; [exact Ho|exact Hs]].
  rewrite Hp. cbn [with_arrays permutation]. unfold js_set.
  rewrite decide_True by lia. by rewrite Nat2Z.id.
Qed.

Lemma place_edits c i v piece :
  (i < 20)%nat ->
  stored_permutation c = None ->
  editing cubie_at c i ->
  CUBIE_ORDER !! Z.to_nat v = Some piece ->
  0 <= v ->
  ((Z.to_nat v <? 12) = (i <? 12))%nat ->
  v ∉ permutation c ->
  let c' := fst (run_event c
                   (ClickPiece (button_of (pieces_of i) piece))) in
  editing cubie_at c' i
  /\ permutation c' = <[i := v]> (permutation c)
  /\ orientation c' = <[i := 0]> (orientation c)
  /\ stored_permutation c' = None.
Proof.
  intros Hi Hnone (Hfor & _ & _ & Hpicker & _) Hpiece Hv Hkind Hfree.
  cbv zeta. cbn [run_event].
  destruct (slots_named _ _ Hpiece) as (_ & Hpi & _ & _ & Hbutton).
  assert (Hpieces : pieces_of (Z.to_nat v) = pieces_of i)
    by (unfold pieces_of; by rewrite Hkind).
  rewrite Hpieces in Hbutton.
  rewrite Hpicker, Hfor.
  assert (Hlook : map (fun piece0 =>
                         (piece0,
                          includes (permutation c) (getStateIndex piece0)))
                      (pieces_of i)
                  !! button_of (pieces_of i) piece
                  = Some (piece, false)).
  { rewrite lookup_map, Hbutton. cbn [fmap option_fmap option_map].
    rewrite Hpi, Z2Nat.id by done.
    unfold includes. by rewrite bool_decide_eq_false_2. }
  rewrite Hlook. unfold button_onclick.
  destruct (slots_named i _ (names i Hi)) as (_ & Hindex & _).
  rewrite Hindex, Hpi, Z2Nat.id by done.
  destruct (initPicker_edits
              (with_arrays c (js_set (permutation c) (Z.of_nat i) v)
                 (js_set (orientation c) (Z.of_nat i) 0))
              i true Hi Hnone eq_refl)
    as (Hedit & Hp & Ho & Hs).
  split; [exact Hedit|]. split; [|split; [|exact Hs]].
  - rewrite Hp. cbn [with_arrays permutation]. unfold js_set.
    rewrite decide_True by lia. by rewrite Nat2Z.id.
  - rewrite Ho. cbn [with_arrays orientation]. unfold js_set.
    rewrite decide_True by lia. by rewrite Nat2Z.id.
Qed.

Lemma rotate_edits c i w :
  (i < 20)%nat ->
  editing cubie_at c i ->
  orientation c !! i = Some w ->
  let c' := fst (run_event c ClickRotate) in
  editing cubie_at c' i
  /\ permutation c' = permutation c
  /\ orientation c' = <[i := turn i w]> (orientation c)
  /\ stored_permutation c' = stored_permutation c.
Proof.
  intros Hi Hedit Hw. cbv zeta. cbn [run_event].
  destruct Hedit as (Hfor & Herase & Hrotate & Hpicker & Hsel).
  rewrite Hrotate, Hfor. unfold rotate_onclick.
  destruct (slots_named i _ (names i Hi)) as (_ & Hindex & _ & Hlen & _).
  rewrite Hindex, js_get_nat, Hw, Hlen.
  cbn [fst with_arrays permutation orientation stored_permutation].
  split; [by repeat split|]. split; [done|]. split; [|done].
  unfold js_set, turn. rewrite decide_True by lia. by rewrite Nat2Z.id.
Qed.

Lemma rotates_edit (r : nat) : forall c i w,
  (i < 20)%nat ->
  editing cubie_at c i ->
  orientation c !! i = Some w ->
  let c' := run_events c (replicate r ClickRotate) in
  editing cubie_at c' i
  /\ permutation c' = permutation c
  /\ orientation c' = <[i := Nat.iter r (turn i) w]> (orientation c)
  /\ stored_permutation c' = stored_permutation c.
Proof.
  unfold run_events.
  induction r as [|r IH]; intros c i w Hi Hedit Hw; cbv zeta.
  - cbn [replicate foldl].
    split; [done|]. split; [done|]. split; [|done].
    change (Nat.iter 0 (turn i) w) with w. symmetry.
    by apply list_insert_id.
  - cbn [replicate foldl].
    destruct (rotate_edits c i w Hi Hedit Hw) as (Hedit1 & Hp1 & Ho1 & Hs1).
    destruct (IH (fst (run_event c ClickRotate)) i (turn i w) Hi Hedit1)
      as (Hedit' & Hp' & Ho' & Hs').
    { rewrite Ho1. apply list_lookup_insert_eq.
      by eapply lookup_lt_Some. }
    split; [exact Hedit'|]. split; [congruence|]. split; [|congruence].
    rewrite Ho', Ho1, list_insert_insert_eq.
    by rewrite Nat.iter_succ_r.
Qed.

Lemma presses_turn (i : nat) (v w : Z) :
  fits i v w -> Nat.iter (presses i w) (turn i) 0 = w.
Proof.
  unfold fits, presses, turn. destruct (i <? 12)%nat; intros [_ Hw].
  - assert (w = 0 \/ w = 1) as [->| ->] by lia; reflexivity.
  - assert (w = 0 \/ w = 1 \/ w = 2) as [->|[->| ->]] by lia; reflexivity.
Qed.

Lemma run_events_app c es1 es2 :
  run_events c (es1 ++ es2) = run_events (run_events c es1) es2.
Proof. unfold run_events. apply foldl_app. Qed.

Lemma run_events_cons c e es :
  run_events c (e :: es) = run_events (fst (run_event c e)) es.
Proof. reflexivity. Qed.

Lemma take_S_insert (l : list Z) (i : nat) (x : Z) :
  (i < length l)%nat -> take (S i) (<[i := x]> l) = take i l ++ [x].
Proof.
  intros Hi.
  rewrite (take_S_r _ i x) by (by apply list_lookup_insert_eq).
  by rewrite take_insert_ge.
Qed.

(** The first pass: the slots from [i] on are erased one after the
    other. *)
Lemma erase_slots_spec (n : nat) : forall i c,
  (i + n <= 20)%nat ->
  stored_permutation c = None ->
  length (permutation c) = 20%nat ->
  ((0 < n)%nat ->
   equals (position (cubie_at i)) (mesh_position (selection c)) = false) ->
  take i (permutation c) = replicate i (-1) ->
  let c' := run_events c (erase_slots cubie_at i n) in
  stored_permutation c' = None
  /\ length (permutation c') = 20%nat
  /\ take (i + n) (permutation c') = replicate (i + n) (-1)
  /\ orientation c' = orientation c
  /\ ((0 < n)%nat ->
      mesh_position (selection c') = position (cubie_at (i + n - 1))).
Proof.
  induction n as [|n IH]; intros i c Hin Hnone Hlen Haway Htake; cbv zeta.
  - cbn [erase_slots]. change (run_events c []) with c.
    rewrite Nat.add_0_r. repeat split; try done. lia.
  - cbn [erase_slots erase_slot app]. rewrite !run_events_cons.
    destruct (select_edits c i) as (Hedit1 & Hp1 & Ho1 & Hs1);
      [lia|done|apply Haway; lia|].
    set (c1 := fst (run_event c (ClickCubie (cubie_at i)))) in *.
    destruct (erase_edits c1 i) as (Hedit2 & Hp2 & Ho2 & Hs2);
      [lia|done|done|].
    set (c2 := fst (run_event c1 ClickErase)) in *.
    destruct (IH (S i) c2) as (Hs' & Hl' & Ht' & Ho' & Hm').
    + lia.
    + done.
    + by rewrite Hp2, length_insert, Hp1.
    + intros Hn. destruct Hedit2 as (_ & _ & _ & _ & ->).
      apply apart; lia.
    + rewrite Hp2, Hp1, take_S_insert by lia.
      by rewrite Htake, replicate_S_end.
    + replace (i + S n)%nat with (S i + n)%nat by lia.
      split; [done|]. split; [done|]. split; [done|].
      split; [congruence|]. intros _.
      destruct n as [|n].
      * cbn [erase_slots]. change (run_events c2 []) with c2.
        destruct Hedit2 as (_ & _ & _ & _ & ->).
        by replace (S i + 0 - 1)%nat with i by lia.
      * rewrite Hm' by lia. done.
Qed.

Lemma elem_of_insert_inv (l : list Z) (i : nat) (x y : Z) :
  y ∈ <[i := x]> l -> y = x \/ y ∈ l.
Proof.
  intros [j Hj]%list_elem_of_lookup_1.
  apply list_lookup_insert_Some in Hj as [(_ & -> & _)|[_ Hj]];
    [by left|right; by eapply list_elem_of_lookup_2].
Qed.

(** The second pass: the slots from [i] on are filled one after the other
    with the pieces [p] turned to the orientations [o]. *)
Lemma enter_slots_spec (p : list Z) : forall o i c,
  length o = length p ->
  (i + length p = 20)%nat ->
  stored_permutation c = None ->
  length (permutation c) = 20%nat ->
  length (orientation c) = 20%nat ->
  (p <> [] ->
   equals (position (cubie_at i)) (mesh_position (selection c)) = false) ->
  (forall k v w, p !! k = Some v -> o !! k = Some w -> fits (i + k) v w) ->
  NoDup p ->
  (forall v, v ∈ p -> v ∉ permutation c) ->
  let c' := run_events c (enter_slots cubie_at i p o) in
  permutation c' = take i (permutation c) ++ p
  /\ orientation c' = take i (orientation c) ++ o.
Proof.
  induction p as [|v p IH];
    intros o i c Hlo Hi Hnone Hlp Hlor Haway Hfits Hdup Hfree; cbv zeta.
  - destruct o; [|discriminate]. cbn [enter_slots length] in *.
    change (run_events c []) with c.
    rewrite !take_ge, !app_nil_r by lia. done.
  - destruct o as [|w o]; [discriminate|]. cbn [length] in *.
    pose proof (Hfits 0%nat v w eq_refl eq_refl) as Hfit.
    rewrite Nat.add_0_r in Hfit.
    assert (Hv : 0 <= v < 20
                 /\ ((Z.to_nat v <? 12) = (i <? 12))%nat).
    { unfold fits in Hfit. destruct (i <? 12)%nat eqn:Hk.
      - split; [lia|]. apply Nat.ltb_lt. lia.
      - split; [lia|]. apply Nat.ltb_ge. lia. }
    destruct Hv as [Hv Hkind].
    destruct (lookup_lt_is_Some_2 CUBIE_ORDER (Z.to_nat v)) as [piece Hpiece].
    { change (length CUBIE_ORDER) with 20%nat. lia. }
    cbn [enter_slots]. unfold enter_slot. rewrite Hpiece.
    cbn [app]. rewrite !run_events_cons, run_events_app.
    destruct (select_edits c i) as (Hedit1 & Hp1 & Ho1 & Hs1);
      [lia|done|by apply Haway|].
    set (c1 := fst (run_event c (ClickCubie (cubie_at i)))) in *.
    destruct (place_edits c1 i v piece) as (Hedit2 & Hp2 & Ho2 & Hs2);
      [lia|done|done|done|lia|done| |].
    { rewrite Hp1. apply Hfree. by left. }
    set (c2 := fst (run_event c1 (ClickPiece _))) in *.
    destruct (rotates_edit (presses i w) c2 i 0)
      as (Hedit3 & Hp3 & Ho3 & Hs3); [lia|done| |].
    { rewrite Ho2. apply list_lookup_insert_eq. rewrite Ho1. lia. }
    set (c3 := run_events c2 _) in *.
    rewrite (presses_turn i v w Hfit) in Ho3.
    rewrite Ho2, list_insert_insert_eq, Ho1 in Ho3.
    rewrite Hp2, Hp1 in Hp3.
    apply NoDup_cons in Hdup as [Hvp Hdup].
    destruct (IH o (S i) c3) as [Hp' Ho'].
    + lia.
    + lia.
    + congruence.
    + by rewrite Hp3, length_insert.
    + by rewrite Ho3, length_insert.
    + intros Hne. destruct Hedit3 as (_ & _ & _ & _ & ->).
      apply apart; [|lia|lia].
      destruct p; [done|]. cbn [length] in Hi. lia.
    + intros k v' w' Hk Hw'.
      replace (S i + k)%nat with (i + S k)%nat by lia.
      by apply Hfits.
    + done.
    + intros v' Hv' Hin. rewrite Hp3 in Hin.
      apply elem_of_insert_inv in Hin as [->|Hin]; [done|].
      apply (Hfree v'); [by right|done].
    + split.
      * rewrite Hp', Hp3, take_S_insert by lia.
        by rewrite <- app_assoc.
      * rewrite Ho', Ho3, take_S_insert by lia.
        by rewrite <- app_assoc.
Qed.

(** X24.  With no guess stored, so that no slot is locked, every state
    with the pieces in their roles can be entered at the picker: erase the
    twenty slots one after the other, then for each slot select its cubie,
    press the button of its piece and press rotate until the orientation is
    the wanted one. *)
Theorem picker_reaches_every_state (c : cube) (state : list Z) :
  Described.role_correct state ->
  stored_permutation c = None ->
  length (permutation c) = 20%nat ->
  length (orientation c) = 20%nat ->
  equals (position (cubie_at 0)) (mesh_position (selection c)) = false ->
  let c' := run_events c (enter_state cubie_at state) in
  permutation c' ++ orientation c' = state.
Proof.
  intros (Hlen & Hedges & Hcorners & Hrange) Hnone Hlp Hlo Haway. cbv zeta.
  unfold enter_state. rewrite run_events_app.
  destruct (erase_slots_spec 20 0 c) as (Hs1 & Hl1 & Ht1 & Ho1 & Hm1);
    [lia|done|done|done|done|].
  set (c1 := run_events c (erase_slots cubie_at 0 20)) in *.
  cbn [Nat.add] in Ht1. rewrite take_ge in Ht1 by lia.
  assert (Hp : take 20 state ≡ₚ seqZ 0 20).
  { change 20%nat with (12 + 8)%nat.
    rewrite <- take_take_drop, Hedges, Hcorners. done. }
  destruct (enter_slots_spec (take 20 state) (drop 20 state) 0 c1)
    as [Hp' Ho'].
  - rewrite length_take, length_drop. lia.
  - rewrite length_take. lia.
  - done.
  - done.
  - congruence.
  - intros _. rewrite Hm1 by lia. apply apart; lia.
  - intros k v w Hv Hw. cbn [Nat.add].
    assert (Hk : (k < 20)%nat).
    { apply lookup_lt_Some in Hv. rewrite length_take in Hv. lia. }
    apply Hrange in Hw. unfold fits.
    rewrite lookup_take in Hv. rewrite decide_True in Hv by done.
    destruct (k <? 12)%nat eqn:Hkind.
    + apply Nat.ltb_lt in Hkind. split; [|lia].
      assert (Hin : v ∈ take 12 state).
      { apply (list_elem_of_lookup_2 _ k). rewrite lookup_take.
        by rewrite decide_True by done. }
      rewrite Hedges in Hin. apply elem_of_seqZ in Hin. lia.
    + apply Nat.ltb_ge in Hkind. split; [|lia].
      assert (Hin : v ∈ take 8 (drop 12 state)).
      { apply (list_elem_of_lookup_2 _ (k - 12)).
        rewrite lookup_take, decide_True by lia.
        rewrite lookup_drop. by replace (12 + (k - 12))%nat with k by lia. }
      rewrite Hcorners in Hin. apply elem_of_seqZ in Hin. lia.
  - rewrite Hp. apply NoDup_seqZ.
  - intros v Hv. rewrite Hp in Hv. apply elem_of_seqZ in Hv.
    rewrite Ht1. intros [-> _]%elem_of_replicate. lia.
  - rewrite Hp', Ho'. cbn [take app]. apply take_drop.
Qed.

End WithThree.

Lemma constructed_names `{T : Three} (i : nat) :
  (i < 20)%nat -> CUBIE_ORDER !! i = Some (name (constructed i)).
Proof.
  intros Hi.
  destruct (lookup_lt_is_Some_2 CUBIE_ORDER i) as [n Hn]; [done|].
  unfold constructed. rewrite Hn. f_equal.
  destruct (SessionFacts.find_cubie_name constructor_cubies n)
    as [cubie Hfind].
  - rewrite SessionFacts.constructor_cubies_names.
    assert (Hall : forallb (fun n => bool_decide (n ∈ CUBIES))
                     CUBIE_ORDER = true) by (vm_compute; reflexivity).
    rewrite forallb_forall in Hall.
    apply list_elem_of_lookup_2, list_elem_of_In, Hall in Hn.
    by apply bool_decide_eq_true in Hn.
  - rewrite Hfind. cbn [default from_option id].
    apply find_some in Hfind as [_ Hname].
    by apply bool_decide_eq_true in Hname.
Qed.

Lemma constructed_apart (i j : nat) :
  (i < 20)%nat -> (j < 20)%nat -> i <> j ->
  equals (Three := Exact.exact_three)
    (position (constructed i)) (position (constructed j)) = false.
Proof.
  intros Hi Hj Hne.
  assert (Hall : forallb
                   (fun i => forallb
                      (fun j => (i =? j)%nat
                                || negb (equals (Three := Exact.exact_three)
                                           (position (constructed i))
                                           (position (constructed j))))
                      (seq 0 20))
                   (seq 0 20) = true) by (vm_compute; reflexivity).
  rewrite forallb_forall in Hall.
  specialize (Hall i ltac:(apply in_seq; lia)).
  rewrite forallb_forall in Hall.
  specialize (Hall j ltac:(apply in_seq; lia)).
  apply orb_true_iff in Hall as [Heq%Nat.eqb_eq|Hneq]; [done|].
  by apply negb_true_iff in Hneq.
Qed.

(** X24, witness: the solved cube with two edges exchanged, entered on the
    cube the constructor builds. *)
Lemma picker_reaches_every_state_witness :
  let c' := run_events (Exact.cube_at Exact.front_camera (0, 0, 0)%Q)
              (enter_state constructed Described.swapped_state) in
  permutation c' ++ orientation c' = Described.swapped_state.
Proof.
  apply (picker_reaches_every_state (T := Exact.exact_three) constructed
           constructed_names constructed_apart
           (Exact.cube_at Exact.front_camera (0, 0, 0)%Q)
           Described.swapped_state).
  - exact ProjectorFacts.swapped_state_role_correct.
  - reflexivity.
  - reflexivity.
  - reflexivity.
  - vm_compute. reflexivity.
Defined.

End EnteringFacts.

(** ** The two games in the storage *)

Module StorageFacts.
Import Scene Script Storage.

Section WithThree.
Context `{T : Three}.
Variable colors_text : Cubie -> string.
Variable currentGameMode : string.

Lemma save_foreign c st key :
  foreign currentGameMode key ->
  save colors_text currentGameMode c st !! key = st !! key.
Proof.
  intros Hkey. unfold save. cbv zeta.
  rewrite !lookup_insert_ne by (apply not_eq_sym, Hkey).
  generalize (savedCubies c). intros cubies. revert st.
  induction cubies as [|cubie cubies IH]; intros st; cbn [foldl]; [done|].
  rewrite IH. apply lookup_insert_ne, not_eq_sym, Hkey.
Qed.

Lemma start_fresh_foreign c st key :
  foreign currentGameMode key ->
  start_fresh colors_text currentGameMode c st !! key = st !! key.
Proof.
  intros Hkey. unfold start_fresh. cbv zeta. rewrite save_foreign by done.
  rewrite lookup_delete_ne by (apply not_eq_sym, Hkey).
  by rewrite !lookup_insert_ne by (apply not_eq_sym, Hkey).
Qed.

Lemma other_mode_foreign mode' k :
  isDailyMode mode' <> isDailyMode currentGameMode ->
  foreign currentGameMode (getStorageKey mode' k)
  /\ getStorageKey mode' k <> "today".
Proof.
  intros Hmode. split.
  - intros k' Heq. apply Hmode. unfold getStorageKey in Heq.
    destruct (isDailyMode mode'), (isDailyMode currentGameMode);
      try done; cbn in Heq; discriminate.
  - unfold getStorageKey. destruct (isDailyMode mode'); cbn; discriminate.
Qed.

(** X25.  The set-up at page load, [save] and [startNewTrainerGame] write
    and remove only the item today and items under the prefix of the
    current mode: an item of the game of the other mode is after each of
    them what it was before, and so are the statistics, the stored mode and
    the tutorial flag. *)
Theorem other_mode_untouched (today : string) (c : cube) (st : storage)
    (mode' k : string) :
  isDailyMode mode' <> isDailyMode currentGameMode ->
  let unchanged key :=
    set_up colors_text currentGameMode today c st !! key = st !! key
    /\ save colors_text currentGameMode c st !! key = st !! key
    /\ startNewTrainerGame currentGameMode st !! key = st !! key in
  unchanged (getStorageKey mode' k)
  /\ unchanged "stats"
  /\ unchanged "gameMode"
  /\ unchanged "tutorialComplete".
Proof.
  intros Hmode unchanged.
  assert (Hall : forall key, foreign currentGameMode key ->
            key <> "today" -> unchanged key).
  { intros key Hkey Htoday. subst unchanged. cbv beta.
    split; [|split].
    - unfold set_up. destruct (isDailyMode currentGameMode).
      + case_bool_decide; [done|].
        rewrite start_fresh_foreign by done.
        apply lookup_insert_ne. by apply not_eq_sym.
      + match goal with
        | |- context [match ?x with _ => _ end] =>
            destruct x as [[|a s]|]
        end; try done; by rewrite start_fresh_foreign.
    - by apply save_foreign.
    - unfold startNewTrainerGame.
      destruct (isTrainerMode currentGameMode); [|done].
      by rewrite !lookup_delete_ne by (apply not_eq_sym, Hkey). }
  assert (Hshared : forall shared,
            shared ∈ ["stats"; "gameMode"; "tutorialComplete"] ->
            unchanged shared).
  { intros shared Hshared. apply Hall.
    - intros k' Heq. unfold getStorageKey in Heq.
      repeat (apply elem_of_cons in Hshared as [->|Hshared]);
        [..|by apply elem_of_nil in Hshared];
        destruct (isDailyMode currentGameMode); cbn in Heq; discriminate.
    - repeat (apply elem_of_cons in Hshared as [->|Hshared]);
        [..|by apply elem_of_nil in Hshared]; discriminate. }
  split; [|split; [|split]].
  - destruct (other_mode_foreign mode' k Hmode) as [Hforeign Htoday].
    by apply Hall.
  - apply Hshared. by left.
  - apply Hshared. right. by left.
  - apply Hshared. right. right. by left.
Qed.



End WithThree.

(** X25, witness: a trainer game in the storage while the daily game is set
    up on a new day. *)
Lemma other_mode_untouched_witness :
  let st : storage :=
    {[ "trainer_guesses" := "3"; "today" := "Sun Nov 01 2026" ]} in
  let unchanged key :=
    set_up (T := Exact.exact_three) (fun cubie => name cubie) "daily"
      "Mon Nov 02 2026" Exact.front_cube st !! key = st !! key
    /\ save (T := Exact.exact_three) (fun cubie => name cubie) "daily"
         Exact.front_cube st !! key = st !! key
    /\ startNewTrainerGame "daily" st !! key = st !! key in
  unchanged (getStorageKey "trainer" "guesses")
  /\ unchanged "stats"
  /\ unchanged "gameMode"
  /\ unchanged "tutorialComplete".
Proof.
  apply (other_mode_untouched (T := Exact.exact_three)
           (fun cubie => name cubie) "daily" "Mon Nov 02 2026"
           Exact.front_cube
           {[ "trainer_guesses" := "3"; "today" := "Sun Nov 01 2026" ]}
           "trainer" "guesses").
  vm_compute. discriminate.
Defined.


End StorageFacts.
